(** * Quadlet install / list / remove: a shallow embedding of
      [pkg/domain/infra/abi/quadlet.go] and its properties.

    The Go code works on three pieces of outside state: the file system, the
    systemd D-Bus connection and a handful of helpers of other packages.  The
    file system is an explicit finite map that the functions thread through;
    systemd, the HTTP client, the artifact store and the unit-file parser are
    fields of an environment record [Env], so every theorem quantifies over
    what they answer. *)

From Stdlib Require Import ZArith List String Ascii Bool Lia.
From stdpp Require Import base option strings gmap list sorting.

Local Open Scope string_scope.

(** ** Go strings *)

Module GoStrings.

(** The double quote character, for [%q]. *)
Definition dquote : string := String (ascii_of_nat 34) EmptyString.

(** [%q] of a string without characters that need escaping. *)
Definition quote (s : string) : string := dquote +:+ s +:+ dquote.

(** [strings.HasPrefix] *)
Definition HasPrefix (s p : string) : bool := String.prefix p s.

(** [strings.TrimPrefix] *)
Definition TrimPrefix (s p : string) : string :=
  if HasPrefix s p
  then String.substring (String.length p) (String.length s - String.length p) s
  else s.

(** [strings.Cut(s, "=")]: the text before and after the first [=]. *)
Fixpoint Cut_eq (s : string) : string * string * bool :=
  match s with
  | EmptyString => (EmptyString, EmptyString, false)
  | String c s' =>
      if Ascii.eqb c "="%char then (EmptyString, s', true)
      else
        let '(before, after, found) := Cut_eq s' in
        if found then (String c before, after, true)
        else (s, EmptyString, false)
  end.

(** [strings.Split(s, "/")] *)
Fixpoint split_slash (s : string) : list string :=
  match s with
  | EmptyString => [EmptyString]
  | String c s' =>
      let r := split_slash s' in
      if Ascii.eqb c "/"%char then EmptyString :: r
      else match r with
           | [] => [String c EmptyString]
           | x :: xs => String c x :: xs
           end
  end.

(** [strings.Join(elems, "/")] *)
Fixpoint join_slash (elems : list string) : string :=
  match elems with
  | [] => EmptyString
  | [e] => e
  | e :: es => e +:+ "/" +:+ join_slash es
  end.

Fixpoint has_slash (s : string) : bool :=
  match s with
  | EmptyString => false
  | String c s' => Ascii.eqb c "/"%char || has_slash s'
  end.

End GoStrings.

(** ** [path/filepath] on Unix *)

Module filepath.
Import GoStrings.

(** The lexical pass of [Clean] over the elements of a path; [stack] holds
    the elements kept so far, last one first. *)
Fixpoint clean_elems (rooted : bool) (stack elems : list string) : list string :=
  match elems with
  | [] => rev stack
  | e :: es =>
      if String.eqb e "" then clean_elems rooted stack es
      else if String.eqb e "." then clean_elems rooted stack es
      else if String.eqb e ".." then
        match stack with
        | top :: rest =>
            if String.eqb top ".." then clean_elems rooted (e :: stack) es
            else clean_elems rooted rest es
        | [] =>
            if rooted then clean_elems rooted [] es
            else clean_elems rooted [e] es
        end
      else clean_elems rooted (e :: stack) es
  end.

Definition Clean (path : string) : string :=
  if String.eqb path "" then "."
  else
    let rooted := HasPrefix path "/" in
    let out := join_slash (clean_elems rooted [] (split_slash path)) in
    if rooted then "/" +:+ out
    else if String.eqb out "" then "." else out.

(** [Join] of two elements. *)
Definition Join (a b : string) : string :=
  if negb (String.eqb a "") then Clean (a +:+ "/" +:+ b)
  else if negb (String.eqb b "") then Clean b
  else "".

(** [Base]: the last element, trailing separators removed first. *)
Definition Base (path : string) : string :=
  if String.eqb path "" then "."
  else
    match rev (filter (fun e => negb (String.eqb e "")) (split_slash path)) with
    | [] => "/"
    | e :: _ => e
    end.

(** [Ext]: from the last dot of the last element on. *)
Fixpoint Ext (path : string) : string :=
  match path with
  | EmptyString => EmptyString
  | String c rest =>
      let r := Ext rest in
      if negb (String.eqb r "") then r
      else if Ascii.eqb c "."%char && negb (has_slash rest) then path
      else EmptyString
  end.

(** The text of [path] up to and including its last separator. *)
Fixpoint dir_prefix (path : string) : string :=
  match path with
  | EmptyString => EmptyString
  | String c rest =>
      if has_slash path then
        if has_slash rest then String c (dir_prefix rest)
        else String c EmptyString
      else EmptyString
  end.

Definition Dir (path : string) : string := Clean (dir_prefix path).

End filepath.

(** ** Go errors *)

Inductive errno := ENOENT | EACCES | ENOTDIR | EISDIR | ENOTEMPTY | EEXIST | ENOSPC | EROFS.

Definition errno_text (no : errno) : string :=
  match no with
  | ENOENT => "no such file or directory"
  | EACCES => "permission denied"
  | ENOTDIR => "not a directory"
  | EISDIR => "is a directory"
  | ENOTEMPTY => "directory not empty"
  | EEXIST => "file exists"
  | ENOSPC => "no space left on device"
  | EROFS => "read-only file system"
  end.

(** An [error] value: an [*fs.PathError] of the [os] package, a plain message
    ([errors.New], [fmt.Errorf] without [%w], errors of other packages), or a
    message wrapping another error ([fmt.Errorf] with [%w]; [msg] is the whole
    formatted text). *)
Inductive error :=
| PathError (op path : string) (no : errno)
| errorString (msg : string)
| wrapError (msg : string) (err : error).

(** [err.Error()] *)
Definition Error (e : error) : string :=
  match e with
  | PathError op path no => op +:+ " " +:+ path +:+ ": " +:+ errno_text no
  | errorString msg => msg
  | wrapError msg _ => msg
  end.

(** [fmt.Errorf(prefix + "%w", err)] *)
Definition Errorf_w (prefix : string) (err : error) : error :=
  wrapError (prefix +:+ Error err) err.

(** [os.IsNotExist(err)]: looks at the error itself, not through [%w]. *)
Definition IsNotExist (e : error) : bool :=
  match e with
  | PathError _ _ ENOENT => true
  | _ => false
  end.

(** [errors.Is(err, fs.ErrNotExist)]: follows the chain of wrapped errors. *)
Fixpoint Is_ErrNotExist (e : error) : bool :=
  match e with
  | PathError _ _ ENOENT => true
  | PathError _ _ _ => false
  | errorString _ => false
  | wrapError _ inner => Is_ErrNotExist inner
  end.

(** A Go result pair [(T, error)] with the convention that exactly one of the
    two is meaningful. *)
Inductive result (A : Type) :=
| Ok (a : A)
| Err (e : error).
Arguments Ok {A} a.
Arguments Err {A} e.

(** ** Go maps

    A map value is [nil] or a reference to a table.  Reading a [nil] map
    behaves like reading an empty one; assigning to an entry of a [nil] map
    panics.  [new(T)] zeroes every field of [T], so a map field of a struct
    obtained from [new] is [nil] until something assigns a table to it; only
    [make] (or a literal) gives a table. *)

Module GoMap.

Definition t (V : Type) : Type := option (gmap string V).

Definition nil {V} : t V := None.
Definition make {V} : t V := Some ∅.

(** [m[k]] with the comma-ok form *)
Definition get {V} (m : t V) (k : string) : option V :=
  match m with
  | None => None
  | Some tbl => tbl !! k
  end.

(** [m[k] = v]; [None] is the run-time panic
    "assignment to entry in nil map". *)
Definition set {V} (m : t V) (k : string) (v : V) : option (t V) :=
  match m with
  | None => None
  | Some tbl => Some (Some (<[k := v]> tbl))
  end.

(** [len(m)] *)
Definition len {V} (m : t V) : nat :=
  match m with
  | None => 0
  | Some tbl => size tbl
  end.

Definition has_key {V} (m : t V) (k : string) : bool :=
  match get m k with Some _ => true | None => false end.

End GoMap.

(** ** The file system *)

(** What a path holds: a regular file with its permission bits and bytes, a
    directory, or something [stat] cannot reach ([EACCES]). *)
Inductive node :=
| File (perm : Z) (data : string)
| Directory
| Inaccessible.

Record FileInfo := { IsDir : bool; IsRegular : bool; Mode : Z }.

Module os.
Import filepath.

(** [os.Stat] *)
Definition Stat (fs : gmap string node) (path : string) : result FileInfo :=
  match fs !! path with
  | None => Err (PathError "stat" path ENOENT)
  | Some (File perm _) => Ok {| IsDir := false; IsRegular := true; Mode := perm |}
  | Some Directory => Ok {| IsDir := true; IsRegular := false; Mode := 493%Z |}
  | Some Inaccessible => Err (PathError "stat" path EACCES)
  end.

(** [os.ReadFile] *)
Definition ReadFile (fs : gmap string node) (path : string) : result string :=
  match fs !! path with
  | None => Err (PathError "open" path ENOENT)
  | Some (File _ data) => Ok data
  | Some Directory => Err (PathError "read" path EISDIR)
  | Some Inaccessible => Err (PathError "open" path EACCES)
  end.

(** What the machine may do to a write that the file system as such
    allows: refuse the open (the directory is not writable, the file system
    is read-only), or fail part of the way through (no space, an I/O error)
    with [written] in the file. *)
Inductive write_fault :=
| OpenFails (err : error)
| WriteFails (written : string) (err : error).

(** The file a write leaves at [path], opened with the mode bits [mode]:
    the whole of [data], or what a failing write got to. *)
Definition written_file (fault : option write_fault) (fs : gmap string node)
    (path data : string) (mode : Z) : gmap string node * option error :=
  match fault with
  | Some (OpenFails err) => (fs, Some err)
  | Some (WriteFails written err) => (<[path := File mode written]> fs, Some err)
  | None => (<[path := File mode data]> fs, None)
  end.

(** [os.WriteFile(path, data, perm)]: opens with [O_WRONLY|O_CREATE|O_TRUNC],
    so an existing file is truncated and keeps its mode, and a new one gets
    [perm] less the bits of the umask; then writes.  The parent directory has
    to be there. *)
Definition WriteFile (fault : option write_fault) (umask : Z) (fs : gmap string node)
    (path data : string) (perm : Z) : gmap string node * option error :=
  match fs !! path with
  | Some Directory => (fs, Some (PathError "open" path EISDIR))
  | Some Inaccessible => (fs, Some (PathError "open" path EACCES))
  | Some (File perm0 _) => written_file fault fs path data perm0
  | None =>
      match fs !! Dir path with
      | Some Directory => written_file fault fs path data (Z.land perm (Z.lnot umask))
      | Some (File _ _) => (fs, Some (PathError "open" path ENOTDIR))
      | Some Inaccessible => (fs, Some (PathError "open" path EACCES))
      | None => (fs, Some (PathError "open" path ENOENT))
      end
  end.

(** The names directly under [dir]. *)
Definition children (fs : gmap string node) (dir : string) : list (string * node) :=
  omap (fun '(p, n) =>
          if String.eqb (Dir p) dir && negb (String.eqb p dir)
          then Some (Base p, n) else None)
       (map_to_list fs).

Definition name_le (a b : string * node) : Prop := String.leb (fst a) (fst b) = true.

#[local] Instance name_le_dec : RelDecision name_le.
Proof. intros a b. unfold name_le. apply _. Defined.

(** [os.ReadDir]: the entries of a directory, sorted by name. *)
Definition ReadDir (fs : gmap string node) (dir : string) : result (list (string * node)) :=
  match fs !! dir with
  | None => Err (PathError "open" dir ENOENT)
  | Some (File _ _) => Err (PathError "readdirent" dir ENOTDIR)
  | Some Inaccessible => Err (PathError "open" dir EACCES)
  | Some Directory => Ok (merge_sort name_le (children fs dir))
  end.

(** Why the machine may refuse to take an entry that is there out of its
    directory: the directory is not writable by the caller ([EACCES]), or
    the file system is read-only ([EROFS]). *)
Inductive refusal := NotPermitted | ReadOnly.

Definition refusal_errno (why : refusal) : errno :=
  match why with
  | NotPermitted => EACCES
  | ReadOnly => EROFS
  end.

(** The entry at [path] taken out of its directory, unless the machine
    refuses. *)
Definition unlinked (fault : option refusal) (fs : gmap string node) (path : string)
  : gmap string node * option error :=
  match fault with
  | Some why => (fs, Some (PathError "remove" path (refusal_errno why)))
  | None => (delete path fs, None)
  end.

(** [os.Remove]: a file, or an empty directory. *)
Definition Remove (fault : option refusal) (fs : gmap string node) (path : string)
  : gmap string node * option error :=
  match fs !! path with
  | None => (fs, Some (PathError "remove" path ENOENT))
  | Some (File _ _) => unlinked fault fs path
  | Some Directory =>
      match children fs path with
      | [] => unlinked fault fs path
      | _ :: _ => (fs, Some (PathError "remove" path ENOTEMPTY))
      end
  | Some Inaccessible => (fs, Some (PathError "remove" path EACCES))
  end.

(** The ancestors of a cleaned path, nearest the root first, the path
    itself last. *)
Definition ancestors (path : string) : list string :=
  let rooted := GoStrings.HasPrefix path "/" in
  let elems := filter (fun e => negb (String.eqb e "")) (GoStrings.split_slash path) in
  (fix go (pre : string) (es : list string) : list string :=
     match es with
     | [] => []
     | e :: es' =>
         let p := if String.eqb pre "" then e
                  else if String.eqb pre "/" then "/" +:+ e
                  else pre +:+ "/" +:+ e in
         p :: go p es'
     end) (if rooted then "/" else "") elems.

(** [os.MkdirAll]: makes the directory and every missing parent; a path
    that is already a directory is left as it is. *)
Fixpoint mkdirs (fs : gmap string node) (paths : list string) : gmap string node * option error :=
  match paths with
  | [] => (fs, None)
  | p :: ps =>
      match fs !! p with
      | Some Directory => mkdirs fs ps
      | Some (File _ _) => (fs, Some (PathError "mkdir" p ENOTDIR))
      | Some Inaccessible => (fs, Some (PathError "mkdir" p EACCES))
      | None => mkdirs (<[p := Directory]> fs) ps
      end
  end.

Definition MkdirAll (fs : gmap string node) (path : string) : gmap string node * option error :=
  mkdirs fs (ancestors (Clean path)).

End os.

(** ** Types of the packages the engine talks to *)

Module dbus.
(** The fields of [dbus.UnitStatus] the engine reads. *)
Record UnitStatus := {
  Name : string;
  LoadState : string;
  ActiveState : string;
  SubState : string
}.
End dbus.

Module http.
(** An HTTP response whose headers arrived: the status line's code, the bytes
    of the body, and the error that reading the body ends with, if any. *)
Record Response := {
  StatusCode : Z;
  Body : string;
  BodyErr : option error
}.
End http.

Module entities.

Record QuadletInstallOptions := { ReloadSystemd : bool }.

(** Both fields are maps keyed by string: the engine assigns to their entries
    and the command ranges over them with a key and a value. *)
Record QuadletInstallReport := {
  InstalledQuadlets : GoMap.t string;
  QuadletErrors : GoMap.t error
}.

Record QuadletListOptions := { Filters : list string }.

Record ListQuadlet := {
  Name : string;
  Path : string;
  Status : string
}.

Record QuadletRemoveOptions := {
  Force : bool;
  All : bool;
  Ignore : bool
}.

Record QuadletRemoveReport := {
  Removed : list string;
  Errors : GoMap.t error
}.

(** [new(entities.QuadletInstallReport)]: every field zeroed. *)
Definition new_QuadletInstallReport : QuadletInstallReport :=
  {| InstalledQuadlets := GoMap.nil; QuadletErrors := GoMap.nil |}.

(** [new(entities.QuadletRemoveReport)] *)
Definition new_QuadletRemoveReport : QuadletRemoveReport :=
  {| Removed := []; Errors := GoMap.nil |}.

(** The zero value of [ListQuadlet]. *)
Definition zero_ListQuadlet : ListQuadlet :=
  {| Name := ""; Path := ""; Status := "" |}.

End entities.

#[global] Instance ListQuadlet_eq_dec : EqDecision entities.ListQuadlet.
Proof. solve_decision. Defined.

(** ** The environment

    Everything the engine asks of the outside world apart from the file
    system.  Each field is what the named call answers. *)
Record Env := {
  (** [rootless.IsRootless()] *)
  IsRootless : bool;
  (** [systemdquadlet.UnitDirAdmin] *)
  UnitDirAdmin : string;
  (** [systemdquadlet.GetUnitDirs(rootless)] *)
  GetUnitDirs : bool -> list string;
  (** the keys of [systemdquadlet.SupportedExtensions] *)
  SupportedExtensions : list string;
  (** [util.StringMatchRegexSlice(s, patterns)] *)
  StringMatchRegexSlice : string -> list string -> bool;
  (** [parser.UnitFile], [parser.ParseUnitFile] (given the path and the bytes
      on disk) and [systemdquadlet.GetUnitServiceName] *)
  UnitFile : Type;
  ParseUnitFile : string -> string -> result UnitFile;
  GetUnitServiceName : UnitFile -> result string;
  (** [systemd.ConnectToDBUS()] and [dbus.NewWithContext(ctx)] *)
  ConnectToDBUS : option error;
  dbus_NewWithContext : option error;
  (** [conn.ListUnitsByNamesContext(ctx, names)] *)
  ListUnitsByNames : list string -> result (list dbus.UnitStatus);
  (** [conn.StopUnitContext(ctx, name, "replace", ch)] followed by [<-ch]:
      the error of the call, or the word the job ends with. *)
  StopUnit : string -> result string;
  (** [conn.ReloadContext(ctx)] *)
  Reload : option error;
  (** [unix.Access(dir, unix.W_OK) == nil] *)
  Access_W_OK : string -> bool;
  (** the umask of the process *)
  umask : Z;
  (** what the machine does to [os.WriteFile] on a path: the open or the
      write that fails where the file system as such would allow it *)
  WriteFile_fault : string -> option os.write_fault;
  (** what the machine does to [os.Remove] of an installed quadlet: the
      refusal of an unlink the directory or the file system does not allow *)
  Remove_fault : string -> option os.refusal;
  (** [ic.Libpod.ArtifactStore()] and [as.GetLayers(ctx, name)]; the layers
      come in the order the [range] over the returned map visits them. *)
  ArtifactStore : option error;
  GetLayers : string -> result (list (string * string));
  (** [os.CreateTemp("", "quadlet-dl")]: the name of the new file *)
  CreateTemp : gmap string node -> result string;
  (** [http.Get(url)] *)
  http_Get : string -> result http.Response;
  (** running the generator with the given arguments: [None] if it exits
      with status 0 *)
  generator : gmap string node -> list string -> option error
}.

(** ** Control flow of a Go function body

    A statement or a loop iteration falls through to the next one, returns
    from the enclosing function, or panics. *)
Inductive flow (S R : Type) :=
| Continue (s : S)
| Return (s : S) (r : R)
| Panic (s : S).
Arguments Continue {S R} s.
Arguments Return {S R} s r.
Arguments Panic {S R} s.

(** [for _, x := range l { body }] *)
Fixpoint for_range {S R A} (body : S -> A -> flow S R) (l : list A) (s : S) : flow S R :=
  match l with
  | [] => Continue s
  | x :: l' =>
      match body s x with
      | Continue s' => for_range body l' s'
      | Return s' r => Return s' r
      | Panic s' => Panic s'
      end
  end.

(** How a call of an engine method ends: with its return values and the file
    system it leaves, or in a panic. *)
Inductive outcome (R : Type) :=
| Returned (fs : gmap string node) (r : R)
| Panicked (fs : gmap string node).
Arguments Returned {R} fs r.
Arguments Panicked {R} fs.

(** ** The engine *)

Module abi.
Import GoStrings filepath entities.

Section Engine.
Context (E : Env).

(** Modelled from the spec: [systemdquadlet.IsExtSupported] is not among the
    sources; "a fixed allow-list" of extensions "enforced identically at
    install, list, and remove time", looked up by the extension of the name. *)
Definition IsExtSupported (filename : string) : bool :=
  existsb (String.eqb (Ext filename)) (SupportedExtensions E).

(** *** Install *)

Definition err_source_missing (path : string) (err : error) : error :=
  Errorf_w ("quadlet to install " +:+ quote path +:+ " does not exist or cannot be read: ") err.

Definition err_source_not_file (path : string) : error :=
  errorString ("quadlet to install " +:+ quote path +:+ " is not a file").

Definition err_already_exists (finalPath : string) : error :=
  errorString ("a Quadlet with name " +:+ Base finalPath +:+ " already exists, refusing to overwrite").

Definition err_unsupported (finalPath : string) : error :=
  errorString (quote (Ext finalPath) +:+ " is not a supported Quadlet file type").

(** Where [installQuadlet] puts the file. *)
Definition install_destination (path destName installDir : string) : string :=
  let finalPath := Join installDir (Base (Clean path)) in
  if negb (String.eqb destName "") then Join installDir destName else finalPath.

Definition installQuadlet (fs : gmap string node) (path destName installDir : string)
  : gmap string node * result string :=
  match os.Stat fs path with
  | Err err => (fs, Err (err_source_missing path err))
  | Ok stat =>
      if IsDir stat then (fs, Err (err_source_not_file path))
      else
        let finalPath := install_destination path destName installDir in
        match os.Stat fs finalPath with
        | Ok _ => (fs, Err (err_already_exists finalPath))
        | Err _ =>
            if negb (IsExtSupported finalPath) then (fs, Err (err_unsupported finalPath))
            else
              match os.ReadFile fs path with
              | Err err => (fs, Err (Errorf_w ("reading source file " +:+ quote path +:+ ": ") err))
              | Ok contents =>
                  match os.WriteFile (WriteFile_fault E finalPath) (umask E) fs finalPath
                          contents 420 with
                  | (fs', Some err) =>
                      (fs', Err (Errorf_w ("writing Quadlet " +:+ quote path +:+ " to "
                                           +:+ quote finalPath +:+ ": ") err))
                  | (fs', None) => (fs', Ok finalPath)
                  end
              end
        end
  end.

(** The variables of [QuadletInstall] that its loop changes: the file
    system, the report, and the temporary files whose removal is deferred
    to the end of the call. *)
Record install_state := {
  i_fs : gmap string node;
  i_report : QuadletInstallReport;
  i_tmp : list string
}.

Definition i_with_fs (st : install_state) (fs : gmap string node) : install_state :=
  {| i_fs := fs; i_report := i_report st; i_tmp := i_tmp st |}.

Definition install_return : Type := option QuadletInstallReport * option error.

(** [installReport.QuadletErrors[key] = err] *)
Definition set_QuadletErrors (st : install_state) (key : string) (err : error)
  : flow install_state install_return :=
  match GoMap.set (QuadletErrors (i_report st)) key err with
  | None => Panic st
  | Some m =>
      Continue {| i_fs := i_fs st;
                  i_report := {| InstalledQuadlets := InstalledQuadlets (i_report st);
                                 QuadletErrors := m |};
                  i_tmp := i_tmp st |}
  end.

(** [installReport.InstalledQuadlets[key] = finalPath] *)
Definition set_InstalledQuadlets (st : install_state) (key finalPath : string)
  : flow install_state install_return :=
  match GoMap.set (InstalledQuadlets (i_report st)) key finalPath with
  | None => Panic st
  | Some m =>
      Continue {| i_fs := i_fs st;
                  i_report := {| InstalledQuadlets := m;
                                 QuadletErrors := QuadletErrors (i_report st) |};
                  i_tmp := i_tmp st |}
  end.

(** Recording the outcome of one [installQuadlet] under [key]. *)
Definition record_install (st : install_state) (key : string) (r : result string)
  : flow install_state install_return :=
  match r with
  | Err err => set_QuadletErrors st key err
  | Ok finalPath => set_InstalledQuadlets st key finalPath
  end.

(** The body of [for filename, pathOnDisk := range layers]. *)
Definition install_layer (installDir : string) (st : install_state) (layer : string * string)
  : flow install_state install_return :=
  let '(filename, pathOnDisk) := layer in
  let '(fs', r) := installQuadlet (i_fs st) pathOnDisk filename installDir in
  record_install (i_with_fs st fs') pathOnDisk r.

(** [io.Copy(tmpFile, r.Body)] *)
Definition copy_body (fs : gmap string node) (tmp : string) (r : http.Response)
  : gmap string node * option error :=
  match http.BodyErr r with
  | Some err => (fs, Some err)
  | None => (<[tmp := File 384 (http.Body r)]> fs, None)
  end.

(** The body of [for _, toInstall := range pathsOrURLs]. *)
Definition install_one (installDir : string) (st : install_state) (toInstall : string)
  : flow install_state install_return :=
  if HasPrefix toInstall "oci-artifact://" then
    let artName := TrimPrefix toInstall "oci-artifact://" in
    match GetLayers E artName with
    | Err err =>
        Return st (None, Some (Errorf_w ("retrieving OCI artifact " +:+ artName +:+ ": ") err))
    | Ok layers => for_range (install_layer installDir) layers st
    end
  else if HasPrefix toInstall "http://" || HasPrefix toInstall "https://" then
    match CreateTemp E (i_fs st) with
    | Err err =>
        set_QuadletErrors st toInstall
          (Errorf_w ("unable to create temporay file to download URL " +:+ toInstall +:+ ": ") err)
    | Ok tmpFile =>
        let st := {| i_fs := <[tmpFile := File 384 ""]> (i_fs st);
                     i_report := i_report st;
                     i_tmp := tmpFile :: i_tmp st |} in
        match http_Get E toInstall with
        | Err err =>
            set_QuadletErrors st toInstall
              (Errorf_w ("unable to download URL " +:+ toInstall +:+ ": ") err)
        | Ok r =>
            match copy_body (i_fs st) tmpFile r with
            | (fs', Some err) =>
                set_QuadletErrors (i_with_fs st fs') toInstall
                  (Errorf_w "populating temporary file: " err)
            | (fs', None) =>
                let '(fs'', res) := installQuadlet fs' tmpFile "" installDir in
                record_install (i_with_fs st fs'') toInstall res
            end
        end
    end
  else
    let '(fs', res) := installQuadlet (i_fs st) toInstall "" installDir in
    record_install (i_with_fs st fs') toInstall res.

(** The deferred [os.Remove(tmpFile.Name())] calls, last deferred first;
    a failure is only logged.  The file is one this call made, in the
    directory for temporary files: no unlink is refused there. *)
Fixpoint run_deferred (fs : gmap string node) (tmp : list string) : gmap string node :=
  match tmp with
  | [] => fs
  | t :: rest => run_deferred (os.Remove None fs t).1 rest
  end.

(** The loop over the rootless unit directories that picks [installDir]. *)
Fixpoint select_install_dir (fs : gmap string node) (dirs : list string)
    (installDir : string) (foundAdminDir : bool) : string :=
  match dirs with
  | [] => installDir
  | dir :: rest =>
      if HasPrefix dir (UnitDirAdmin E) then
        match os.Stat fs dir with
        | Err _ => select_install_dir fs rest installDir foundAdminDir
        | Ok stat =>
            if negb (IsDir stat) then select_install_dir fs rest installDir foundAdminDir
            else
              let installDir1 := if Access_W_OK E dir then dir else installDir in
              let foundAdminDir1 := if Access_W_OK E dir then true else foundAdminDir in
              let installDir2 := if negb foundAdminDir1 then dir else installDir1 in
              select_install_dir fs rest installDir2 foundAdminDir1
        end
      else
        let installDir1 := if negb foundAdminDir then dir else installDir in
        select_install_dir fs rest installDir1 foundAdminDir
  end.

Definition quadletPath : string := "/usr/lib/systemd/system-generators/podman-system-generator".

(** [QuadletInstall] up to the point where the report is allocated: the
    checks, the choice of the install directory and its creation.  The result
    is the file system and the directory, or the error the call returns. *)
Definition install_prepare (fs : gmap string node) : gmap string node * result string :=
  match ConnectToDBUS E with
  | Some err => (fs, Err (Errorf_w "connecting to systemd dbus: " err))
  | None =>
      match os.Stat fs quadletPath with
      | Err err =>
          (fs, Err (Errorf_w "cannot stat Quadlet generator, Quadlet may not be installed: " err))
      | Ok quadletStat =>
          if negb (IsRegular quadletStat) || negb (negb (Z.eqb (Z.land (Mode quadletStat) 64) 0))
          then (fs, Err (errorString ("no valid Quadlet binary installed to " +:+ quote quadletPath
                                      +:+ ", unable to use Quadlet")))
          else
            let installDir :=
              if IsRootless E
              then select_install_dir fs (GetUnitDirs E true) (UnitDirAdmin E) false
              else UnitDirAdmin E in
            let cannot_stat err :=
              Errorf_w ("unable to stat Quadlet install path " +:+ installDir +:+ ": ") err in
            if IsRootless E then
              match os.Stat fs installDir with
              | Err err =>
                  if IsNotExist err then
                    match os.MkdirAll fs installDir with
                    | (fs', Some err') =>
                        (fs', Err (Errorf_w ("unable to create Quadlet install path "
                                             +:+ installDir +:+ ": ") err'))
                    | (fs', None) => (fs', Ok installDir)
                    end
                  else (fs, Err (cannot_stat err))
              | Ok _ => (fs, Ok installDir)
              end
            else
              match os.Stat fs installDir with
              | Err err => (fs, Err (cannot_stat err))
              | Ok stat =>
                  if negb (IsDir stat)
                  then (fs, Err (errorString ("install path " +:+ installDir
                                              +:+ " for Quadlets is not a directory")))
                  else (fs, Ok installDir)
              end
      end
  end.

(** [QuadletInstall] after the loop: the dry run of the generator, the
    reload, and the return. *)
Definition install_finish (options : QuadletInstallOptions) (st : install_state) : install_return :=
  let quadletArgs := if IsRootless E then ["--dryrun"; "--user"] else ["--dryrun"] in
  let validateErr :=
    match generator E (i_fs st) quadletArgs with
    | Some _ => Some (errorString "validating Quadlet syntax failed")
    | None => None
    end in
  if ReloadSystemd options then
    match Reload E with
    | Some err => (Some (i_report st), Some (Errorf_w "reloading systemd: " err))
    | None => (Some (i_report st), validateErr)
    end
  else (Some (i_report st), validateErr).

(** [QuadletInstall] from the allocation of the report on, for a report
    that starts as [installReport]. *)
Definition install_from (installReport : QuadletInstallReport) (fs : gmap string node)
    (installDir : string) (pathsOrURLs : list string) (options : QuadletInstallOptions)
  : outcome install_return :=
  match ArtifactStore E with
  | Some err => Returned fs (None, Some err)
  | None =>
      let st := {| i_fs := fs; i_report := installReport; i_tmp := [] |} in
      match for_range (install_one installDir) pathsOrURLs st with
      | Continue st' => Returned (run_deferred (i_fs st') (i_tmp st')) (install_finish options st')
      | Return st' r => Returned (run_deferred (i_fs st') (i_tmp st')) r
      | Panic st' => Panicked (run_deferred (i_fs st') (i_tmp st'))
      end
  end.

Definition QuadletInstall (fs : gmap string node) (pathsOrURLs : list string)
    (options : QuadletInstallOptions) : outcome install_return :=
  match install_prepare fs with
  | (fs', Err err) => Returned fs' (None, Some err)
  | (fs', Ok installDir) =>
      install_from new_QuadletInstallReport fs' installDir pathsOrURLs options
  end.

(** *** List *)

(** The entries of one directory that are quadlet files, as full paths. *)
Definition quadlets_in (dir : string) (dents : list (string * node)) : list string :=
  omap (fun '(name, n) =>
          let isDir := match n with Directory => true | _ => false end in
          if IsExtSupported name && negb isDir then Some (Join dir name) else None)
       dents.

(** A directory that cannot be read is skipped; the error result is always
    [nil]. *)
Definition getAllQuadletPaths (fs : gmap string node) : result (list string) :=
  Ok (concat (map (fun dir =>
                     match os.ReadDir fs dir with
                     | Err _ => []
                     | Ok dents => quadlets_in dir dents
                     end)
                  (GetUnitDirs E (IsRootless E)))).

Definition getQuadletServiceName (fs : gmap string node) (quadletPath : string) : result string :=
  let parsing err := Errorf_w ("parsing Quadlet file " +:+ quadletPath +:+ ": ") err in
  match os.ReadFile fs quadletPath with
  | Err err => Err (parsing err)
  | Ok data =>
      match ParseUnitFile E quadletPath data with
      | Err err => Err (parsing err)
      | Ok unit =>
          match GetUnitServiceName E unit with
          | Err err =>
              Err (Errorf_w ("generating service name for Quadlet " +:+ Base quadletPath +:+ ": ") err)
          | Ok serviceName => Ok (serviceName +:+ ".service")
          end
      end
  end.

Definition QuadletFilter : Type := ListQuadlet -> bool.

Definition generateQuadletFilter (filter : string) (filterValues : list string)
  : result QuadletFilter :=
  if String.eqb filter "name"
  then Ok (fun q => StringMatchRegexSlice E (Name q) filterValues)
  else Err (errorString (filter +:+ " is not a valid filter")).

(** [for _, f := range options.Filters]: the values of each filter name,
    in the order given. *)
Fixpoint build_filterMap (filters : list string) (filterMap : gmap string (list string))
  : result (gmap string (list string)) :=
  match filters with
  | [] => Ok filterMap
  | f :: rest =>
      let '(fname, filter, hasFilter) := Cut_eq f in
      if negb hasFilter then Err (errorString ("invalid filter " +:+ quote f))
      else build_filterMap rest
             (<[fname := (default [] (filterMap !! fname) ++ [filter])%list]> filterMap)
  end.

(** [for fname, filter := range filterMap], in the order [entries] lists
    them (Go fixes none). *)
Fixpoint build_filterFuncs (entries : list (string * list string)) : result (list QuadletFilter) :=
  match entries with
  | [] => Ok []
  | (fname, filter) :: rest =>
      match generateQuadletFilter fname filter with
      | Err err => Err err
      | Ok filterFunc =>
          match build_filterFuncs rest with
          | Err err => Err err
          | Ok filterFuncs => Ok (filterFunc :: filterFuncs)
          end
      end
  end.

(** What the loop over [quadletPaths] builds. *)
Record list_state := {
  l_reports : list ListQuadlet;
  l_allServiceNames : list string;
  l_partialReports : gmap string ListQuadlet
}.

Definition list_path (fs : gmap string node) (st : list_state) (path : string) : list_state :=
  let report := {| Name := Base path; Path := path; Status := "" |} in
  match getQuadletServiceName fs path with
  | Err err =>
      {| l_reports := (l_reports st ++ [{| Name := Name report; Path := Path report;
                                           Status := Error err |}])%list;
         l_allServiceNames := l_allServiceNames st;
         l_partialReports := l_partialReports st |}
  | Ok serviceName =>
      {| l_reports := l_reports st;
         l_allServiceNames := (l_allServiceNames st ++ [serviceName])%list;
         l_partialReports := <[serviceName := report]> (l_partialReports st) |}
  end.

Definition with_Status (report : ListQuadlet) (status : string) : ListQuadlet :=
  {| Name := Name report; Path := Path report; Status := status |}.

(** The body of [for _, unitStatus := range statuses]; a unit that was not
    asked for gets the zero report. *)
Definition list_unit (st : list_state) (unitStatus : dbus.UnitStatus) : list_state :=
  let report := default zero_ListQuadlet (l_partialReports st !! dbus.Name unitStatus) in
  if negb (String.eqb (dbus.LoadState unitStatus) "loaded") then
    {| l_reports := (l_reports st ++ [with_Status report "Not loaded"])%list;
       l_allServiceNames := l_allServiceNames st;
       l_partialReports := delete (dbus.Name unitStatus) (l_partialReports st) |}
  else
    {| l_reports := (l_reports st
                     ++ [with_Status report (dbus.ActiveState unitStatus +:+ "/"
                                             +:+ dbus.SubState unitStatus)])%list;
       l_allServiceNames := l_allServiceNames st;
       l_partialReports := delete (dbus.Name unitStatus) (l_partialReports st) |}.

(** [for _, report := range partialReports]: since Go 1.22 every iteration
    has its own [report], so the pointers appended are to different values.
    Go visits the keys in no fixed order; this is one such order. *)
Definition list_leftover (partialReports : gmap string ListQuadlet) : list ListQuadlet :=
  map (fun '(_, report) => with_Status report "Not loaded") (map_to_list partialReports).

(** The inner loop over [filterFuncs]. *)
Fixpoint filter_include (filterFuncs : list QuadletFilter) (report : ListQuadlet) (include : bool)
  : bool :=
  match filterFuncs with
  | [] => include
  | filterFunc :: rest => filter_include rest report (include || filterFunc report)
  end.

(** The loop that builds [finalReports]. *)
Definition final_reports (filterFuncs : list QuadletFilter) (reports : list ListQuadlet)
  : list ListQuadlet :=
  filter (fun report => filter_include filterFuncs report true = true) reports.

Definition QuadletList (fs : gmap string node) (options : QuadletListOptions)
  : result (list ListQuadlet) :=
  match dbus_NewWithContext E with
  | Some err => Err (Errorf_w "connecting to systemd dbus: " err)
  | None =>
      match getAllQuadletPaths fs with
      | Err err => Err (Errorf_w "listing all quadlets: " err)
      | Ok quadletPaths =>
          match build_filterMap (Filters options) ∅ with
          | Err err => Err err
          | Ok filterMap =>
              match build_filterFuncs (map_to_list filterMap) with
              | Err err => Err err
              | Ok filterFuncs =>
                  let st := fold_left (list_path fs) quadletPaths
                              {| l_reports := []; l_allServiceNames := [];
                                 l_partialReports := ∅ |} in
                  match ListUnitsByNames E (l_allServiceNames st) with
                  | Err err => Err (Errorf_w "querying systemd for unit status: " err)
                  | Ok statuses =>
                      let st := fold_left list_unit statuses st in
                      let reports := (l_reports st ++ list_leftover (l_partialReports st))%list in
                      Ok (final_reports filterFuncs reports)
                  end
              end
          end
      end
  end.

(** *** Lookup by name *)

(** The loop of [getQuadletByName] over the unit directories. *)
Fixpoint find_quadlet (fs : gmap string node) (name : string) (dirs : list string) : result string :=
  match dirs with
  | [] => Err (errorString ("could not locate quadlet " +:+ quote name
                            +:+ " in any supported quadlet directory"))
  | dir :: rest =>
      let testPath := Join dir name in
      match os.Stat fs testPath with
      | Err err =>
          if negb (IsNotExist err)
          then Err (Errorf_w ("cannot stat quadlet at path " +:+ quote testPath +:+ ": ") err)
          else find_quadlet fs name rest
      | Ok _ => Ok testPath
      end
  end.

Definition getQuadletByName (fs : gmap string node) (name : string) : result string :=
  if negb (IsExtSupported name)
  then Err (errorString (quote (Ext name) +:+ " is not a supported quadlet file type"))
  else find_quadlet fs name (GetUnitDirs E (IsRootless E)).

Definition QuadletPrint (fs : gmap string node) (quadlet : string) : result string :=
  match getQuadletByName fs quadlet with
  | Err err => Err err
  | Ok quadletPath =>
      match os.ReadFile fs quadletPath with
      | Err err => Err (Errorf_w ("reading quadlet " +:+ quote quadletPath +:+ " contents: ") err)
      | Ok contents => Ok contents
      end
  end.

(** *** Remove *)

(** The variables of [QuadletRemove] that its loops change. *)
Record remove_state := {
  r_fs : gmap string node;
  r_report : QuadletRemoveReport;
  r_allQuadletPaths : list string;
  r_allServiceNames : list string;
  r_runningQuadlets : list string;
  r_serviceNameToQuadletName : gmap string string;
  r_needReload : bool
}.

Definition remove_return : Type := option QuadletRemoveReport * option error.

Definition r_with_report (st : remove_state) (report : QuadletRemoveReport) : remove_state :=
  {| r_fs := r_fs st; r_report := report;
     r_allQuadletPaths := r_allQuadletPaths st;
     r_allServiceNames := r_allServiceNames st;
     r_runningQuadlets := r_runningQuadlets st;
     r_serviceNameToQuadletName := r_serviceNameToQuadletName st;
     r_needReload := r_needReload st |}.

(** [report.Removed = append(report.Removed, name)] *)
Definition append_Removed (st : remove_state) (name : string) : remove_state :=
  r_with_report st {| Removed := (Removed (r_report st) ++ [name])%list;
                      Errors := Errors (r_report st) |}.

(** [report.Errors[key] = err] *)
Definition set_Errors (st : remove_state) (key : string) (err : error)
  : flow remove_state remove_return :=
  match GoMap.set (Errors (r_report st)) key err with
  | None => Panic st
  | Some m => Continue (r_with_report st {| Removed := Removed (r_report st); Errors := m |})
  end.

(** [allQuadletPaths = append(allQuadletPaths, quadletPath)] *)
Definition append_path (st : remove_state) (quadletPath : string) : remove_state :=
  {| r_fs := r_fs st; r_report := r_report st;
     r_allQuadletPaths := (r_allQuadletPaths st ++ [quadletPath])%list;
     r_allServiceNames := r_allServiceNames st;
     r_runningQuadlets := r_runningQuadlets st;
     r_serviceNameToQuadletName := r_serviceNameToQuadletName st;
     r_needReload := r_needReload st |}.

(** [allServiceNames = append(allServiceNames, serviceName)] and
    [serviceNameToQuadletName[serviceName] = quadlet] *)
Definition append_service (st : remove_state) (serviceName quadlet : string) : remove_state :=
  {| r_fs := r_fs st; r_report := r_report st;
     r_allQuadletPaths := r_allQuadletPaths st;
     r_allServiceNames := (r_allServiceNames st ++ [serviceName])%list;
     r_runningQuadlets := r_runningQuadlets st;
     r_serviceNameToQuadletName := <[serviceName := quadlet]> (r_serviceNameToQuadletName st);
     r_needReload := r_needReload st |}.

(** [runningQuadlets = append(runningQuadlets, quadletName)] *)
Definition append_running (st : remove_state) (quadletName : string) : remove_state :=
  {| r_fs := r_fs st; r_report := r_report st;
     r_allQuadletPaths := r_allQuadletPaths st;
     r_allServiceNames := r_allServiceNames st;
     r_runningQuadlets := (r_runningQuadlets st ++ [quadletName])%list;
     r_serviceNameToQuadletName := r_serviceNameToQuadletName st;
     r_needReload := r_needReload st |}.

(** [needReload = true] *)
Definition set_needReload (st : remove_state) : remove_state :=
  {| r_fs := r_fs st; r_report := r_report st;
     r_allQuadletPaths := r_allQuadletPaths st;
     r_allServiceNames := r_allServiceNames st;
     r_runningQuadlets := r_runningQuadlets st;
     r_serviceNameToQuadletName := r_serviceNameToQuadletName st;
     r_needReload := true |}.

Definition r_with_fs (st : remove_state) (fs : gmap string node) : remove_state :=
  {| r_fs := fs; r_report := r_report st;
     r_allQuadletPaths := r_allQuadletPaths st;
     r_allServiceNames := r_allServiceNames st;
     r_runningQuadlets := r_runningQuadlets st;
     r_serviceNameToQuadletName := r_serviceNameToQuadletName st;
     r_needReload := r_needReload st |}.

(** An assignment to [report.Errors] followed by more statements of the
    same iteration. *)
Definition and_then (f : flow remove_state remove_return) (k : remove_state -> remove_state)
  : flow remove_state remove_return :=
  match f with
  | Continue st => Continue (k st)
  | Return st r => Return st r
  | Panic st => Panic st
  end.

(** The body of [for _, quadlet := range quadlets]. *)
Definition remove_resolve (options : QuadletRemoveOptions) (st : remove_state) (quadlet : string)
  : flow remove_state remove_return :=
  match getQuadletByName (r_fs st) quadlet with
  | Err err =>
      if Ignore options || All options
      then Continue (append_Removed st quadlet)
      else set_Errors st quadlet err
  | Ok quadletPath =>
      let st := append_path st quadletPath in
      match getQuadletServiceName (r_fs st) quadletPath with
      | Err err => set_Errors st quadlet err
      | Ok serviceName => Continue (append_service st serviceName quadlet)
      end
  end.

Definition err_running (quadletName : string) : error :=
  errorString ("quadlet " +:+ quadletName +:+ " is running and force is not set, refusing to remove").

(** The body of [for _, unitStatus := range statuses]. *)
Definition remove_unit (options : QuadletRemoveOptions) (st : remove_state)
    (unitStatus : dbus.UnitStatus) : flow remove_state remove_return :=
  let quadletName := default "" (r_serviceNameToQuadletName st !! dbus.Name unitStatus) in
  if negb (String.eqb (dbus.LoadState unitStatus) "loaded") then Continue st
  else
    let st := set_needReload st in
    if String.eqb (dbus.ActiveState unitStatus) "active" then
      if negb (Force options) then
        and_then (set_Errors st quadletName (err_running quadletName))
                 (fun st => append_running st quadletName)
      else
        match StopUnit E (dbus.Name unitStatus) with
        | Err err =>
            and_then (set_Errors st quadletName
                        (Errorf_w ("stopping quadlet " +:+ quadletName +:+ ": ") err))
                     (fun st => append_running st quadletName)
        | Ok stopResult =>
            if negb (String.eqb stopResult "done") && negb (String.eqb stopResult "skipped")
            then
              and_then (set_Errors st quadletName
                          (errorString ("unable to stop quadlet " +:+ quadletName +:+ ": "
                                        +:+ stopResult)))
                       (fun st => append_running st quadletName)
            else Continue st
        end
    else Continue st.

(** [slices.Contains] *)
Definition Contains (l : list string) (x : string) : bool := existsb (String.eqb x) l.

(** The body of [for _, path := range allQuadletPaths]. *)
Definition remove_file (st : remove_state) (path : string) : flow remove_state remove_return :=
  let quadletName := Base path in
  if Contains (r_runningQuadlets st) quadletName then Continue st
  else
    match os.Remove (Remove_fault E path) (r_fs st) path with
    | (fs', Some err) =>
        if negb (Is_ErrNotExist err)
        then set_Errors (r_with_fs st fs') quadletName
               (Errorf_w ("removing quadlet " +:+ quadletName +:+ ": ") err)
        else Continue (append_Removed (r_with_fs st fs') quadletName)
    | (fs', None) => Continue (append_Removed (r_with_fs st fs') quadletName)
    end.

(** [QuadletRemove] from the first loop on. *)
Definition remove_loops (options : QuadletRemoveOptions) (quadlets : list string)
    (st : remove_state) : flow remove_state remove_return :=
  match for_range (remove_resolve options) quadlets st with
  | Continue st =>
      let after_units :=
        if negb (Nat.eqb (length (r_allServiceNames st)) 0) then
          match ListUnitsByNames E (r_allServiceNames st) with
          | Err err => Return st (None, Some (Errorf_w "querying systemd for unit status: " err))
          | Ok statuses => for_range (remove_unit options) statuses st
          end
        else Continue st in
      match after_units with
      | Continue st =>
          let after_files :=
            if negb (Nat.eqb (length (r_allQuadletPaths st)) 0)
            then for_range remove_file (r_allQuadletPaths st) st
            else Continue st in
          match after_files with
          | Continue st =>
              if r_needReload st then
                match Reload E with
                | Some err =>
                    Return st (Some (r_report st), Some (Errorf_w "reloading systemd: " err))
                | None => Return st (Some (r_report st), None)
                end
              else Return st (Some (r_report st), None)
          | Return st r => Return st r
          | Panic st => Panic st
          end
      | Return st r => Return st r
      | Panic st => Panic st
      end
  | Return st r => Return st r
  | Panic st => Panic st
  end.

(** [QuadletRemove] for a report that starts as [report]. *)
Definition remove_from (report : QuadletRemoveReport) (fs : gmap string node)
    (quadlets : list string) (options : QuadletRemoveOptions) : outcome remove_return :=
  if Nat.eqb (length quadlets) 0 && negb (All options)
  then Returned fs (None, Some (errorString "must provide at least 1 quadlet to remove"))
  else
    match ConnectToDBUS E with
    | Some err => Returned fs (None, Some (Errorf_w "connecting to systemd dbus: " err))
    | None =>
        let start quadlets :=
          match remove_loops options quadlets
                  {| r_fs := fs; r_report := report;
                     r_allQuadletPaths := []; r_allServiceNames := [];
                     r_runningQuadlets := [];
                     r_serviceNameToQuadletName := ∅;
                     r_needReload := false |} with
          | Continue st => Returned (r_fs st) (Some (r_report st), None)
          | Return st r => Returned (r_fs st) r
          | Panic st => Panicked (r_fs st)
          end in
        if All options then
          match getAllQuadletPaths fs with
          | Err err => Returned fs (None, Some err)
          | Ok allQuadlets => start allQuadlets
          end
        else start quadlets
    end.

Definition QuadletRemove (fs : gmap string node) (quadlets : list string)
    (options : QuadletRemoveOptions) : outcome remove_return :=
  remove_from new_QuadletRemoveReport fs quadlets options.

End Engine.
End abi.

(** ** What the specification says, in its own words *)

Module Spec.
Import entities.

(** "a returned unit with [LoadState != "loaded"] yields [status = "Not
    loaded"]; otherwise [status = "<ActiveState>/<SubState>"].  Any queried
    name absent from the response also yields ["Not loaded"]." *)
Definition reconciled_status (statuses : list dbus.UnitStatus) (serviceName : string) : string :=
  match List.find (fun u => String.eqb (dbus.Name u) serviceName) statuses with
  | Some u =>
      if String.eqb (dbus.LoadState u) "loaded"
      then dbus.ActiveState u +:+ "/" +:+ dbus.SubState u
      else "Not loaded"
  | None => "Not loaded"
  end.

(** "an entry is included only if it satisfies every supplied filter (logical
    AND across filter names; within one filter name, logical OR across its
    accepted values)"; [matches name value entry] says whether the entry
    matches one accepted value of the filter [name]. *)
Definition satisfies (matches : string -> string -> ListQuadlet -> bool)
    (filters : list (string * list string)) (entry : ListQuadlet) : bool :=
  forallb (fun '(name, values) => existsb (fun v => matches name v entry) values) filters.

End Spec.

(** ** A concrete machine *)

Module Scenario.
Import GoStrings filepath entities abi.

(** The name of a quadlet file without its extension. *)
Definition stem (name : string) : string :=
  String.substring 0 (String.length name - String.length (Ext name)) name.

Definition not_found (name : string) : dbus.UnitStatus :=
  {| dbus.Name := name; dbus.LoadState := "not-found";
     dbus.ActiveState := "inactive"; dbus.SubState := "dead" |}.

Definition running (name : string) : dbus.UnitStatus :=
  {| dbus.Name := name; dbus.LoadState := "loaded";
     dbus.ActiveState := "active"; dbus.SubState := "running" |}.

(** systemd answers for every name it is asked about. *)
Definition units_answer (known : list dbus.UnitStatus) (names : list string)
  : list dbus.UnitStatus :=
  map (fun n => default (not_found n)
                  (List.find (fun u => String.eqb (dbus.Name u) n) known)) names.

Definition page_404 : http.Response :=
  {| http.StatusCode := 404; http.Body := "<html>404 Not Found</html>"; http.BodyErr := None |}.

(** A root user's machine on which systemd knows the units [known]. *)
Definition env (known : list dbus.UnitStatus) : Env :=
  {| IsRootless := false;
     UnitDirAdmin := "/etc/containers/systemd";
     GetUnitDirs := fun _ => ["/etc/containers/systemd"; "/usr/share/containers/systemd"];
     SupportedExtensions :=
       [".container"; ".volume"; ".network"; ".kube"; ".image"; ".build"; ".pod"];
     StringMatchRegexSlice := fun s patterns => existsb (String.eqb s) patterns;
     UnitFile := string;
     ParseUnitFile := fun path data =>
       if HasPrefix data "[" then Ok (Base path)
       else Err (errorString "line 1: expected a group header");
     GetUnitServiceName := fun unit => Ok (stem unit);
     ConnectToDBUS := None;
     dbus_NewWithContext := None;
     ListUnitsByNames := fun names => Ok (units_answer known names);
     StopUnit := fun _ => Ok "done";
     Reload := None;
     Access_W_OK := fun _ => true;
     umask := 18;
     WriteFile_fault := fun _ => None;
     Remove_fault := fun _ => None;
     ArtifactStore := None;
     GetLayers := fun name =>
       if String.eqb name "empty:latest" then Ok []
       else if String.eqb name "pods:latest" then Ok [("web.container", "/blobs/sha256-1")]
       else Err (errorString ("artifact " +:+ name +:+ " not found"));
     CreateTemp := fun _ => Ok "/tmp/quadlet-dl1";
     http_Get := fun url =>
       if String.eqb url "https://example.com/missing.container" then Ok page_404
       else Err (errorString "dial tcp: connection refused");
     generator := fun _ _ => None |}.

Definition systemd_dir : string := "/etc/containers/systemd".

(** A disk with the generator, two installed quadlets, one quadlet that
    does not parse, and sources to install from. *)
Definition disk : gmap string node :=
  <["/blobs/sha256-1" := File 420 "[Container] Image=web"]>
  (<["/blobs" := Directory]>
  (<["/src/web.container" := File 420 "[Container] Image=web"]>
  (<["/src/a.container" := File 420 "[Container] Image=other"]>
  (<["/src" := Directory]>
  (<["/tmp" := Directory]>
  (<["/etc/containers/systemd/b.container" := File 420 "[Container] Image=b"]>
  (<["/etc/containers/systemd/a.container" := File 420 "[Container] Image=a"]>
  (<["/etc/containers/systemd" := Directory]>
  (<[quadletPath := File 493 "ELF"]> ∅))))))))).

(** The same disk with a quadlet whose text is not a unit file. *)
Definition disk_broken : gmap string node :=
  <["/etc/containers/systemd/bad.container" := File 420 "Image=bad"]> disk.

Definition entry_a : ListQuadlet :=
  {| Name := "a.container"; Path := "/etc/containers/systemd/a.container";
     Status := "Not loaded" |}.

Definition entry_b : ListQuadlet :=
  {| Name := "b.container"; Path := "/etc/containers/systemd/b.container";
     Status := "Not loaded" |}.

(** Matching one value of the [name] filter on this machine. *)
Definition matches (name value : string) (entry : ListQuadlet) : bool :=
  String.eqb name "name" && String.eqb (Name entry) value.

Definition no_options : QuadletRemoveOptions :=
  {| Force := false; All := false; Ignore := false |}.

Definition all_options : QuadletRemoveOptions :=
  {| Force := false; All := true; Ignore := false |}.

(** A unit directory with two quadlets and nothing else. *)
Definition small_disk : gmap string node :=
  <["/etc/containers/systemd/b.container" := File 420 "[Container]"]>
  (<["/etc/containers/systemd/a.container" := File 420 "[Container]"]>
  (<["/etc/containers/systemd" := Directory]> ∅)).

(** The same machine seen by an unprivileged user; the lookup order of the
    directories is the one [GetUnitDirs(true)] gives. *)
Definition rootless_dirs : list string :=
  ["/run/user/1000/containers/systemd";
   "/home/u/.config/containers/systemd";
   "/etc/containers/systemd/users/1000";
   "/etc/containers/systemd/users"].

Definition rootless_env : Env :=
  {| IsRootless := true;
     UnitDirAdmin := UnitDirAdmin (env []);
     GetUnitDirs := fun _ => rootless_dirs;
     SupportedExtensions := SupportedExtensions (env []);
     StringMatchRegexSlice := StringMatchRegexSlice (env []);
     UnitFile := UnitFile (env []);
     ParseUnitFile := ParseUnitFile (env []);
     GetUnitServiceName := GetUnitServiceName (env []);
     ConnectToDBUS := None;
     dbus_NewWithContext := None;
     ListUnitsByNames := ListUnitsByNames (env []);
     StopUnit := StopUnit (env []);
     Reload := None;
     Access_W_OK := fun dir => negb (HasPrefix dir "/etc");
     umask := 18;
     WriteFile_fault := fun path =>
       if HasPrefix path "/etc" then Some (os.OpenFails (PathError "open" path EACCES))
       else None;
     Remove_fault := fun path =>
       if HasPrefix path "/etc" then Some os.NotPermitted else None;
     ArtifactStore := None;
     GetLayers := GetLayers (env []);
     CreateTemp := CreateTemp (env []);
     http_Get := http_Get (env []);
     generator := generator (env []) |}.

(** Reports whose maps were made before use. *)
Definition made_InstallReport : QuadletInstallReport :=
  {| InstalledQuadlets := GoMap.make; QuadletErrors := GoMap.make |}.

Definition made_RemoveReport : QuadletRemoveReport :=
  {| Removed := []; Errors := GoMap.make |}.

End Scenario.

(** ** The [podman quadlet] commands and the remote engine *)

Module tunnel.
Import entities.

Definition notImplementedErr : error :=
  errorString "not implemented for the remote Podman client".

(** The engine of the remote client answers every quadlet call the same
    way and touches nothing. *)
Definition QuadletInstall (fs : gmap string node) (pathsOrURLs : list string)
    (options : QuadletInstallOptions) : outcome abi.install_return :=
  Returned fs (None, Some notImplementedErr).

Definition QuadletList (fs : gmap string node) (options : QuadletListOptions)
  : result (list ListQuadlet) :=
  Err notImplementedErr.

Definition QuadletPrint (fs : gmap string node) (quadlet : string) : result string :=
  Err notImplementedErr.

Definition QuadletRemove (fs : gmap string node) (quadlets : list string)
    (options : QuadletRemoveOptions) : outcome abi.remove_return :=
  Returned fs (None, Some notImplementedErr).

End tunnel.

Module quadlet_cmd.
Import GoStrings entities.

(** What a command wrote: the lines on standard output and the messages
    logged at error level. *)
Record output := {
  stdout : list string;
  logged : list string
}.

Definition silent : output := {| stdout := []; logged := [] |}.

(** How the [RunE] function of a command ends: with its error and what it
    wrote, or by dereferencing a nil report. *)
Inductive run :=
| Exit (out : output) (err : option error)
| NilDereference.

(** The entries of a map in the order a [range] visits them (Go fixes
    none; this is one order). *)
Definition range_entries {V} (m : GoMap.t V) : list (string * V) :=
  match m with
  | None => []
  | Some tbl => map_to_list tbl
  end.

(** The [Args] check of [quadletInstallCmd]. *)
Definition install_Args (args : list string) : option error :=
  if Nat.eqb (length args) 0
  then Some (errorString "must provide at least one argument")
  else None.

(** [install], given what [registry.ContainerEngine().QuadletInstall]
    returned. *)
Definition install (returned : abi.install_return) : run :=
  let '(installReport, err) := returned in
  match err with
  | Some err => Exit silent (Some err)
  | None =>
      match installReport with
      | None => NilDereference
      | Some installReport =>
          let out :=
            {| stdout := snd <$> range_entries (InstalledQuadlets installReport);
               logged :=
                 (fun '(pathOrURL, err) =>
                    "Quadlet " +:+ quote pathOrURL +:+ " failed to install: " +:+ Error err)
                 <$> range_entries (QuadletErrors installReport) |} in
          if Nat.ltb 0 (GoMap.len (QuadletErrors installReport))
          then Exit out (Some (errorString "errors occurred installing some Quadlets"))
          else Exit out None
      end
  end.

(** [rm], given what [registry.ContainerEngine().QuadletRemove] returned. *)
Definition rm (returned : abi.remove_return) : run :=
  let '(removeReport, err) := returned in
  match removeReport with
  | Some removeReport =>
      let out :=
        {| stdout := Removed removeReport;
           logged :=
             (fun '(quadlet, quadletErr) =>
                "Unable to remove Quadlet " +:+ quadlet +:+ ": " +:+ Error quadletErr)
             <$> range_entries (Errors removeReport) |} in
      match err with
      | None =>
          if Nat.ltb 0 (GoMap.len (Errors removeReport))
          then Exit out (Some (errorString "some quadlets could not be removed"))
          else Exit out None
      | Some err => Exit out (Some err)
      end
  | None =>
      match err with
      | Some err => Exit silent (Some err)
      | None => Exit silent None
      end
  end.

End quadlet_cmd.

(** ** Parsing of key-value options *)

Module unifiedcli.

(** [strings.SplitN(s, "=", 2)] *)
Definition SplitN_eq_2 (s : string) : list string :=
  let '(before, after, found) := GoStrings.Cut_eq s in
  if found then [before; after] else [s].

(** How a call of [ParseKVStringsOverDefaults] ends: it returns [defaults]
    itself with a nil error, it returns a nil map with an error, or it
    assigns to a nil map. *)
Inductive parse_end :=
| Parsed
| Failed (err : error)
| NilMapAssignment.

(** [ParseKVStringsOverDefaults]: the map [defaults] refers to when the call
    ends (the caller holds the same map), and how the call ends. *)
Fixpoint ParseKVStringsOverDefaults (kv : list string) (defaults : GoMap.t string)
  : GoMap.t string * parse_end :=
  match kv with
  | [] => (defaults, Parsed)
  | kvPair :: rest =>
      let kvSplit := SplitN_eq_2 kvPair in
      if negb (Nat.eqb (length kvSplit) 2)
      then (defaults,
            Failed (errorString ("must provide a key-value pair separated by =, instead got "
                                 +:+ kvPair)))
      else
        match GoMap.set defaults (nth 0 kvSplit "") (nth 1 kvSplit "") with
        | None => (defaults, NilMapAssignment)
        | Some defaults' => ParseKVStringsOverDefaults rest defaults'
        end
  end.

End unifiedcli.

(** ** Options of the unified command line *)

Module clioption.

(** [quadlet.PodmanCmdline], with the one field the parsers append to. *)
Record PodmanCmdline := { Args : list string }.

(** How a call through a function field ends: the function returns, or the
    field is nil and the call dereferences a nil pointer. *)
Inductive call (A : Type) :=
| Returns (a : A)
| NilFunctionCall.
Arguments Returns {A} a.
Arguments NilFunctionCall {A}.

Section Options.
(** [parser.UnitFile] with its [LookupAll]; the types of the function fields
    the quadlet side never calls stay abstract. *)
Context {UnitFile FieldFn PodFieldFn : Type}.
Context (LookupAll : UnitFile -> string -> string -> list string).

(** A [QuadletParseFn]: the command line it leaves and its error. *)
Definition QuadletParser : Type :=
  UnitFile -> string -> string -> string -> PodmanCmdline -> PodmanCmdline * option error.

(** [CLIOption[T, P]]; a function field that is nil is [None].  The types
    of the retrieval and parsing functions depend on [T]. *)
Record CLIOption (RetrieveFn ParseFn : Type) := {
  CLIOptionName : string;
  QuadletKeyName : string;
  QuadletGroupName : string;
  CLIRetrieveFn : option RetrieveFn;
  CLIParseFn : option ParseFn;
  SpecgenField : option FieldFn;
  PodSpecgenField : option PodFieldFn;
  QuadletParseFn : option QuadletParser
}.

Arguments CLIOptionName {RetrieveFn ParseFn} _.
Arguments QuadletKeyName {RetrieveFn ParseFn} _.
Arguments QuadletGroupName {RetrieveFn ParseFn} _.
Arguments CLIRetrieveFn {RetrieveFn ParseFn} _.
Arguments CLIParseFn {RetrieveFn ParseFn} _.
Arguments SpecgenField {RetrieveFn ParseFn} _.
Arguments PodSpecgenField {RetrieveFn ParseFn} _.
Arguments QuadletParseFn {RetrieveFn ParseFn} _.

Definition is_nil {A} (f : option A) : bool :=
  match f with None => true | Some _ => false end.

(** [Validate] *)
Definition Validate {RetrieveFn ParseFn} (opt : CLIOption RetrieveFn ParseFn) : option error :=
  let quadletOptsSet := 0 in
  let quadletOptsSet :=
    if negb (String.eqb (QuadletKeyName opt) "") then quadletOptsSet + 1 else quadletOptsSet in
  let quadletOptsSet :=
    if negb (String.eqb (QuadletGroupName opt) "") then quadletOptsSet + 1
    else quadletOptsSet in
  if Nat.eqb quadletOptsSet 1
  then Some (errorString
               "if one of QuadletKeyName or QuadletGroupName are set, both much be set")
  else if Nat.eqb quadletOptsSet 2 && is_nil (QuadletParseFn opt)
  then Some (errorString
               "if a quadlet option is provided, a parsing function must also be provided")
  else if String.eqb (CLIOptionName opt) ""
  then Some (errorString "must provide a CLI option name")
  else if is_nil (CLIParseFn opt) || is_nil (CLIRetrieveFn opt) || is_nil (SpecgenField opt)
  then Some (errorString ("must provide a CLI parsing function, retrieval function, "
                          +:+ "and SpecGen field retrieval function"))
  else None.

(** [ParseQuadlet] *)
Definition ParseQuadlet {RetrieveFn ParseFn} (opt : CLIOption RetrieveFn ParseFn)
    (unit : UnitFile) (cmdline : PodmanCmdline)
  : call (PodmanCmdline * option error) :=
  if String.eqb (QuadletKeyName opt) "" then Returns (cmdline, None)
  else
    match QuadletParseFn opt with
    | None => NilFunctionCall
    | Some parse =>
        Returns (parse unit (QuadletKeyName opt) (QuadletGroupName opt) (CLIOptionName opt)
                   cmdline)
    end.

(** [QuadletParseOptionBeforeEvery] *)
Definition QuadletParseOptionBeforeEvery : QuadletParser :=
  fun unit key group podmanarg cmd =>
    let options := LookupAll unit group key in
    (fold_left (fun cmd opt => {| Args := (Args cmd ++ ["--" +:+ podmanarg; opt])%list |})
       options cmd,
     None).

(** The function types of [CLIOption[string, any]] and of
    [CLIOption[[]string, any]]. *)
Context {StringRetrieveFn StringParseFn ArrayRetrieveFn ArrayParseFn : Type}.

(** The package variables [runStringOpts] and [runStringArrayOpts]. *)
Record registry := {
  runStringOpts : list (CLIOption StringRetrieveFn StringParseFn);
  runStringArrayOpts : list (CLIOption ArrayRetrieveFn ArrayParseFn)
}.

Definition no_options : registry := {| runStringOpts := []; runStringArrayOpts := [] |}.

(** [AddStringOption] *)
Definition AddStringOption (reg : registry) (opt : CLIOption StringRetrieveFn StringParseFn)
  : registry * option error :=
  match Validate opt with
  | Some err => (reg, Some err)
  | None =>
      ({| runStringOpts := (runStringOpts reg ++ [opt])%list;
          runStringArrayOpts := runStringArrayOpts reg |}, None)
  end.

(** [AddStringArrayOption] *)
Definition AddStringArrayOption (reg : registry) (opt : CLIOption ArrayRetrieveFn ArrayParseFn)
  : registry * option error :=
  match Validate opt with
  | Some err => (reg, Some err)
  | None =>
      ({| runStringOpts := runStringOpts reg;
          runStringArrayOpts := (runStringArrayOpts reg ++ [opt])%list |}, None)
  end.

(** One loop of [ParseQuadletFile]: the command line when the loop ends,
    and the error it returned with, if it did. *)
Fixpoint parse_all {RetrieveFn ParseFn} (opts : list (CLIOption RetrieveFn ParseFn))
    (unit : UnitFile) (cmdline : PodmanCmdline)
  : call (PodmanCmdline * option error) :=
  match opts with
  | [] => Returns (cmdline, None)
  | o :: rest =>
      match ParseQuadlet o unit cmdline with
      | NilFunctionCall => NilFunctionCall
      | Returns (cmdline', Some err) => Returns (cmdline', Some err)
      | Returns (cmdline', None) => parse_all rest unit cmdline'
      end
  end.

(** [ParseQuadletFile]: both of its loops range over [runStringOpts]. *)
Definition ParseQuadletFile (reg : registry) (unit : UnitFile) (cmdline : PodmanCmdline)
  : call (PodmanCmdline * option error) :=
  match parse_all (runStringOpts reg) unit cmdline with
  | NilFunctionCall => NilFunctionCall
  | Returns (cmdline', Some err) => Returns (cmdline', Some err)
  | Returns (cmdline', None) => parse_all (runStringOpts reg) unit cmdline'
  end.

(** One registration: of a string option or of a string array option. *)
Inductive registration :=
| StringOption (opt : CLIOption StringRetrieveFn StringParseFn)
| StringArrayOption (opt : CLIOption ArrayRetrieveFn ArrayParseFn).

Definition register (reg : registry) (r : registration) : registry :=
  match r with
  | StringOption opt => (AddStringOption reg opt).1
  | StringArrayOption opt => (AddStringArrayOption reg opt).1
  end.

End Options.

Arguments CLIOptionName {UnitFile FieldFn PodFieldFn RetrieveFn ParseFn} _.
Arguments QuadletKeyName {UnitFile FieldFn PodFieldFn RetrieveFn ParseFn} _.
Arguments QuadletGroupName {UnitFile FieldFn PodFieldFn RetrieveFn ParseFn} _.
Arguments CLIRetrieveFn {UnitFile FieldFn PodFieldFn RetrieveFn ParseFn} _.
Arguments CLIParseFn {UnitFile FieldFn PodFieldFn RetrieveFn ParseFn} _.
Arguments SpecgenField {UnitFile FieldFn PodFieldFn RetrieveFn ParseFn} _.
Arguments PodSpecgenField {UnitFile FieldFn PodFieldFn RetrieveFn ParseFn} _.
Arguments QuadletParseFn {UnitFile FieldFn PodFieldFn RetrieveFn ParseFn} _.

End clioption.

(** ** Notions used in the statements *)

Module Notions.
Import abi entities.

(** A flow that started from the fresh report still holds the fresh report
    when it goes on, and returns without a report when it returns. *)
Definition keeps_fresh (f : flow install_state install_return) : Prop :=
  match f with
  | Continue st => i_report st = new_QuadletInstallReport
  | Return _ r => r.1 = None
  | Panic _ => True
  end.

(** The entry [QuadletList] makes for the quadlet file at [path]. *)
Definition entry (path status : string) : ListQuadlet :=
  {| Name := filepath.Base path; Path := path; Status := status |}.

(** The service names [QuadletList] asks systemd about: those of the files
    that parse, in the order of the files. *)
Definition queried_names (E : Env) (fs : gmap string node) (quadletPaths : list string)
  : list string :=
  omap (fun path => match getQuadletServiceName E fs path with
                    | Ok serviceName => Some serviceName
                    | Err _ => None
                    end) quadletPaths.

(** The status the loop over the answers of systemd gives a unit. *)
Definition unit_status_text (unitStatus : dbus.UnitStatus) : string :=
  if String.eqb (dbus.LoadState unitStatus) "loaded"
  then dbus.ActiveState unitStatus +:+ "/" +:+ dbus.SubState unitStatus
  else "Not loaded".

(** Every partial report is the entry of a file that parsed to its key. *)
Definition partial_ok (E : Env) (fs : gmap string node) (all : list string)
    (partialReports : gmap string ListQuadlet) : Prop :=
  forall serviceName r, partialReports !! serviceName = Some r ->
    exists path, path ∈ all /\ getQuadletServiceName E fs path = Ok serviceName
                 /\ r = entry path "".

(** Every finished report so far is the entry of a file that did not parse. *)
Definition failed_ok (E : Env) (fs : gmap string node) (all : list string)
    (reports : list ListQuadlet) : Prop :=
  forall e, e ∈ reports ->
    exists path err, path ∈ all /\ getQuadletServiceName E fs path = Err err
                     /\ e = entry path (Error err).

(** What an entry of the list is: the entry of a file that did not parse,
    with the error as its status; the entry of a file that parsed, with the
    status the specification gives its service name; or the zero report,
    made for a unit systemd answered about without being asked. *)
Definition entry_ok (E : Env) (fs : gmap string node) (quadletPaths : list string)
    (statuses : list dbus.UnitStatus) (e : ListQuadlet) : Prop :=
  (exists path err, path ∈ quadletPaths /\ getQuadletServiceName E fs path = Err err
                    /\ e = entry path (Error err))
  \/ (exists path serviceName,
         path ∈ quadletPaths /\ getQuadletServiceName E fs path = Ok serviceName
         /\ e = entry path (Spec.reconciled_status statuses serviceName))
  \/ (Name e = "" /\ Path e = "").

(** The environment [E] with the status code of every response replaced by
    [code url]; everything else is as in [E]. *)
Definition with_status_codes (code : string -> Z) (E : Env) : Env :=
  {| IsRootless := IsRootless E;
     UnitDirAdmin := UnitDirAdmin E;
     GetUnitDirs := GetUnitDirs E;
     SupportedExtensions := SupportedExtensions E;
     StringMatchRegexSlice := StringMatchRegexSlice E;
     UnitFile := UnitFile E;
     ParseUnitFile := ParseUnitFile E;
     GetUnitServiceName := GetUnitServiceName E;
     ConnectToDBUS := ConnectToDBUS E;
     dbus_NewWithContext := dbus_NewWithContext E;
     ListUnitsByNames := ListUnitsByNames E;
     StopUnit := StopUnit E;
     Reload := Reload E;
     Access_W_OK := Access_W_OK E;
     umask := umask E;
     WriteFile_fault := WriteFile_fault E;
     Remove_fault := Remove_fault E;
     ArtifactStore := ArtifactStore E;
     GetLayers := GetLayers E;
     CreateTemp := CreateTemp E;
     http_Get := fun url =>
       match http_Get E url with
       | Ok r => Ok {| http.StatusCode := code url; http.Body := http.Body r;
                       http.BodyErr := http.BodyErr r |}
       | Err err => Err err
       end;
     generator := generator E |}.

End Notions.

(** ** Notions used in the further properties *)

Module More.
Import GoStrings filepath abi entities.

(** The state a flow ends in, however it ends. *)
Definition flow_state {S R} (f : flow S R) : S :=
  match f with
  | Continue s => s
  | Return s _ => s
  | Panic s => s
  end.

(** The file system a call leaves, however it ends. *)
Definition outcome_fs {R} (o : outcome R) : gmap string node :=
  match o with
  | Returned fs _ => fs
  | Panicked fs => fs
  end.

(** A directory below the admin root that is there, is a directory and can
    be written to: the loop of [QuadletInstall] takes it and from then on
    takes nothing but such directories. *)
Definition usable_admin (E : Env) (fs : gmap string node) (dir : string) : bool :=
  HasPrefix dir (UnitDirAdmin E)
  && match os.Stat fs dir with Ok stat => IsDir stat | Err _ => false end
  && Access_W_OK E dir.

(** A directory below the admin root that is missing or not a directory:
    the loop goes on to the next one without looking at it further. *)
Definition skipped_admin (E : Env) (fs : gmap string node) (dir : string) : bool :=
  HasPrefix dir (UnitDirAdmin E)
  && negb match os.Stat fs dir with Ok stat => IsDir stat | Err _ => false end.

(** The directory the loop of [QuadletInstall] ends on, in closed form: the
    last usable admin directory; without one, the last directory that was
    not skipped, unless an admin directory had been found before. *)
Definition chosen_dir (E : Env) (fs : gmap string node) (dirs : list string)
    (installDir : string) (foundAdminDir : bool) : string :=
  match last (List.filter (usable_admin E fs) dirs) with
  | Some dir => dir
  | None =>
      if foundAdminDir then installDir
      else default installDir
             (last (List.filter (fun dir => negb (skipped_admin E fs dir)) dirs))
  end.

(** Every temporary file whose removal is deferred is a regular file. *)
Definition tmp_files_ok (st : install_state) : Prop :=
  forall t, t ∈ i_tmp st -> exists perm data, i_fs st !! t = Some (File perm data).

(** What an iteration of the install loop keeps: the deferred removals
    stay deferred, and each is still of a regular file. *)
Definition cleanup_inv (tmp0 : list string) (st : install_state) : Prop :=
  (forall t, t ∈ tmp0 -> t ∈ i_tmp st) /\ tmp_files_ok st.

(** Every path that held something at the start still holds it, and is not
    a temporary file of the call. *)
Definition keeps_existing (fs0 : gmap string node) (st : install_state) : Prop :=
  forall p n, fs0 !! p = Some n -> i_fs st !! p = Some n /\ p ∉ i_tmp st.

(** The names [QuadletRemove] works on: with [All], what the enumeration
    finds; otherwise the names given. *)
Definition remove_targets (E : Env) (fs : gmap string node) (quadlets : list string)
    (options : QuadletRemoveOptions) : list string :=
  if All options
  then match getAllQuadletPaths E fs with Ok allQuadlets => allQuadlets | Err _ => [] end
  else quadlets.

(** A path [QuadletRemove] may look at for the targets [targets]: a unit
    directory joined with a target. *)
Definition candidate (E : Env) (targets : list string) (p : string) : Prop :=
  exists dir q, dir ∈ GetUnitDirs E (IsRootless E) /\ q ∈ targets /\ p = Join dir q.

(** What the loops of [QuadletRemove] keep: paths that are no candidates
    hold what they held, and only candidates are put up for deletion. *)
Definition remove_inv (E : Env) (fs0 : gmap string node) (targets : list string)
    (st : remove_state) : Prop :=
  (forall p, ~ candidate E targets p -> r_fs st !! p = fs0 !! p)
  /\ (forall p, p ∈ r_allQuadletPaths st -> candidate E targets p).

(** The file system with the files at [paths] deleted. *)
Definition delete_all (paths : list string) (fs : gmap string node) : gmap string node :=
  foldl (fun fs p => delete p fs) fs paths.

(** The paths of the reports [QuadletList] holds at some point of its
    loops: of the finished ones and of the partial ones. *)
Definition listed_paths (st : list_state) : list string :=
  ((Path <$> l_reports st)
   ++ ((fun kv : string * ListQuadlet => Path kv.2) <$> map_to_list (l_partialReports st)))%list.

(** What [os.Stat] has to answer for the loop of [getQuadletByName] to go
    on to the next directory: an error that [os.IsNotExist] accepts. *)
Definition stat_not_exist (fs : gmap string node) (path : string) : Prop :=
  exists err, os.Stat fs path = Err err /\ IsNotExist err = true.

(** A reference to an artifact that has no layers: the one kind of
    reference [QuadletInstall] gets past without an assignment to a map of
    its report. *)
Definition empty_artifact (E : Env) (toInstall : string) : Prop :=
  GoStrings.HasPrefix toInstall "oci-artifact://" = true
  /\ GetLayers E (GoStrings.TrimPrefix toInstall "oci-artifact://") = Ok [].

End More.

Module Scenario2.
Import GoStrings entities abi.

(** The rootless machine with an [os.CreateTemp] that fails when its one
    name is taken. *)
Definition rootless_fresh_env : Env :=
  {| IsRootless := true;
     UnitDirAdmin := UnitDirAdmin Scenario.rootless_env;
     GetUnitDirs := GetUnitDirs Scenario.rootless_env;
     SupportedExtensions := SupportedExtensions Scenario.rootless_env;
     StringMatchRegexSlice := StringMatchRegexSlice Scenario.rootless_env;
     UnitFile := UnitFile Scenario.rootless_env;
     ParseUnitFile := ParseUnitFile Scenario.rootless_env;
     GetUnitServiceName := GetUnitServiceName Scenario.rootless_env;
     ConnectToDBUS := None;
     dbus_NewWithContext := None;
     ListUnitsByNames := ListUnitsByNames Scenario.rootless_env;
     StopUnit := StopUnit Scenario.rootless_env;
     Reload := None;
     Access_W_OK := Access_W_OK Scenario.rootless_env;
     umask := umask Scenario.rootless_env;
     WriteFile_fault := WriteFile_fault Scenario.rootless_env;
     Remove_fault := Remove_fault Scenario.rootless_env;
     ArtifactStore := None;
     GetLayers := GetLayers Scenario.rootless_env;
     CreateTemp := fun fs =>
       match fs !! "/tmp/quadlet-dl1" with
       | None => Ok "/tmp/quadlet-dl1"
       | Some _ => Err (PathError "open" "/tmp/quadlet-dl1" EEXIST)
       end;
     http_Get := http_Get Scenario.rootless_env;
     generator := generator Scenario.rootless_env |}.

(** A unit directory that is empty and one file to install. *)
Definition source_disk : gmap string node :=
  <["/src/web.container" := File 420 "[Container] Image=web"]>
  (<["/src" := Directory]>
  (<["/etc/containers/systemd" := Directory]> ∅)).

(** The root user's machine with a systemd that knows [known] and refuses
    to reload. *)
Definition reload_failing_env (known : list dbus.UnitStatus) : Env :=
  {| IsRootless := false;
     UnitDirAdmin := UnitDirAdmin (Scenario.env known);
     GetUnitDirs := GetUnitDirs (Scenario.env known);
     SupportedExtensions := SupportedExtensions (Scenario.env known);
     StringMatchRegexSlice := StringMatchRegexSlice (Scenario.env known);
     UnitFile := UnitFile (Scenario.env known);
     ParseUnitFile := ParseUnitFile (Scenario.env known);
     GetUnitServiceName := GetUnitServiceName (Scenario.env known);
     ConnectToDBUS := None;
     dbus_NewWithContext := None;
     ListUnitsByNames := ListUnitsByNames (Scenario.env known);
     StopUnit := StopUnit (Scenario.env known);
     Reload := Some (errorString "Access denied");
     Access_W_OK := Access_W_OK (Scenario.env known);
     umask := umask (Scenario.env known);
     WriteFile_fault := WriteFile_fault (Scenario.env known);
     Remove_fault := Remove_fault (Scenario.env known);
     ArtifactStore := None;
     GetLayers := GetLayers (Scenario.env known);
     CreateTemp := CreateTemp (Scenario.env known);
     http_Get := http_Get (Scenario.env known);
     generator := generator (Scenario.env known) |}.

(** A disk with the generator and an empty unit directory. *)
Definition generator_disk : gmap string node :=
  <["/etc/containers/systemd" := Directory]>
  (<[quadletPath := File 493 "ELF"]> ∅).

(** The root user's machine with a disk that is full: every write fails
    after the file was made, with nothing in it. *)
Definition full_disk_env : Env :=
  {| IsRootless := false;
     UnitDirAdmin := UnitDirAdmin (Scenario.env []);
     GetUnitDirs := GetUnitDirs (Scenario.env []);
     SupportedExtensions := SupportedExtensions (Scenario.env []);
     StringMatchRegexSlice := StringMatchRegexSlice (Scenario.env []);
     UnitFile := UnitFile (Scenario.env []);
     ParseUnitFile := ParseUnitFile (Scenario.env []);
     GetUnitServiceName := GetUnitServiceName (Scenario.env []);
     ConnectToDBUS := None;
     dbus_NewWithContext := None;
     ListUnitsByNames := ListUnitsByNames (Scenario.env []);
     StopUnit := StopUnit (Scenario.env []);
     Reload := None;
     Access_W_OK := Access_W_OK (Scenario.env []);
     umask := umask (Scenario.env []);
     WriteFile_fault := fun path => Some (os.WriteFails "" (PathError "write" path ENOSPC));
     Remove_fault := Remove_fault (Scenario.env []);
     ArtifactStore := None;
     GetLayers := GetLayers (Scenario.env []);
     CreateTemp := CreateTemp (Scenario.env []);
     http_Get := http_Get (Scenario.env []);
     generator := generator (Scenario.env []) |}.

(** Both unit directories of root, empty, and one file to install. *)
Definition two_dirs_disk : gmap string node :=
  <["/src/web.container" := File 420 "[Container] Image=web"]>
  (<["/src" := Directory]>
  (<["/usr/share/containers/systemd" := Directory]>
  (<["/etc/containers/systemd" := Directory]> ∅))).

(** The disk of the unprivileged user's machine with one quadlet the
    administrator put into the user's directory below [/etc]. *)
Definition admin_quadlet_disk : gmap string node :=
  <["/etc/containers/systemd/users/1000/a.container" := File 420 "[Container]"]>
  (<["/etc/containers/systemd/users/1000" := Directory]> ∅).

End Scenario2.

Module OptionNotions.
Import clioption.

Section Notions.
Context {UnitFile FieldFn PodFieldFn RetrieveFn ParseFn : Type}.
Context (LookupAll : UnitFile -> string -> string -> list string).

(** The arguments one option stands for in a unit file: its flag before
    each value of its key; nothing for an option without a key. *)
Definition option_args (unit : UnitFile)
    (opt : CLIOption (FieldFn := FieldFn) (PodFieldFn := PodFieldFn) (UnitFile := UnitFile)
             RetrieveFn ParseFn) : list string :=
  if String.eqb (QuadletKeyName opt) "" then []
  else flat_map (fun value => ["--" +:+ CLIOptionName opt; value])
         (LookupAll unit (QuadletGroupName opt) (QuadletKeyName opt)).

End Notions.

(** A unit file as the list of its (group, key, value) lines. *)
Definition lines_LookupAll (unit : list (string * string * string)) (group key : string)
  : list string :=
  omap (fun '(g, k, v) => if String.eqb g group && String.eqb k key then Some v else None)
       unit.

End OptionNotions.

Module Scenario3.
Import clioption OptionNotions.

(** The option [--env], read from [Environment=] of the [Container] group,
    with function fields whose content plays no part here. *)
Definition env_option
  : CLIOption (UnitFile := list (string * string * string)) (FieldFn := unit)
      (PodFieldFn := unit) unit unit :=
  {| CLIOptionName := "env"; QuadletKeyName := "Environment";
     QuadletGroupName := "Container";
     CLIRetrieveFn := Some tt; CLIParseFn := Some tt; SpecgenField := Some tt;
     PodSpecgenField := None;
     QuadletParseFn := Some (QuadletParseOptionBeforeEvery lines_LookupAll) |}.

(** The option [--label], a string array option. *)
Definition label_option
  : CLIOption (UnitFile := list (string * string * string)) (FieldFn := unit)
      (PodFieldFn := unit) unit unit :=
  {| CLIOptionName := "label"; QuadletKeyName := "Label";
     QuadletGroupName := "Container";
     CLIRetrieveFn := Some tt; CLIParseFn := Some tt; SpecgenField := Some tt;
     PodSpecgenField := None;
     QuadletParseFn := Some (QuadletParseOptionBeforeEvery lines_LookupAll) |}.

Definition options : registry :=
  {| runStringOpts := [env_option]; runStringArrayOpts := [label_option] |}.

Definition unit_file : list (string * string * string) :=
  [("Container", "Environment", "A=1"); ("Container", "Label", "x=y")].

End Scenario3.

(** * Checks of the library models *)

Module filepath_tests.
Import filepath.

Example Clean_dots : Clean "/a/./b/../c//d/" = "/a/c/d".
Proof. reflexivity. Qed.
Example Clean_up : Clean "../../a/.." = "../..".
Proof. reflexivity. Qed.
Example Clean_root : Clean "/../.." = "/".
Proof. reflexivity. Qed.
Example Join_abs : Join "/etc/containers/systemd" "/etc/containers/systemd/a.container"
                   = "/etc/containers/systemd/etc/containers/systemd/a.container".
Proof. reflexivity. Qed.
Example Join_name : Join "/etc/containers/systemd" "a.container" = "/etc/containers/systemd/a.container".
Proof. reflexivity. Qed.
Example Base_file : Base "/etc/containers/systemd/a.container" = "a.container".
Proof. reflexivity. Qed.
Example Base_slashes : Base "///" = "/".
Proof. reflexivity. Qed.
Example Ext_container : Ext "/x.d/web.tar.container" = ".container".
Proof. reflexivity. Qed.
Example Ext_none : Ext "/x.d/quadlet-dl12345" = "".
Proof. reflexivity. Qed.
Example Dir_file : Dir "/etc/containers/systemd/a.container" = "/etc/containers/systemd".
Proof. reflexivity. Qed.
Example Dir_top : Dir "/a.container" = "/".
Proof. reflexivity. Qed.
Example Dir_rel : Dir "a.container" = ".".
Proof. reflexivity. Qed.
End filepath_tests.

Module os_tests.
Import os.

Example ReadDir_sorted :
  ReadDir Scenario.small_disk "/etc/containers/systemd"
  = Ok [("a.container", File 420 "[Container]"); ("b.container", File 420 "[Container]")].
Proof. vm_compute. reflexivity. Qed.

Example ancestors_ex : ancestors "/run/user/1000" = ["/run"; "/run/user"; "/run/user/1000"].
Proof. reflexivity. Qed.

Example MkdirAll_ex :
  (MkdirAll ∅ "/run/user").1 !! "/run" = Some Directory.
Proof. vm_compute. reflexivity. Qed.
End os_tests.

Module prepare_tests.
Import abi.

(** Without a usable directory under the admin root, the loop ends on the
    last directory outside it. *)
Example select_install_dir_last :
  select_install_dir Scenario.rootless_env Scenario.disk Scenario.rootless_dirs
    (UnitDirAdmin Scenario.rootless_env) false
  = "/home/u/.config/containers/systemd".
Proof. vm_compute. reflexivity. Qed.

(** The directory is then made, with its parents. *)
Example install_prepare_rootless :
  (install_prepare Scenario.rootless_env Scenario.disk).2
  = Ok "/home/u/.config/containers/systemd"
  /\ (install_prepare Scenario.rootless_env Scenario.disk).1 !! "/home/u/.config"
     = Some Directory.
Proof. split; vm_compute; reflexivity. Qed.

(** As root the admin directory is used as it is. *)
Example install_prepare_root :
  (install_prepare (Scenario.env []) Scenario.disk).2 = Ok "/etc/containers/systemd".
Proof. vm_compute. reflexivity. Qed.
End prepare_tests.

(** * Properties *)

(** ** Recording into a report whose maps were never made *)

Section NilMaps.
Context (E : Env).
Import abi entities Notions.

Lemma set_QuadletErrors_nil st key err :
  QuadletErrors (i_report st) = GoMap.nil -> set_QuadletErrors st key err = Panic st.
Proof. unfold set_QuadletErrors. intros ->. reflexivity. Qed.

Lemma set_InstalledQuadlets_nil st key finalPath :
  InstalledQuadlets (i_report st) = GoMap.nil -> set_InstalledQuadlets st key finalPath = Panic st.
Proof. unfold set_InstalledQuadlets. intros ->. reflexivity. Qed.

Lemma record_install_nil st key r :
  i_report st = new_QuadletInstallReport -> record_install st key r = Panic st.
Proof.
  intros Hnew. destruct r; simpl.
  - apply set_InstalledQuadlets_nil. rewrite Hnew. reflexivity.
  - apply set_QuadletErrors_nil. rewrite Hnew. reflexivity.
Qed.

Lemma set_Errors_nil st key err :
  Errors (r_report st) = GoMap.nil -> set_Errors st key err = Panic st.
Proof. unfold set_Errors. intros ->. reflexivity. Qed.

Lemma for_range_keeps_fresh {A} (body : install_state -> A -> flow install_state install_return) :
  (forall st x, i_report st = new_QuadletInstallReport -> keeps_fresh (body st x)) ->
  forall l st, i_report st = new_QuadletInstallReport -> keeps_fresh (for_range body l st).
Proof.
  intros Hbody l. induction l as [|x l IH]; intros st Hst; simpl; [exact Hst|].
  specialize (Hbody st x Hst). destruct (body st x); simpl in *; auto.
Qed.

Lemma install_layer_keeps_fresh installDir st layer :
  i_report st = new_QuadletInstallReport -> keeps_fresh (install_layer E installDir st layer).
Proof.
  intros Hst. unfold install_layer. destruct layer as [filename pathOnDisk].
  destruct (installQuadlet E (i_fs st) pathOnDisk filename installDir) as [fs' r].
  rewrite record_install_nil; [exact I | exact Hst].
Qed.

Lemma install_one_keeps_fresh installDir st toInstall :
  i_report st = new_QuadletInstallReport -> keeps_fresh (install_one E installDir st toInstall).
Proof.
  intros Hst. unfold install_one.
  destruct (GoStrings.HasPrefix toInstall "oci-artifact://").
  - destruct (GetLayers E _); [|reflexivity].
    apply for_range_keeps_fresh; [|exact Hst].
    intros. now apply install_layer_keeps_fresh.
  - destruct (_ || _).
    + destruct (CreateTemp E (i_fs st)).
      * destruct (http_Get E toInstall).
        -- destruct (copy_body _ _ _) as [fs' [err|]].
           ++ rewrite set_QuadletErrors_nil; [exact I|]. simpl. now rewrite Hst.
           ++ destruct (installQuadlet _ _ _ _ _) as [fs'' res].
              rewrite record_install_nil; [exact I | exact Hst].
        -- rewrite set_QuadletErrors_nil; [exact I|]. simpl. now rewrite Hst.
      * rewrite set_QuadletErrors_nil; [exact I|]. now rewrite Hst.
    + destruct (installQuadlet _ _ _ _ _) as [fs' res].
      rewrite record_install_nil; [exact I | exact Hst].
Qed.

(** Whenever [QuadletInstall] hands back a report, it is the report as
    [new] left it: nothing was recorded. *)
Lemma QuadletInstall_report_fresh fs pathsOrURLs options fs' report err :
  QuadletInstall E fs pathsOrURLs options = Returned fs' (Some report, err) ->
  report = new_QuadletInstallReport.
Proof.
  unfold QuadletInstall. destruct (install_prepare E fs) as [fs1 [installDir|e]]; [|discriminate].
  unfold install_from. destruct (ArtifactStore E); [discriminate|].
  pose proof (for_range_keeps_fresh (install_one E installDir)
                (fun st x => install_one_keeps_fresh installDir st x) pathsOrURLs
                {| i_fs := fs1; i_report := new_QuadletInstallReport; i_tmp := [] |} eq_refl) as H.
  destruct (for_range _ _ _) as [st'|st' [r e]|st']; simpl in H.
  - unfold install_finish. intros Heq.
    destruct (ReloadSystemd options); [destruct (Reload E)|]; inversion Heq; subst; exact H.
  - intros Heq. inversion Heq; subst. discriminate.
  - discriminate.
Qed.

End NilMaps.

(** ** Listing *)

Section ListFacts.
Context (E : Env) (fs : gmap string node).
Import abi entities Notions.

(** [include] starts out true and is only ever or-ed with something. *)
Lemma filter_include_true filterFuncs report :
  filter_include filterFuncs report true = true.
Proof. induction filterFuncs as [|f l IH]; simpl; auto. Qed.

Lemma final_reports_all filterFuncs reports :
  final_reports filterFuncs reports = reports.
Proof.
  unfold final_reports. induction reports as [|r l IH]; [reflexivity|].
  rewrite filter_cons_True by apply filter_include_true. now rewrite IH.
Qed.

Lemma with_Status_entry path s s' : with_Status (entry path s) s' = entry path s'.
Proof. reflexivity. Qed.

(** *** The loop over the paths *)

Lemma list_path_parsed st path serviceName :
  getQuadletServiceName E fs path = Ok serviceName ->
  list_path E fs st path
  = {| l_reports := l_reports st;
       l_allServiceNames := (l_allServiceNames st ++ [serviceName])%list;
       l_partialReports := <[serviceName := entry path ""]> (l_partialReports st) |}.
Proof. intros H. unfold list_path. rewrite H. reflexivity. Qed.

Lemma list_path_failed st path err :
  getQuadletServiceName E fs path = Err err ->
  list_path E fs st path
  = {| l_reports := (l_reports st ++ [entry path (Error err)])%list;
       l_allServiceNames := l_allServiceNames st;
       l_partialReports := l_partialReports st |}.
Proof. intros H. unfold list_path. rewrite H. reflexivity. Qed.

Lemma paths_loop_names paths st :
  l_allServiceNames (fold_left (list_path E fs) paths st)
  = (l_allServiceNames st ++ queried_names E fs paths)%list.
Proof.
  revert st. induction paths as [|p paths IH]; intros st; simpl.
  - now rewrite app_nil_r.
  - rewrite IH. unfold queried_names at 2. simpl.
    destruct (getQuadletServiceName E fs p) as [sn|err] eqn:Hp.
    + rewrite (list_path_parsed _ _ _ Hp). simpl. now rewrite <- app_assoc.
    + rewrite (list_path_failed _ _ _ Hp). reflexivity.
Qed.

Lemma paths_loop_sound all paths st :
  (forall p, p ∈ paths -> p ∈ all) ->
  partial_ok E fs all (l_partialReports st) -> failed_ok E fs all (l_reports st) ->
  partial_ok E fs all (l_partialReports (fold_left (list_path E fs) paths st))
  /\ failed_ok E fs all (l_reports (fold_left (list_path E fs) paths st)).
Proof.
  revert st. induction paths as [|p paths IH]; intros st Hsub Hp Hf; simpl; [auto|].
  apply IH.
  - intros q Hq. apply Hsub. now right.
  - destruct (getQuadletServiceName E fs p) as [sn|err] eqn:Hparse.
    + rewrite (list_path_parsed _ _ _ Hparse). simpl.
      intros sn' r Hl. destruct (decide (sn = sn')) as [<-|Hne].
      * rewrite lookup_insert_eq in Hl. inversion Hl; subst.
        exists p. split; [apply Hsub; left|]. auto.
      * rewrite lookup_insert_ne in Hl by exact Hne. now apply Hp.
    + rewrite (list_path_failed _ _ _ Hparse). exact Hp.
  - destruct (getQuadletServiceName E fs p) as [sn|err] eqn:Hparse.
    + rewrite (list_path_parsed _ _ _ Hparse). exact Hf.
    + rewrite (list_path_failed _ _ _ Hparse). simpl.
      intros e He. apply elem_of_app in He as [He|He]; [now apply Hf|].
      apply list_elem_of_singleton in He. subst e.
      exists p, err. split; [apply Hsub; left|]. auto.
Qed.

(** A file keeps its partial report unless a later file has the same
    service name. *)
Lemma paths_loop_keeps paths st serviceName r :
  l_partialReports st !! serviceName = Some r ->
  (forall p, p ∈ paths -> getQuadletServiceName E fs p <> Ok serviceName) ->
  l_partialReports (fold_left (list_path E fs) paths st) !! serviceName = Some r.
Proof.
  revert st. induction paths as [|p paths IH]; intros st Hl Hno; simpl; [exact Hl|].
  apply IH.
  - destruct (getQuadletServiceName E fs p) as [sn|err] eqn:Hparse.
    + rewrite (list_path_parsed _ _ _ Hparse). simpl.
      rewrite lookup_insert_ne; [exact Hl|].
      intros ->. apply (Hno p); [left | exact Hparse].
    + rewrite (list_path_failed _ _ _ Hparse). exact Hl.
  - intros q Hq. apply Hno. now right.
Qed.

Lemma paths_loop_last paths st i path serviceName :
  paths !! i = Some path ->
  getQuadletServiceName E fs path = Ok serviceName ->
  (forall j path', i < j -> paths !! j = Some path' ->
                   getQuadletServiceName E fs path' <> Ok serviceName) ->
  l_partialReports (fold_left (list_path E fs) paths st) !! serviceName
  = Some (entry path "").
Proof.
  revert st i. induction paths as [|p paths IH]; intros st i Hi Hparse Hlater; [discriminate|].
  destruct i as [|i]; simpl in *.
  - inversion Hi; subst p. apply paths_loop_keeps.
    + rewrite (list_path_parsed _ _ _ Hparse). simpl. apply lookup_insert_eq.
    + intros q Hq. apply list_elem_of_lookup in Hq as [j Hj].
      apply (Hlater (S j)); [lia | exact Hj].
  - apply (IH _ i); [exact Hi | exact Hparse |].
    intros j path' Hlt Hj. apply (Hlater (S j)); [lia | exact Hj].
Qed.

(** *** The loop over the answers of systemd *)

Lemma list_unit_reports st unitStatus :
  l_reports (list_unit st unitStatus)
  = (l_reports st
     ++ [with_Status (default zero_ListQuadlet (l_partialReports st !! dbus.Name unitStatus))
           (unit_status_text unitStatus)])%list.
Proof.
  unfold list_unit, unit_status_text.
  destruct (String.eqb (dbus.LoadState unitStatus) "loaded"); reflexivity.
Qed.

Lemma list_unit_partial st unitStatus :
  l_partialReports (list_unit st unitStatus)
  = delete (dbus.Name unitStatus) (l_partialReports st).
Proof.
  unfold list_unit. destruct (String.eqb (dbus.LoadState unitStatus) "loaded"); reflexivity.
Qed.

Lemma units_loop_grows statuses st e :
  e ∈ l_reports st -> e ∈ l_reports (fold_left list_unit statuses st).
Proof.
  revert st. induction statuses as [|u statuses IH]; intros st He; simpl; [exact He|].
  apply IH. rewrite list_unit_reports. apply elem_of_app. now left.
Qed.

Lemma reconciled_status_here u statuses :
  Spec.reconciled_status (u :: statuses) (dbus.Name u) = unit_status_text u.
Proof.
  unfold Spec.reconciled_status, unit_status_text. simpl.
  rewrite String.eqb_refl. reflexivity.
Qed.

Lemma reconciled_status_skip u statuses serviceName :
  dbus.Name u <> serviceName ->
  Spec.reconciled_status (u :: statuses) serviceName
  = Spec.reconciled_status statuses serviceName.
Proof.
  intros Hne. unfold Spec.reconciled_status. simpl.
  destruct (String.eqb_spec (dbus.Name u) serviceName); [contradiction | reflexivity].
Qed.

Lemma reconciled_status_absent statuses serviceName :
  (forall u, u ∈ statuses -> dbus.Name u <> serviceName) ->
  Spec.reconciled_status statuses serviceName = "Not loaded".
Proof.
  induction statuses as [|u statuses IH]; intros Hno; [reflexivity|].
  rewrite reconciled_status_skip by (apply Hno; left).
  apply IH. intros u' Hu'. apply Hno. now right.
Qed.

Lemma reconciled_status_app done todo serviceName :
  (forall u, u ∈ done -> dbus.Name u <> serviceName) ->
  Spec.reconciled_status (done ++ todo) serviceName
  = Spec.reconciled_status todo serviceName.
Proof.
  induction done as [|u done IH]; intros Hno; [reflexivity|]. simpl.
  rewrite reconciled_status_skip by (apply Hno; left).
  apply IH. intros u' Hu'. apply Hno. now right.
Qed.

Lemma leftover_elem partialReports e :
  e ∈ list_leftover partialReports <->
  exists serviceName r, partialReports !! serviceName = Some r
                        /\ e = with_Status r "Not loaded".
Proof.
  unfold list_leftover. rewrite list_elem_of_fmap. split.
  - intros [[sn r] [-> Hin]]. apply elem_of_map_to_list in Hin. eauto.
  - intros (sn & r & Hl & ->). exists (sn, r). split; [reflexivity|].
    now apply elem_of_map_to_list.
Qed.

(** A partial report ends up in the list with the status the answers give
    its service name. *)
Lemma units_loop_complete statuses st serviceName r :
  l_partialReports st !! serviceName = Some r ->
  with_Status r (Spec.reconciled_status statuses serviceName)
  ∈ (l_reports (fold_left list_unit statuses st)
     ++ list_leftover (l_partialReports (fold_left list_unit statuses st)))%list.
Proof.
  revert st. induction statuses as [|u statuses IH]; intros st Hl; simpl.
  - apply elem_of_app. right. apply leftover_elem. eauto.
  - destruct (decide (dbus.Name u = serviceName)) as [Heq|Hne].
    + subst serviceName. rewrite reconciled_status_here.
      apply elem_of_app. left. apply units_loop_grows.
      rewrite list_unit_reports, Hl. simpl.
      apply elem_of_app. right. apply list_elem_of_singleton. reflexivity.
    + rewrite reconciled_status_skip by exact Hne.
      apply IH. rewrite list_unit_partial. rewrite lookup_delete_ne by exact Hne. exact Hl.
Qed.

Lemma units_loop_sound all statuses todo : forall done st,
  (done ++ todo)%list = statuses ->
  (forall e, e ∈ l_reports st -> entry_ok E fs all statuses e) ->
  partial_ok E fs all (l_partialReports st) ->
  (forall u, u ∈ done -> l_partialReports st !! dbus.Name u = None) ->
  (forall e, e ∈ l_reports (fold_left list_unit todo st) -> entry_ok E fs all statuses e)
  /\ partial_ok E fs all (l_partialReports (fold_left list_unit todo st))
  /\ (forall u, u ∈ statuses ->
                l_partialReports (fold_left list_unit todo st) !! dbus.Name u = None).
Proof.
  induction todo as [|u todo IH]; intros done st Hsplit Hrep Hpart Hdone; simpl.
  - rewrite app_nil_r in Hsplit. subst done. auto.
  - apply (IH (done ++ [u])%list).
    + now rewrite <- app_assoc.
    + intros e He. rewrite list_unit_reports in He.
      apply elem_of_app in He as [He|He]; [now apply Hrep|].
      apply list_elem_of_singleton in He. subst e.
      destruct (l_partialReports st !! dbus.Name u) as [r|] eqn:Hl; simpl.
      * destruct (Hpart _ _ Hl) as (path & Hin & Hparse & ->).
        right; left. exists path, (dbus.Name u). repeat split; [exact Hin | exact Hparse |].
        rewrite with_Status_entry. f_equal. subst statuses.
        rewrite reconciled_status_app, reconciled_status_here; [reflexivity|].
        intros u' Hu' Heq. specialize (Hdone u' Hu'). rewrite Heq in Hdone. congruence.
      * right; right. split; reflexivity.
    + rewrite list_unit_partial. intros sn r Hl.
      apply lookup_delete_Some in Hl as [_ Hl]. now apply Hpart.
    + intros u' Hu'. rewrite list_unit_partial.
      destruct (decide (dbus.Name u = dbus.Name u')) as [Heq|Hne].
      * rewrite Heq. apply lookup_delete_eq.
      * rewrite lookup_delete_ne by exact Hne.
        apply elem_of_app in Hu' as [Hu'|Hu']; [now apply Hdone|].
        apply list_elem_of_singleton in Hu'. subst u'. contradiction.
Qed.

End ListFacts.

(** Whatever filters are given, if the call succeeds its result is the
    result of the call without filters. *)
Lemma QuadletList_filters_ignored E fs options out :
  abi.QuadletList E fs options = Ok out ->
  abi.QuadletList E fs {| entities.Filters := [] |} = Ok out.
Proof.
  unfold abi.QuadletList. cbn [entities.Filters abi.build_filterMap].
  destruct (dbus_NewWithContext E); [discriminate|].
  destruct (abi.getAllQuadletPaths E fs) as [quadletPaths|]; [|discriminate].
  destruct (abi.build_filterMap _ _) as [filterMap|]; [|discriminate].
  destruct (abi.build_filterFuncs E (map_to_list filterMap)) as [filterFuncs|]; [|discriminate].
  rewrite map_to_list_empty. cbn [abi.build_filterFuncs].
  destruct (ListUnitsByNames E _) as [statuses|]; [|discriminate].
  now rewrite !final_reports_all.
Qed.

(** C8.  Whenever [QuadletList] returns a list, systemd was asked once, about
    the service names of all the files that parsed, and with its answer
    [statuses]:
    - every entry of the list is the entry of a file that did not parse, or
      the zero report of a unit nobody asked about, or the entry of a file
      that parsed to some service name, and then its status is the one of the
      specification: ["Not loaded"] if the first answer for that name has a
      [LoadState] other than ["loaded"], ["<ActiveState>/<SubState>"] if it
      is ["loaded"], and ["Not loaded"] if no answer has that name;
    - every file that parsed has that entry in the list, unless a later file
      has the same service name and took its place in [partialReports]. *)
Theorem QuadletList_status (E : Env) (fs : gmap string node)
    (options : entities.QuadletListOptions) (out : list entities.ListQuadlet) :
  abi.QuadletList E fs options = Ok out ->
  exists quadletPaths statuses,
    abi.getAllQuadletPaths E fs = Ok quadletPaths
    /\ ListUnitsByNames E (Notions.queried_names E fs quadletPaths) = Ok statuses
    /\ (forall e, e ∈ out -> Notions.entry_ok E fs quadletPaths statuses e)
    /\ (forall i path serviceName,
          quadletPaths !! i = Some path ->
          abi.getQuadletServiceName E fs path = Ok serviceName ->
          (forall j path', i < j -> quadletPaths !! j = Some path' ->
                           abi.getQuadletServiceName E fs path' <> Ok serviceName) ->
          Notions.entry path (Spec.reconciled_status statuses serviceName) ∈ out).
Proof.
  unfold abi.QuadletList. intros H.
  destruct (dbus_NewWithContext E); [discriminate|].
  destruct (abi.getAllQuadletPaths E fs) as [quadletPaths|] eqn:Hpaths; [|discriminate].
  destruct (abi.build_filterMap _ _) as [filterMap|]; [|discriminate].
  destruct (abi.build_filterFuncs _) as [filterFuncs|]; [|discriminate].
  set (st0 := {| abi.l_reports := []; abi.l_allServiceNames := [];
                 abi.l_partialReports := ∅ |}) in H.
  rewrite paths_loop_names in H. simpl in H.
  destruct (ListUnitsByNames E _) as [statuses|] eqn:Hunits; [|discriminate].
  rewrite final_reports_all in H. inversion H; subst out; clear H.
  exists quadletPaths, statuses. split; [reflexivity|]. split; [exact Hunits|].
  destruct (paths_loop_sound E fs quadletPaths quadletPaths st0) as [Hpart Hfail].
  { auto. }
  { intros sn r Hl. simpl in Hl. rewrite lookup_empty in Hl. discriminate. }
  { intros e He. simpl in He. apply elem_of_nil in He. contradiction. }
  split.
  - destruct (units_loop_sound E fs quadletPaths statuses statuses []
                (fold_left (abi.list_path E fs) quadletPaths st0)) as (Hrep & Hpart' & Hgone).
    + reflexivity.
    + intros e He. left. destruct (Hfail e He) as (p & err & ? & ? & ?). eauto.
    + exact Hpart.
    + intros u Hu. apply elem_of_nil in Hu. contradiction.
    + intros e He. apply elem_of_app in He as [He|He]; [now apply Hrep|].
      apply leftover_elem in He as (sn & r & Hl & ->).
      destruct (Hpart' _ _ Hl) as (path & Hin & Hparse & ->).
      right; left. exists path, sn. repeat split; [exact Hin | exact Hparse |].
      rewrite with_Status_entry. f_equal. symmetry.
      apply reconciled_status_absent. intros u Hu Heq.
      specialize (Hgone u Hu). rewrite Heq in Hgone. congruence.
  - intros i path sn Hi Hparse Hlater.
    rewrite <- (with_Status_entry path "").
    apply units_loop_complete.
    now apply (paths_loop_last E fs quadletPaths st0 i).
Qed.

(** On the sample machine with [a.service] running, the listing is the two
    installed quadlets, the first one active. *)
Lemma QuadletList_status_witness :
  let E := Scenario.env [Scenario.running "a.service"] in
  let out := [Notions.entry "/etc/containers/systemd/a.container" "active/running";
              Scenario.entry_b] in
  abi.QuadletList E Scenario.disk {| entities.Filters := [] |} = Ok out
  /\ exists quadletPaths statuses,
      abi.getAllQuadletPaths E Scenario.disk = Ok quadletPaths
      /\ ListUnitsByNames E (Notions.queried_names E Scenario.disk quadletPaths) = Ok statuses
      /\ (forall e, e ∈ out -> Notions.entry_ok E Scenario.disk quadletPaths statuses e)
      /\ (forall i path serviceName,
            quadletPaths !! i = Some path ->
            abi.getQuadletServiceName E Scenario.disk path = Ok serviceName ->
            (forall j path', i < j -> quadletPaths !! j = Some path' ->
                             abi.getQuadletServiceName E Scenario.disk path' <> Ok serviceName) ->
            Notions.entry path (Spec.reconciled_status statuses serviceName) ∈ out).
Proof.
  intros E out.
  assert (H : abi.QuadletList E Scenario.disk {| entities.Filters := [] |} = Ok out)
    by (vm_compute; reflexivity).
  split; [exact H|].
  exact (QuadletList_status E Scenario.disk {| entities.Filters := [] |} out H).
Defined.

(** C1.  On the sample machine the filter [name=a.container] is given.  The
    entry of [b.container] does not satisfy it, and [QuadletList] returns
    that entry all the same. *)
Theorem QuadletList_name_filter_keeps_other :
  abi.QuadletList (Scenario.env []) Scenario.disk
    {| entities.Filters := ["name=a.container"] |}
  = Ok [Scenario.entry_a; Scenario.entry_b]
  /\ Spec.satisfies Scenario.matches [("name", ["a.container"])] Scenario.entry_b = false
  /\ StringMatchRegexSlice (Scenario.env []) (entities.Name Scenario.entry_b) ["a.container"]
     = false.
Proof. repeat split; vm_compute; reflexivity. Qed.

(** ** Installing *)

Section InstallFacts.
Context (E : Env).
Import GoStrings abi entities Notions.

(** [installQuadlet] on a source that is a file and a destination that is
    there: the already-exists error, and the same file system. *)
Lemma installQuadlet_refuses_overwrite fs path destName installDir stat :
  os.Stat fs path = Ok stat -> IsDir stat = false ->
  is_Some (fs !! install_destination path destName installDir) ->
  fs !! install_destination path destName installDir <> Some Inaccessible ->
  installQuadlet E fs path destName installDir
  = (fs, Err (err_already_exists (install_destination path destName installDir))).
Proof.
  intros Hstat Hfile [n Hn] Hacc. unfold installQuadlet. rewrite Hstat, Hfile.
  unfold os.Stat at 1. rewrite Hn.
  destruct n; [reflexivity | reflexivity | contradiction].
Qed.

(** A reference to an artifact whose layers cannot be fetched ends the whole
    call: no report, and the references after it are not looked at. *)
Lemma install_artifact_failure_returns report fs installDir toInstall rest options err :
  ArtifactStore E = None ->
  HasPrefix toInstall "oci-artifact://" = true ->
  GetLayers E (TrimPrefix toInstall "oci-artifact://") = Err err ->
  install_from E report fs installDir (toInstall :: rest) options
  = Returned fs (None, Some (Errorf_w ("retrieving OCI artifact "
                                       +:+ TrimPrefix toInstall "oci-artifact://" +:+ ": ") err)).
Proof.
  intros Has Hpre Hlayers. unfold install_from. rewrite Has. simpl.
  unfold install_one. rewrite Hpre, Hlayers. reflexivity.
Qed.

(** With the report as [new] left it, the first reference that is not an
    artifact ends the call in a panic: each of its paths through the loop body
    ends in an assignment to an entry of one of the two maps. *)
Lemma install_one_fresh_panics installDir st toInstall :
  i_report st = new_QuadletInstallReport ->
  HasPrefix toInstall "oci-artifact://" = false ->
  exists st', install_one E installDir st toInstall = Panic st'.
Proof.
  intros Hst Hoci. unfold install_one. rewrite Hoci.
  destruct (_ || _).
  - destruct (CreateTemp E (i_fs st)) as [tmpFile|err].
    + destruct (http_Get E toInstall) as [r|err].
      * destruct (copy_body _ _ _) as [fs' [err|]].
        -- rewrite set_QuadletErrors_nil; [eauto|]. simpl. now rewrite Hst.
        -- destruct (installQuadlet _ _ _ _ _) as [fs'' res].
           rewrite record_install_nil; [eauto | exact Hst].
      * rewrite set_QuadletErrors_nil; [eauto|]. simpl. now rewrite Hst.
    + rewrite set_QuadletErrors_nil; [eauto|]. now rewrite Hst.
  - destruct (installQuadlet _ _ _ _ _) as [fs' res].
    rewrite record_install_nil; [eauto | exact Hst].
Qed.

Lemma QuadletInstall_first_reference_panics fs fs1 installDir toInstall rest options :
  install_prepare E fs = (fs1, Ok installDir) ->
  ArtifactStore E = None ->
  HasPrefix toInstall "oci-artifact://" = false ->
  exists fs', QuadletInstall E fs (toInstall :: rest) options = Panicked fs'.
Proof.
  intros Hprep Has Hoci. unfold QuadletInstall, install_from. rewrite Hprep, Has. simpl.
  destruct (install_one_fresh_panics installDir
              {| i_fs := fs1; i_report := new_QuadletInstallReport; i_tmp := [] |}
              toInstall eq_refl Hoci) as [st' ->].
  eauto.
Qed.

(** A local reference whose destination is there: the call panics with the
    file system as the checks left it. *)
Lemma QuadletInstall_existing_destination fs fs1 installDir toInstall rest options stat :
  install_prepare E fs = (fs1, Ok installDir) ->
  ArtifactStore E = None ->
  HasPrefix toInstall "oci-artifact://" = false ->
  HasPrefix toInstall "http://" || HasPrefix toInstall "https://" = false ->
  os.Stat fs1 toInstall = Ok stat -> IsDir stat = false ->
  is_Some (fs1 !! install_destination toInstall "" installDir) ->
  fs1 !! install_destination toInstall "" installDir <> Some Inaccessible ->
  QuadletInstall E fs (toInstall :: rest) options = Panicked fs1.
Proof.
  intros Hprep Has Hoci Hurl Hstat Hfile Hdest Hacc.
  unfold QuadletInstall, install_from. rewrite Hprep, Has. simpl.
  unfold install_one. rewrite Hoci, Hurl. simpl.
  rewrite (installQuadlet_refuses_overwrite _ _ _ _ _ Hstat Hfile Hdest Hacc).
  reflexivity.
Qed.

End InstallFacts.

(** *** The status code of a response is never looked at *)

Lemma for_range_ext {S R A} (f g : S -> A -> flow S R) (l : list A) :
  (forall s x, f s x = g s x) -> forall s, for_range f l s = for_range g l s.
Proof.
  intros Hfg. induction l as [|x l IH]; intros s; simpl; [reflexivity|].
  rewrite Hfg. destruct (g s x); [apply IH | reflexivity | reflexivity].
Qed.

Lemma install_one_status_blind code E installDir st toInstall :
  abi.install_one (Notions.with_status_codes code E) installDir st toInstall
  = abi.install_one E installDir st toInstall.
Proof.
  unfold abi.install_one. cbn [GetLayers CreateTemp http_Get Notions.with_status_codes].
  destruct (GoStrings.HasPrefix toInstall "oci-artifact://"); [reflexivity|].
  destruct (_ || _); [|reflexivity].
  destruct (CreateTemp E (abi.i_fs st)) as [tmpFile|err]; [|reflexivity].
  destruct (http_Get E toInstall) as [r|err]; reflexivity.
Qed.

(** Two machines that differ only in the status codes of the responses:
    [QuadletInstall] does the same on both. *)
Lemma QuadletInstall_status_blind code E fs pathsOrURLs options :
  abi.QuadletInstall (Notions.with_status_codes code E) fs pathsOrURLs options
  = abi.QuadletInstall E fs pathsOrURLs options.
Proof.
  unfold abi.QuadletInstall.
  change (abi.install_prepare (Notions.with_status_codes code E) fs)
    with (abi.install_prepare E fs).
  destruct (abi.install_prepare E fs) as [fs' [installDir|err]]; [|reflexivity].
  unfold abi.install_from. cbn [ArtifactStore Notions.with_status_codes].
  destruct (ArtifactStore E); [reflexivity|].
  rewrite (for_range_ext _ (abi.install_one E installDir));
    [reflexivity | intros; apply install_one_status_blind].
Qed.

(** C10.  On the sample machine one URL cannot be reached and another
    answers with a 404 page.  For the first, [QuadletInstall] panics on the
    assignment of the fetch error to [QuadletErrors]: no error is yielded for
    the reference and no report comes back.  For the second, the page is
    written to the temporary file and [installQuadlet] is called on it,
    whatever the status code; the call then panics in the same way on the
    assignment of the outcome.  Had the maps been made, the fetch error
    would be recorded for the first reference, and for the second the error
    of [installQuadlet], which refuses the name of the temporary file for
    its extension.  On every machine the status codes of the responses play
    no part in what the call does. *)
Theorem QuadletInstall_url_panics :
  http_Get (Scenario.env []) "https://example.com/down.container"
  = Err (errorString "dial tcp: connection refused")
  /\ abi.QuadletInstall (Scenario.env []) Scenario.disk ["https://example.com/down.container"]
       {| entities.ReloadSystemd := false |}
     = Panicked Scenario.disk
  /\ http_Get (Scenario.env []) "https://example.com/missing.container" = Ok Scenario.page_404
  /\ http.StatusCode Scenario.page_404 = 404%Z
  /\ abi.QuadletInstall (Scenario.env []) Scenario.disk
       ["https://example.com/missing.container"] {| entities.ReloadSystemd := false |}
     = Panicked Scenario.disk
  /\ abi.install_one (Scenario.env []) Scenario.systemd_dir
       {| abi.i_fs := Scenario.disk; abi.i_report := entities.new_QuadletInstallReport;
          abi.i_tmp := [] |} "https://example.com/missing.container"
     = Panic {| abi.i_fs := <["/tmp/quadlet-dl1" := File 384 (http.Body Scenario.page_404)]>
                              Scenario.disk;
                abi.i_report := entities.new_QuadletInstallReport;
                abi.i_tmp := ["/tmp/quadlet-dl1"] |}
  /\ (abi.installQuadlet (Scenario.env [])
        (<["/tmp/quadlet-dl1" := File 384 (http.Body Scenario.page_404)]> Scenario.disk)
        "/tmp/quadlet-dl1" "" Scenario.systemd_dir).2
     = Err (abi.err_unsupported "/etc/containers/systemd/quadlet-dl1")
  /\ abi.install_from (Scenario.env []) Scenario.made_InstallReport Scenario.disk
       Scenario.systemd_dir ["https://example.com/down.container"]
       {| entities.ReloadSystemd := false |}
     = Returned Scenario.disk
         (Some {| entities.InstalledQuadlets := GoMap.make;
                  entities.QuadletErrors :=
                    Some {[ "https://example.com/down.container"
                            := Errorf_w "unable to download URL https://example.com/down.container: "
                                 (errorString "dial tcp: connection refused") ]} |},
          None)
  /\ abi.install_from (Scenario.env []) Scenario.made_InstallReport Scenario.disk
       Scenario.systemd_dir ["https://example.com/missing.container"]
       {| entities.ReloadSystemd := false |}
     = Returned Scenario.disk
         (Some {| entities.InstalledQuadlets := GoMap.make;
                  entities.QuadletErrors :=
                    Some {[ "https://example.com/missing.container"
                            := abi.err_unsupported "/etc/containers/systemd/quadlet-dl1" ]} |},
          None)
  /\ (forall code E fs pathsOrURLs options,
        abi.QuadletInstall (Notions.with_status_codes code E) fs pathsOrURLs options
        = abi.QuadletInstall E fs pathsOrURLs options).
Proof.
  split; [vm_compute; reflexivity|].
  split; [vm_compute; reflexivity|].
  split; [vm_compute; reflexivity|].
  split; [reflexivity|].
  split; [vm_compute; reflexivity|].
  split; [vm_compute; reflexivity|].
  split; [vm_compute; reflexivity|].
  split; [vm_compute; reflexivity|].
  split; [vm_compute; reflexivity|].
  intros code E fs pathsOrURLs options. apply QuadletInstall_status_blind.
Qed.

(** C3.  On the sample machine the first reference names an artifact the
    store does not have, the second a local file that would install.  The
    call returns the fetch error and no report; the file system is as it was,
    so the second reference was never installed. *)
Theorem QuadletInstall_artifact_failure_aborts :
  abi.QuadletInstall (Scenario.env []) Scenario.disk
    ["oci-artifact://missing:latest"; "/src/web.container"]
    {| entities.ReloadSystemd := false |}
  = Returned Scenario.disk
      (None, Some (Errorf_w "retrieving OCI artifact missing:latest: "
                     (errorString "artifact missing:latest not found")))
  /\ Scenario.disk !! "/etc/containers/systemd/web.container" = None
  /\ (abi.installQuadlet (Scenario.env []) Scenario.disk "/src/web.container" ""
        Scenario.systemd_dir).2
     = Ok "/etc/containers/systemd/web.container".
Proof. repeat split; vm_compute; reflexivity. Qed.

(** Had the maps been made: the outcome of an artifact's layer is recorded
    under the layer's path on disk, so the reference itself is a key of
    neither map. *)
Lemma artifact_layer_keyed_by_path :
  match abi.install_from (Scenario.env []) Scenario.made_InstallReport Scenario.disk
          Scenario.systemd_dir ["oci-artifact://pods:latest"]
          {| entities.ReloadSystemd := false |} with
  | Returned _ (Some report, None) =>
      GoMap.get (entities.InstalledQuadlets report) "/blobs/sha256-1"
      = Some "/etc/containers/systemd/web.container"
      /\ GoMap.has_key (entities.InstalledQuadlets report) "oci-artifact://pods:latest" = false
      /\ GoMap.has_key (entities.QuadletErrors report) "oci-artifact://pods:latest" = false
  | _ => False
  end.
Proof. vm_compute. repeat split. Qed.

(** Had the maps been made: a reference given twice is installed the first
    time and refused the second time, and ends up a key of both maps. *)
Lemma repeated_reference_in_both_maps :
  match abi.install_from (Scenario.env []) Scenario.made_InstallReport Scenario.disk
          Scenario.systemd_dir ["/src/web.container"; "/src/web.container"]
          {| entities.ReloadSystemd := false |} with
  | Returned _ (Some report, None) =>
      GoMap.has_key (entities.InstalledQuadlets report) "/src/web.container" = true
      /\ GoMap.has_key (entities.QuadletErrors report) "/src/web.container" = true
  | _ => False
  end.
Proof. vm_compute. repeat split. Qed.

(** C4.  On the sample machine the only reference names an artifact without
    layers.  The call returns a report, and the reference is a key of neither
    of its maps. *)
Theorem QuadletInstall_empty_artifact_unrecorded :
  exists report,
    abi.QuadletInstall (Scenario.env []) Scenario.disk ["oci-artifact://empty:latest"]
      {| entities.ReloadSystemd := false |}
    = Returned Scenario.disk (Some report, None)
    /\ GoMap.has_key (entities.InstalledQuadlets report) "oci-artifact://empty:latest" = false
    /\ GoMap.has_key (entities.QuadletErrors report) "oci-artifact://empty:latest" = false.
Proof.
  exists entities.new_QuadletInstallReport. repeat split; vm_compute; reflexivity.
Qed.

(** C5.  On the sample machine [/src/a.container] is installed while
    [a.container] is already in the install directory.  [installQuadlet]
    fails with the already-exists error and leaves the file system alone; the
    call then panics on the assignment to [QuadletErrors], so nothing is
    recorded and no report comes back.  The file is as it was. *)
Theorem QuadletInstall_existing_destination_panics :
  abi.installQuadlet (Scenario.env []) Scenario.disk "/src/a.container" "" Scenario.systemd_dir
  = (Scenario.disk, Err (abi.err_already_exists "/etc/containers/systemd/a.container"))
  /\ abi.QuadletInstall (Scenario.env []) Scenario.disk ["/src/a.container"]
       {| entities.ReloadSystemd := false |}
     = Panicked Scenario.disk
  /\ Scenario.disk !! "/etc/containers/systemd/a.container"
     = Some (File 420 "[Container] Image=a").
Proof. repeat split; vm_compute; reflexivity. Qed.

(** ** Removing *)

Section RemoveFacts.
Context (E : Env).
Import GoStrings filepath abi entities Notions.

Lemma find_quadlet_absent fs name dirs :
  (forall dir, dir ∈ dirs -> fs !! Join dir name = None) ->
  exists err, find_quadlet fs name dirs = Err err.
Proof.
  induction dirs as [|dir dirs IH]; intros Hno; simpl; [eauto|].
  unfold os.Stat. rewrite (Hno dir) by left. simpl.
  apply IH. intros d Hd. apply Hno. now right.
Qed.

Lemma getQuadletByName_absent fs name :
  (forall dir, dir ∈ GetUnitDirs E (IsRootless E) -> fs !! Join dir name = None) ->
  exists err, getQuadletByName E fs name = Err err.
Proof.
  intros Hno. unfold getQuadletByName.
  destruct (IsExtSupported E name); simpl; [|eauto].
  now apply find_quadlet_absent.
Qed.

(** With [All] set, a name that does not resolve is put on [Removed] and
    nothing else happens to it. *)
Lemma resolve_unresolved_all options quadlets : forall st,
  All options = true ->
  (forall q, q ∈ quadlets -> exists err, getQuadletByName E (r_fs st) q = Err err) ->
  for_range (remove_resolve E options) quadlets st
  = Continue (r_with_report st {| Removed := (Removed (r_report st) ++ quadlets)%list;
                                  Errors := Errors (r_report st) |}).
Proof.
  induction quadlets as [|q quadlets IH]; intros st Hall Hno; simpl.
  - rewrite app_nil_r. destruct st as [? [? ?] ? ? ? ? ?]. reflexivity.
  - unfold remove_resolve at 1. destruct (Hno q) as [err Herr]; [left|].
    rewrite Herr, Hall, orb_true_r.
    rewrite IH; [|exact Hall|].
    + unfold append_Removed, r_with_report. simpl. now rewrite <- app_assoc.
    + intros q' Hq'. apply Hno. now right.
Qed.

(** [QuadletRemove] with [All]: the names it works on are the full paths
    the enumeration found, and it looks each of them up under every unit
    directory again.  Unless some directory holds a copy of such a path below
    itself, none resolves: every path is reported as removed and no file is
    touched. *)
Lemma QuadletRemove_all_unresolved fs quadlets force ignore allQuadlets :
  ConnectToDBUS E = None ->
  getAllQuadletPaths E fs = Ok allQuadlets ->
  (forall path dir, path ∈ allQuadlets -> dir ∈ GetUnitDirs E (IsRootless E) ->
                    fs !! Join dir path = None) ->
  QuadletRemove E fs quadlets {| Force := force; All := true; Ignore := ignore |}
  = Returned fs (Some {| Removed := allQuadlets; Errors := GoMap.nil |}, None).
Proof.
  intros Hconn Hpaths Hno. unfold QuadletRemove, remove_from.
  cbn [All negb]. rewrite andb_false_r, Hconn. cbv zeta. rewrite Hpaths.
  unfold remove_loops.
  rewrite resolve_unresolved_all; [reflexivity | reflexivity |].
  intros q Hq. apply getQuadletByName_absent. intros dir Hdir. now apply Hno.
Qed.

(** With the report as [new] left it: a first name that is not found, when
    neither [Ignore] nor [All] is set, ends the call in a panic. *)
Lemma QuadletRemove_unresolved_panics fs quadlet rest force err :
  ConnectToDBUS E = None ->
  getQuadletByName E fs quadlet = Err err ->
  QuadletRemove E fs (quadlet :: rest) {| Force := force; All := false; Ignore := false |}
  = Panicked fs.
Proof.
  intros Hconn Hname. unfold QuadletRemove, remove_from.
  cbn [All negb length Nat.eqb andb]. rewrite Hconn. cbv zeta.
  unfold remove_loops. cbn [for_range]. unfold remove_resolve at 1.
  cbn [r_fs]. rewrite Hname. reflexivity.
Qed.

(** A first name that is found and does not parse ends the call in a panic,
    whatever the options. *)
Lemma QuadletRemove_unparsable_first fs quadlet rest options quadletPath err :
  All options = false ->
  ConnectToDBUS E = None ->
  getQuadletByName E fs quadlet = Ok quadletPath ->
  getQuadletServiceName E fs quadletPath = Err err ->
  QuadletRemove E fs (quadlet :: rest) options = Panicked fs.
Proof.
  intros Hall Hconn Hname Hparse. unfold QuadletRemove, remove_from.
  rewrite Hall. cbn [negb length Nat.eqb andb]. rewrite Hconn. cbv zeta.
  unfold remove_loops. cbn [for_range]. unfold remove_resolve at 1.
  cbn [r_fs append_path]. rewrite Hname. cbn [r_fs append_path]. rewrite Hparse. reflexivity.
Qed.

(** One name whose unit systemd reports loaded and active, without [Force]:
    the call panics before any file is touched. *)
Lemma QuadletRemove_running_one fs quadlet quadletPath serviceName unitStatus others ignore :
  ConnectToDBUS E = None ->
  getQuadletByName E fs quadlet = Ok quadletPath ->
  getQuadletServiceName E fs quadletPath = Ok serviceName ->
  ListUnitsByNames E [serviceName] = Ok (unitStatus :: others) ->
  dbus.LoadState unitStatus = "loaded" ->
  dbus.ActiveState unitStatus = "active" ->
  QuadletRemove E fs [quadlet] {| Force := false; All := false; Ignore := ignore |}
  = Panicked fs.
Proof.
  intros Hconn Hname Hparse Hunits Hload Hactive. unfold QuadletRemove, remove_from.
  cbn [All negb length Nat.eqb andb]. rewrite Hconn. cbv zeta.
  unfold remove_loops. cbn [for_range]. unfold remove_resolve at 1.
  cbn [r_fs append_path]. rewrite Hname. cbn [r_fs append_path]. rewrite Hparse.
  cbn [append_service append_path r_allServiceNames app length Nat.eqb negb].
  rewrite Hunits. cbn [for_range]. unfold remove_unit at 1.
  rewrite Hload, Hactive. rewrite !String.eqb_refl. cbn [negb Force].
  rewrite set_Errors_nil by reflexivity. reflexivity.
Qed.

End RemoveFacts.

(** C2.  On the sample machine two quadlets are installed and no unit is
    running.  [QuadletRemove] with [All] returns without an error and lists
    both paths as removed, and both files are still on the disk. *)
Theorem QuadletRemove_all_removes_nothing :
  abi.getAllQuadletPaths (Scenario.env []) Scenario.disk
  = Ok ["/etc/containers/systemd/a.container"; "/etc/containers/systemd/b.container"]
  /\ abi.QuadletRemove (Scenario.env []) Scenario.disk [] Scenario.all_options
     = Returned Scenario.disk
         (Some {| entities.Removed := ["/etc/containers/systemd/a.container";
                                       "/etc/containers/systemd/b.container"];
                  entities.Errors := GoMap.nil |}, None)
  /\ Scenario.disk !! "/etc/containers/systemd/a.container"
     = Some (File 420 "[Container] Image=a")
  /\ Scenario.disk !! "/etc/containers/systemd/b.container"
     = Some (File 420 "[Container] Image=b").
Proof. repeat split; vm_compute; reflexivity. Qed.

(** C6.  On the sample machine [a.service] is loaded and active and [Force]
    is not set.  Removing [a.container] panics on the assignment to
    [report.Errors]: the call does not return and records nothing.  Had the
    map been made, the call would return with the running error under
    [a.container] and the file in place. *)
Theorem QuadletRemove_running_panics :
  abi.QuadletRemove (Scenario.env [Scenario.running "a.service"]) Scenario.disk
    ["a.container"] Scenario.no_options
  = Panicked Scenario.disk
  /\ abi.remove_from (Scenario.env [Scenario.running "a.service"]) Scenario.made_RemoveReport
       Scenario.disk ["a.container"] Scenario.no_options
     = Returned Scenario.disk
         (Some {| entities.Removed := [];
                  entities.Errors := Some {[ "a.container" := abi.err_running "a.container" ]} |},
          None).
Proof. repeat split; vm_compute; reflexivity. Qed.

(** C7.  On the sample machine [bad.container] is in the unit directory and
    does not parse.  Removing it panics on the assignment to [report.Errors].
    Had the map been made, the call would record the parse error and then
    delete the file all the same and list it as removed, its path having been
    put on [allQuadletPaths] before the service name was derived. *)
Theorem QuadletRemove_unparsable_panics :
  abi.getQuadletByName (Scenario.env []) Scenario.disk_broken "bad.container"
  = Ok "/etc/containers/systemd/bad.container"
  /\ (exists err, abi.getQuadletServiceName (Scenario.env []) Scenario.disk_broken
                    "/etc/containers/systemd/bad.container" = Err err)
  /\ abi.QuadletRemove (Scenario.env []) Scenario.disk_broken ["bad.container"]
       Scenario.no_options
     = Panicked Scenario.disk_broken
  /\ exists errors,
       abi.remove_from (Scenario.env []) Scenario.made_RemoveReport Scenario.disk_broken
         ["bad.container"] Scenario.no_options
       = Returned Scenario.disk
           (Some {| entities.Removed := ["bad.container"]; entities.Errors := errors |}, None)
       /\ GoMap.has_key errors "bad.container" = true
       /\ Scenario.disk !! "/etc/containers/systemd/bad.container" = None.
Proof.
  split; [vm_compute; reflexivity|]. split; [eexists; vm_compute; reflexivity|].
  split; [vm_compute; reflexivity|].
  eexists. repeat split; vm_compute; reflexivity.
Qed.

(** C9.  On the sample machine each of the three map fields is assigned to
    once, in a report that came from [new], and each time the call panics:
    [InstalledQuadlets] after a local file was copied into place,
    [QuadletErrors] after an install that failed, [Errors] after a name that
    was not found. *)
Theorem report_assignments_panic :
  abi.QuadletInstall (Scenario.env []) Scenario.disk ["/src/web.container"]
    {| entities.ReloadSystemd := false |}
  = Panicked (<["/etc/containers/systemd/web.container" := File 420 "[Container] Image=web"]>
                Scenario.disk)
  /\ abi.QuadletInstall (Scenario.env []) Scenario.disk ["/src/a.container"]
       {| entities.ReloadSystemd := false |}
     = Panicked Scenario.disk
  /\ abi.QuadletRemove (Scenario.env []) Scenario.disk ["ghost.container"] Scenario.no_options
     = Panicked Scenario.disk
  /\ GoMap.set (entities.QuadletErrors entities.new_QuadletInstallReport) "/src/a.container"
       (abi.err_already_exists "/etc/containers/systemd/a.container") = None.
Proof. repeat split; vm_compute; reflexivity. Qed.
(** * Further properties of the engine *)

(** ** [installQuadlet] *)

Section InstallQuadletFacts.
Context (E : Env).
Import GoStrings filepath abi entities.

(** A write to a path that holds nothing: the file system is as it was, or
    the path holds a new file with the mode the umask leaves. *)
Lemma WriteFile_new fault mask fs path data perm fs' r :
  os.WriteFile fault mask fs path data perm = (fs', r) -> fs !! path = None ->
  (fs' = fs /\ r <> None)
  \/ (exists written,
        fs' = <[path := File (Z.land perm (Z.lnot mask)) written]> fs
        /\ fs !! Dir path = Some Directory
        /\ match r with
           | None => written = data /\ fault = None
           | Some err => fault = Some (os.WriteFails written err)
           end).
Proof.
  unfold os.WriteFile. intros H Hnone. rewrite Hnone in H.
  destruct (fs !! Dir path) as [[| |]|];
    try (inversion H; left; split; [reflexivity | discriminate]).
  unfold os.written_file in H. destruct fault as [[err|written err]|]; inversion H; subst.
  - left. split; [reflexivity | discriminate].
  - right. exists written. auto.
  - right. exists data. auto.
Qed.

Lemma WriteFile_done fault mask fs path data perm fs' :
  os.WriteFile fault mask fs path data perm = (fs', None) -> fs !! path = None ->
  fs' = <[path := File (Z.land perm (Z.lnot mask)) data]> fs
  /\ fs !! Dir path = Some Directory.
Proof.
  intros H Hnone.
  destruct (WriteFile_new _ _ _ _ _ _ _ _ H Hnone) as [[_ Hr]|(written & -> & Hdir & -> & _)];
    [contradiction | auto].
Qed.

End InstallQuadletFacts.

(** X1.  What an install that fails leaves behind.  Every check of
    [installQuadlet] comes before its one write, so an install that fails a
    check changes nothing.  When it is the write that fails part of the way
    through, the destination, a path that held nothing, is left as a new file
    with what was written; no other path changes. *)
Theorem installQuadlet_failure_keeps_files (E : Env) (fs fs' : gmap string node)
    (path destName installDir : string) (err : error) :
  abi.installQuadlet E fs path destName installDir = (fs', Err err) ->
  let finalPath := abi.install_destination path destName installDir in
  (forall p, p <> finalPath -> fs' !! p = fs !! p)
  /\ (fs' = fs
      \/ exists written e,
           WriteFile_fault E finalPath = Some (os.WriteFails written e)
           /\ fs !! finalPath = None
           /\ fs' = <[finalPath := File (Z.land 420 (Z.lnot (umask E))) written]> fs
           /\ err = Errorf_w ("writing Quadlet " +:+ GoStrings.quote path +:+ " to "
                              +:+ GoStrings.quote finalPath +:+ ": ") e).
Proof.
  intros H finalPath.
  assert (Hcases : fs' = fs
                   \/ exists written e,
                        WriteFile_fault E finalPath = Some (os.WriteFails written e)
                        /\ fs !! finalPath = None
                        /\ fs' = <[finalPath := File (Z.land 420 (Z.lnot (umask E))) written]> fs
                        /\ err = Errorf_w ("writing Quadlet " +:+ GoStrings.quote path
                                           +:+ " to " +:+ GoStrings.quote finalPath +:+ ": ") e).
  { revert H. unfold abi.installQuadlet. fold finalPath.
    destruct (os.Stat fs path) as [stat|e]; [|intros H; inversion H; now left].
    destruct (IsDir stat); [intros H; inversion H; now left|].
    destruct (os.Stat fs finalPath) as [st2|e2] eqn:Hdest; [intros H; inversion H; now left|].
    destruct (negb _); [intros H; inversion H; now left|].
    destruct (os.ReadFile fs path) as [contents|e3]; [|intros H; inversion H; now left].
    destruct (os.WriteFile _ _ fs finalPath contents 420) as [fs1 [e4|]] eqn:Hw;
      [|discriminate].
    intros H. inversion H; subst fs1 err. clear H.
    unfold os.Stat in Hdest.
    destruct (fs !! finalPath) as [[| |]|] eqn:Hnone; try discriminate.
    - unfold os.WriteFile in Hw. rewrite Hnone in Hw. inversion Hw. now left.
    - destruct (WriteFile_new _ _ _ _ _ _ _ _ Hw Hnone) as [[-> _]|(written & -> & _ & Hf)];
        [now left|].
      right. exists written, e4. auto. }
  split; [|exact Hcases].
  intros p Hp. destruct Hcases as [->|(written & e & _ & _ & -> & _)]; [reflexivity|].
  now apply lookup_insert_ne.
Qed.

Lemma installQuadlet_failure_keeps_files_witness :
  let fs' := <["/etc/containers/systemd/c.container" := File 420 ""]> Scenario.small_disk in
  let err := Errorf_w ("writing Quadlet "
                       +:+ GoStrings.quote "/etc/containers/systemd/a.container" +:+ " to "
                       +:+ GoStrings.quote "/etc/containers/systemd/c.container" +:+ ": ")
               (PathError "write" "/etc/containers/systemd/c.container" ENOSPC) in
  abi.installQuadlet Scenario2.full_disk_env Scenario.small_disk
    "/etc/containers/systemd/a.container" "c.container" "/etc/containers/systemd"
  = (fs', Err err)
  /\ let finalPath := abi.install_destination "/etc/containers/systemd/a.container"
                        "c.container" "/etc/containers/systemd" in
     (forall p, p <> finalPath -> fs' !! p = Scenario.small_disk !! p)
     /\ (fs' = Scenario.small_disk
         \/ exists written e,
              WriteFile_fault Scenario2.full_disk_env finalPath
              = Some (os.WriteFails written e)
              /\ Scenario.small_disk !! finalPath = None
              /\ fs' = <[finalPath := File (Z.land 420
                                              (Z.lnot (umask Scenario2.full_disk_env)))
                                        written]> Scenario.small_disk
              /\ err = Errorf_w ("writing Quadlet "
                                 +:+ GoStrings.quote "/etc/containers/systemd/a.container"
                                 +:+ " to " +:+ GoStrings.quote finalPath +:+ ": ") e).
Proof.
  intros fs' err.
  assert (H : abi.installQuadlet Scenario2.full_disk_env Scenario.small_disk
                "/etc/containers/systemd/a.container" "c.container" "/etc/containers/systemd"
              = (fs', Err err)) by (vm_compute; reflexivity).
  split; [exact H|].
  exact (installQuadlet_failure_keeps_files _ _ _ _ _ _ _ H).
Defined.

(** X2.  An install that succeeds: the path returned is the install
    directory joined with the given name (or, without one, with the base name
    of the source); its extension is a supported one; nothing was at that
    path; the source is not a directory and could be read; and the only
    change to the file system is the new file, with the bytes of the source
    and the mode 0644 less the bits of the umask. *)
Theorem installQuadlet_success (E : Env) (fs fs' : gmap string node)
    (path destName installDir finalPath : string) :
  abi.installQuadlet E fs path destName installDir = (fs', Ok finalPath) ->
  finalPath = abi.install_destination path destName installDir
  /\ abi.IsExtSupported E finalPath = true
  /\ fs !! finalPath = None
  /\ exists stat data,
       os.Stat fs path = Ok stat /\ IsDir stat = false
       /\ os.ReadFile fs path = Ok data
       /\ fs' = <[finalPath := File (Z.land 420 (Z.lnot (umask E))) data]> fs
       /\ os.ReadFile fs' finalPath = Ok data
       /\ os.ReadFile fs' path = Ok data.
Proof.
  unfold abi.installQuadlet. intros H.
  destruct (os.Stat fs path) as [stat|e] eqn:Hstat; [|discriminate].
  destruct (IsDir stat) eqn:Hdir; [discriminate|].
  set (dest := abi.install_destination path destName installDir) in *.
  destruct (os.Stat fs dest) as [st2|e2] eqn:Hdest; [discriminate|].
  destruct (abi.IsExtSupported E dest) eqn:Hext; [|discriminate]. simpl in H.
  destruct (os.ReadFile fs path) as [contents|e3] eqn:Hread; [|discriminate].
  destruct (os.WriteFile _ _ fs dest contents 420) as [fs1 [e4|]] eqn:Hw; [discriminate|].
  injection H as Hfs Hpath. subst fs1. rewrite <- Hpath. clear Hpath finalPath.
  assert (Hnone : fs !! dest = None).
  { unfold os.Stat in Hdest. unfold os.WriteFile in Hw.
    destruct (fs !! dest) as [[| |]|]; try discriminate. reflexivity. }
  apply WriteFile_done in Hw as [-> _]; [|exact Hnone].
  split_and!; try assumption; try reflexivity.
  exists stat, contents. split_and!; try assumption; try reflexivity.
  - unfold os.ReadFile. now rewrite lookup_insert_eq.
  - unfold os.ReadFile. rewrite lookup_insert_ne; [exact Hread|].
    intros Heq. rewrite Heq in Hnone. unfold os.Stat in Hstat. rewrite Hnone in Hstat.
    discriminate.
Qed.

Lemma installQuadlet_success_witness :
  let fs' := <["/etc/containers/systemd/c.container" := File 420 "[Container]"]>
               Scenario.small_disk in
  abi.installQuadlet (Scenario.env []) Scenario.small_disk "/etc/containers/systemd/a.container"
    "c.container" "/etc/containers/systemd"
  = (fs', Ok "/etc/containers/systemd/c.container")
  /\ ("/etc/containers/systemd/c.container"
      = abi.install_destination "/etc/containers/systemd/a.container" "c.container"
          "/etc/containers/systemd"
      /\ abi.IsExtSupported (Scenario.env []) "/etc/containers/systemd/c.container" = true
      /\ Scenario.small_disk !! "/etc/containers/systemd/c.container" = None
      /\ exists stat data,
           os.Stat Scenario.small_disk "/etc/containers/systemd/a.container" = Ok stat
           /\ IsDir stat = false
           /\ os.ReadFile Scenario.small_disk "/etc/containers/systemd/a.container" = Ok data
           /\ fs' = <["/etc/containers/systemd/c.container"
                      := File (Z.land 420 (Z.lnot (umask (Scenario.env [])))) data]>
                      Scenario.small_disk
           /\ os.ReadFile fs' "/etc/containers/systemd/c.container" = Ok data
           /\ os.ReadFile fs' "/etc/containers/systemd/a.container" = Ok data).
Proof.
  intros fs'.
  assert (H : abi.installQuadlet (Scenario.env []) Scenario.small_disk
                "/etc/containers/systemd/a.container" "c.container" "/etc/containers/systemd"
              = (fs', Ok "/etc/containers/systemd/c.container"))
    by (vm_compute; reflexivity).
  split; [exact H|].
  exact (installQuadlet_success _ _ _ _ _ _ _ H).
Defined.

(** ** The choice of the install directory *)

Section SelectDir.
Context (E : Env) (fs : gmap string node).
Import GoStrings abi More.

Lemma last_cons_default {A} (x : A) (l : list A) :
  last (x :: l) = Some (default x (last l)).
Proof.
  revert x. induction l as [|y l IH]; intros x; [reflexivity|].
  change (last (x :: y :: l)) with (last (y :: l)). rewrite IH. simpl.
  destruct l; reflexivity.
Qed.

Lemma select_install_dir_closed dirs : forall installDir foundAdminDir,
  select_install_dir E fs dirs installDir foundAdminDir
  = chosen_dir E fs dirs installDir foundAdminDir.
Proof.
  induction dirs as [|dir dirs IH]; intros installDir found.
  - unfold chosen_dir. simpl. destruct found; reflexivity.
  - simpl. unfold chosen_dir. simpl. unfold usable_admin at 1, skipped_admin at 1.
    destruct (HasPrefix dir (UnitDirAdmin E)); simpl.
    + destruct (os.Stat fs dir) as [stat|err]; simpl.
      * destruct (IsDir stat); simpl.
        -- destruct (Access_W_OK E dir); simpl.
           ++ rewrite IH. unfold chosen_dir. rewrite last_cons_default.
              destruct (last (List.filter (usable_admin E fs) dirs)); reflexivity.
           ++ rewrite IH. unfold chosen_dir.
              destruct (last (List.filter (usable_admin E fs) dirs)); [reflexivity|].
              destruct found; simpl; [reflexivity|].
              rewrite last_cons_default. reflexivity.
        -- rewrite IH. reflexivity.
      * rewrite IH. reflexivity.
    + rewrite IH. unfold chosen_dir.
      destruct (last (List.filter (usable_admin E fs) dirs)); [reflexivity|].
      destruct found; simpl; [reflexivity|].
      rewrite last_cons_default. reflexivity.
Qed.

End SelectDir.

(** X3.  The directory the rootless loop of [QuadletInstall] ends on.  If
    some directory of the list lies below the admin directory, exists as a
    directory and is writable, the last such directory is chosen.  Otherwise
    the choice is the last directory of the list that is not a missing (or
    non-directory) path below the admin directory, and the admin directory
    itself when there is none. *)
Theorem select_install_dir_chosen (E : Env) (fs : gmap string node) (dirs : list string) :
  abi.select_install_dir E fs dirs (UnitDirAdmin E) false
  = match last (List.filter (More.usable_admin E fs) dirs) with
    | Some dir => dir
    | None =>
        default (UnitDirAdmin E)
          (last (List.filter (fun dir => negb (More.skipped_admin E fs dir)) dirs))
    end.
Proof. rewrite select_install_dir_closed. reflexivity. Qed.

(** ** The deferred removal of temporary files *)

Section Cleanup.
Context (E : Env).
Import GoStrings abi entities More.

Lemma for_range_app {S R A} (body : S -> A -> flow S R) (l1 l2 : list A) (s : S) :
  for_range body (l1 ++ l2) s
  = match for_range body l1 s with
    | Continue s' => for_range body l2 s'
    | Return s' r => Return s' r
    | Panic s' => Panic s'
    end.
Proof.
  revert s. induction l1 as [|x l1 IH]; intros s; simpl; [reflexivity|].
  destruct (body s x); [apply IH | reflexivity | reflexivity].
Qed.

(** A property of the state that every iteration keeps is kept by the
    loop, however it ends. *)
Lemma for_range_invariant {S R A} (P : S -> Prop) (body : S -> A -> flow S R) (l : list A) :
  (forall s x, P s -> P (flow_state (body s x))) ->
  forall s, P s -> P (flow_state (for_range body l s)).
Proof.
  intros Hbody. induction l as [|x l IH]; intros s Hs; simpl; [exact Hs|].
  specialize (Hbody s x Hs). destruct (body s x); simpl in *; auto.
Qed.

Lemma unlinked_absent fault fs path p :
  fs !! p = None -> (os.unlinked fault fs path).1 !! p = None.
Proof.
  intros Hp. unfold os.unlinked. destruct fault; simpl; [exact Hp|].
  destruct (decide (path = p)) as [->|Hne];
    [apply lookup_delete_eq | now rewrite lookup_delete_ne].
Qed.

Lemma unlinked_other fault fs path p :
  p <> path -> (os.unlinked fault fs path).1 !! p = fs !! p.
Proof.
  intros Hne. unfold os.unlinked. destruct fault; simpl; [reflexivity|].
  now rewrite lookup_delete_ne.
Qed.

Lemma Remove_absent fault fs path p :
  fs !! p = None -> (os.Remove fault fs path).1 !! p = None.
Proof.
  intros Hp. unfold os.Remove.
  destruct (fs !! path) as [[| |]|]; simpl; try exact Hp.
  - now apply unlinked_absent.
  - destruct (os.children fs path); simpl; [now apply unlinked_absent | exact Hp].
Qed.

Lemma Remove_other fault fs path p :
  p <> path -> (os.Remove fault fs path).1 !! p = fs !! p.
Proof.
  intros Hne. unfold os.Remove.
  destruct (fs !! path) as [[| |]|]; simpl; try reflexivity.
  - now apply unlinked_other.
  - destruct (os.children fs path); simpl; [now apply unlinked_other | reflexivity].
Qed.

Lemma Remove_file fs path perm data :
  fs !! path = Some (File perm data) -> os.Remove None fs path = (delete path fs, None).
Proof. intros H. unfold os.Remove. now rewrite H. Qed.

Lemma run_deferred_absent tmp : forall fs p,
  fs !! p = None -> run_deferred fs tmp !! p = None.
Proof.
  induction tmp as [|t tmp IH]; intros fs p Hp; simpl; [exact Hp|].
  apply IH. now apply Remove_absent.
Qed.

Lemma run_deferred_other tmp : forall fs p,
  p ∉ tmp -> run_deferred fs tmp !! p = fs !! p.
Proof.
  induction tmp as [|t tmp IH]; intros fs p Hp; simpl; [reflexivity|].
  rewrite IH by (intros Hin; apply Hp; now right).
  apply Remove_other. intros ->. apply Hp. left.
Qed.

Lemma run_deferred_removes tmp : forall fs,
  (forall t, t ∈ tmp -> fs !! t = None \/ exists perm data, fs !! t = Some (File perm data)) ->
  forall t, t ∈ tmp -> run_deferred fs tmp !! t = None.
Proof.
  induction tmp as [|t0 tmp IH]; intros fs Hfiles t Ht; [inversion Ht|]. simpl.
  assert (Hgone : (os.Remove None fs t0).1 !! t0 = None).
  { destruct (Hfiles t0) as [Hn|(perm & data & Hf)]; [left | |].
    - now apply Remove_absent.
    - rewrite (Remove_file _ _ _ _ Hf). apply lookup_delete_eq. }
  apply elem_of_cons in Ht as [->|Ht]; [now apply run_deferred_absent|].
  apply IH; [|exact Ht].
  intros t' Ht'. destruct (decide (t' = t0)) as [->|Hne]; [now left|].
  rewrite Remove_other by exact Hne. apply Hfiles. now right.
Qed.

(** What [installQuadlet] does to the file system: nothing, or one new
    file at a path that was free. *)
Lemma installQuadlet_effect fs path destName installDir :
  (installQuadlet E fs path destName installDir).1 = fs
  \/ exists finalPath mode data,
       fs !! finalPath = None
       /\ (installQuadlet E fs path destName installDir).1
          = <[finalPath := File mode data]> fs.
Proof.
  unfold installQuadlet.
  destruct (os.Stat fs path) as [stat|e]; [|now left].
  destruct (IsDir stat); [now left|].
  set (dest := install_destination path destName installDir).
  destruct (os.Stat fs dest) as [st2|e2] eqn:Hdest; [now left|].
  destruct (negb _); [now left|].
  destruct (os.ReadFile fs path) as [contents|e3]; [|now left].
  unfold os.Stat in Hdest. unfold os.WriteFile.
  destruct (fs !! dest) as [[| |]|] eqn:Hd; try discriminate; [now left|].
  destruct (fs !! filepath.Dir dest) as [[| |]|]; try (now left).
  unfold os.written_file.
  destruct (WriteFile_fault E dest) as [[err|written err]|]; [now left | |].
  - right. exists dest, (Z.land 420 (Z.lnot (umask E))), written. auto.
  - right. exists dest, (Z.land 420 (Z.lnot (umask E))), contents. auto.
Qed.

Lemma installQuadlet_keeps_file fs path destName installDir t perm data :
  fs !! t = Some (File perm data) ->
  (installQuadlet E fs path destName installDir).1 !! t = Some (File perm data).
Proof.
  intros Ht. destruct (installQuadlet_effect fs path destName installDir)
    as [->|(finalPath & mode & d & Hfree & ->)]; [exact Ht|].
  rewrite lookup_insert_ne; [exact Ht|]. intros ->. congruence.
Qed.

Lemma set_QuadletErrors_state st key err :
  i_fs (flow_state (set_QuadletErrors st key err)) = i_fs st
  /\ i_tmp (flow_state (set_QuadletErrors st key err)) = i_tmp st.
Proof. unfold set_QuadletErrors. destruct (GoMap.set _ _ _); simpl; auto. Qed.

Lemma record_install_state st key r :
  i_fs (flow_state (record_install st key r)) = i_fs st
  /\ i_tmp (flow_state (record_install st key r)) = i_tmp st.
Proof.
  destruct r; simpl; [|apply set_QuadletErrors_state].
  unfold set_InstalledQuadlets. destruct (GoMap.set _ _ _); simpl; auto.
Qed.

Lemma cleanup_inv_same tmp0 st st' :
  i_fs st' = i_fs st -> i_tmp st' = i_tmp st -> cleanup_inv tmp0 st -> cleanup_inv tmp0 st'.
Proof.
  intros Hfs Htmp [Hsub Hok]. split.
  - intros t Ht. rewrite Htmp. auto.
  - intros t Ht. rewrite Htmp in Ht. rewrite Hfs. auto.
Qed.

Lemma cleanup_inv_installed tmp0 st path destName installDir :
  cleanup_inv tmp0 st ->
  cleanup_inv tmp0 (i_with_fs st (installQuadlet E (i_fs st) path destName installDir).1).
Proof.
  intros [Hsub Hok]. split; [exact Hsub|].
  intros t Ht. simpl in *. destruct (Hok t Ht) as (perm & data & Hf).
  exists perm, data. now apply installQuadlet_keeps_file.
Qed.

Lemma install_layer_cleanup tmp0 installDir st layer :
  cleanup_inv tmp0 st -> cleanup_inv tmp0 (flow_state (install_layer E installDir st layer)).
Proof.
  intros Hinv. unfold install_layer. destruct layer as [filename pathOnDisk].
  pose proof (cleanup_inv_installed tmp0 st pathOnDisk filename installDir Hinv) as H.
  destruct (installQuadlet E (i_fs st) pathOnDisk filename installDir) as [fs' r]. simpl in H.
  destruct (record_install_state (i_with_fs st fs') pathOnDisk r) as [Hfs Htmp].
  exact (cleanup_inv_same _ _ _ Hfs Htmp H).
Qed.

Lemma install_one_cleanup tmp0 installDir st toInstall :
  cleanup_inv tmp0 st -> cleanup_inv tmp0 (flow_state (install_one E installDir st toInstall)).
Proof.
  intros Hinv. unfold install_one.
  destruct (HasPrefix toInstall "oci-artifact://").
  - destruct (GetLayers E _) as [layers|err]; [|exact Hinv].
    apply (for_range_invariant (cleanup_inv tmp0)); [|exact Hinv].
    intros s x. apply install_layer_cleanup.
  - destruct (_ || _).
    + destruct (CreateTemp E (i_fs st)) as [tmpFile|err].
      * set (st1 := {| i_fs := <[tmpFile := File 384 ""]> (i_fs st);
                       i_report := i_report st; i_tmp := tmpFile :: i_tmp st |}).
        assert (H1 : cleanup_inv tmp0 st1).
        { destruct Hinv as [Hsub Hok]. split.
          - intros t Ht. simpl. right. auto.
          - intros t Ht. simpl in *. destruct (decide (tmpFile = t)) as [->|Hne].
            + rewrite lookup_insert_eq. eauto.
            + rewrite lookup_insert_ne by exact Hne.
              apply elem_of_cons in Ht as [->|Ht]; [contradiction|]. auto. }
        destruct (http_Get E toInstall) as [r|err].
        -- unfold copy_body. destruct (http.BodyErr r) as [err|].
           ++ destruct (set_QuadletErrors_state (i_with_fs st1 (i_fs st1)) toInstall
                          (Errorf_w "populating temporary file: " err)) as [Hfs Htmp].
              exact (cleanup_inv_same _ _ _ Hfs Htmp H1).
           ++ set (st2 := i_with_fs st1 (<[tmpFile := File 384 (http.Body r)]> (i_fs st1))).
              assert (H2 : cleanup_inv tmp0 st2).
              { destruct H1 as [Hsub Hok]. split; [exact Hsub|].
                intros t Ht. simpl in *. destruct (decide (tmpFile = t)) as [->|Hne].
                - rewrite lookup_insert_eq. eauto.
                - rewrite lookup_insert_ne by exact Hne. auto. }
              pose proof (cleanup_inv_installed tmp0 st2 tmpFile "" installDir H2) as H3.
              change (i_fs st2) with (<[tmpFile := File 384 (http.Body r)]> (i_fs st1)) in H3.
              destruct (installQuadlet E _ tmpFile "" installDir) as [fs'' res]. simpl in H3.
              destruct (record_install_state (i_with_fs st1 fs'') toInstall res) as [Hfs Htmp].
              exact (cleanup_inv_same _ _ _ Hfs Htmp H3).
        -- destruct (set_QuadletErrors_state st1 toInstall
                       (Errorf_w ("unable to download URL " +:+ toInstall +:+ ": ") err))
             as [Hfs Htmp].
           exact (cleanup_inv_same _ _ _ Hfs Htmp H1).
      * destruct (set_QuadletErrors_state st toInstall
                    (Errorf_w ("unable to create temporay file to download URL "
                               +:+ toInstall +:+ ": ") err)) as [Hfs Htmp].
        exact (cleanup_inv_same _ _ _ Hfs Htmp Hinv).
    + pose proof (cleanup_inv_installed tmp0 st toInstall "" installDir Hinv) as H.
      destruct (installQuadlet E (i_fs st) toInstall "" installDir) as [fs' res]. simpl in H.
      destruct (record_install_state (i_with_fs st fs') toInstall res) as [Hfs Htmp].
      exact (cleanup_inv_same _ _ _ Hfs Htmp H).
Qed.

(** The first thing the loop body does for a URL is to create the
    temporary file and defer its removal. *)
Lemma install_one_defers installDir st toInstall tmpFile :
  HasPrefix toInstall "oci-artifact://" = false ->
  HasPrefix toInstall "http://" || HasPrefix toInstall "https://" = true ->
  CreateTemp E (i_fs st) = Ok tmpFile ->
  tmp_files_ok st ->
  cleanup_inv [tmpFile] (flow_state (install_one E installDir st toInstall)).
Proof.
  intros Hoci Hurl Htmp Hok.
  set (st1 := {| i_fs := <[tmpFile := File 384 ""]> (i_fs st);
                 i_report := i_report st; i_tmp := tmpFile :: i_tmp st |}).
  assert (H1 : cleanup_inv [tmpFile] st1).
  { split.
    - intros t Ht. apply list_elem_of_singleton in Ht. subst t. simpl. left.
    - intros t Ht. simpl in *. destruct (decide (tmpFile = t)) as [->|Hne].
      + rewrite lookup_insert_eq. eauto.
      + rewrite lookup_insert_ne by exact Hne.
        apply elem_of_cons in Ht as [->|Ht]; [contradiction|]. auto. }
  unfold install_one. rewrite Hoci, Hurl, Htmp. fold st1.
  destruct (http_Get E toInstall) as [r|err].
  - unfold copy_body. destruct (http.BodyErr r) as [err|].
    + destruct (set_QuadletErrors_state (i_with_fs st1 (i_fs st1)) toInstall
                  (Errorf_w "populating temporary file: " err)) as [Hfs Htm].
      exact (cleanup_inv_same _ _ _ Hfs Htm H1).
    + set (st2 := i_with_fs st1 (<[tmpFile := File 384 (http.Body r)]> (i_fs st1))).
      assert (H2 : cleanup_inv [tmpFile] st2).
      { destruct H1 as [Hsub Hok1]. split; [exact Hsub|].
        intros t Ht. simpl in *. destruct (decide (tmpFile = t)) as [->|Hne].
        - rewrite lookup_insert_eq. eauto.
        - rewrite lookup_insert_ne by exact Hne. auto. }
      pose proof (cleanup_inv_installed [tmpFile] st2 tmpFile "" installDir H2) as H3.
      change (i_fs st2) with (<[tmpFile := File 384 (http.Body r)]> (i_fs st1)) in H3.
      destruct (installQuadlet E _ tmpFile "" installDir) as [fs'' res]. simpl in H3.
      destruct (record_install_state (i_with_fs st1 fs'') toInstall res) as [Hfs Htm].
      exact (cleanup_inv_same _ _ _ Hfs Htm H3).
  - destruct (set_QuadletErrors_state st1 toInstall
                (Errorf_w ("unable to download URL " +:+ toInstall +:+ ": ") err))
      as [Hfs Htm].
    exact (cleanup_inv_same _ _ _ Hfs Htm H1).
Qed.

Lemma install_from_fs installReport fs installDir pathsOrURLs options :
  ArtifactStore E = None ->
  outcome_fs (install_from E installReport fs installDir pathsOrURLs options)
  = let st' := flow_state (for_range (install_one E installDir) pathsOrURLs
                             {| i_fs := fs; i_report := installReport; i_tmp := [] |}) in
    run_deferred (i_fs st') (i_tmp st').
Proof.
  intros Has. unfold install_from. rewrite Has.
  destruct (for_range _ _ _); reflexivity.
Qed.

(** *** Files that were there before the call *)

Hypothesis CreateTemp_fresh :
  forall fs tmpFile, CreateTemp E fs = Ok tmpFile -> fs !! tmpFile = None.

Lemma keeps_existing_same fs0 st st' :
  i_fs st' = i_fs st -> i_tmp st' = i_tmp st -> keeps_existing fs0 st -> keeps_existing fs0 st'.
Proof. intros Hfs Htmp H p n Hp. rewrite Hfs, Htmp. now apply H. Qed.

Lemma keeps_existing_installed fs0 st path destName installDir :
  keeps_existing fs0 st ->
  keeps_existing fs0 (i_with_fs st (installQuadlet E (i_fs st) path destName installDir).1).
Proof.
  intros H p n Hp. destruct (H p n Hp) as [Hfs Htmp]. split; [|exact Htmp]. simpl.
  destruct (installQuadlet_effect (i_fs st) path destName installDir)
    as [->|(finalPath & mode & d & Hfree & ->)]; [exact Hfs|].
  rewrite lookup_insert_ne; [exact Hfs|]. intros ->. congruence.
Qed.

Lemma install_layer_keeps_existing fs0 installDir st layer :
  keeps_existing fs0 st -> keeps_existing fs0 (flow_state (install_layer E installDir st layer)).
Proof.
  intros Hinv. unfold install_layer. destruct layer as [filename pathOnDisk].
  pose proof (keeps_existing_installed fs0 st pathOnDisk filename installDir Hinv) as H.
  destruct (installQuadlet E (i_fs st) pathOnDisk filename installDir) as [fs' r]. simpl in H.
  destruct (record_install_state (i_with_fs st fs') pathOnDisk r) as [Hfs Htmp].
  exact (keeps_existing_same _ _ _ Hfs Htmp H).
Qed.

Lemma install_one_keeps_existing fs0 installDir st toInstall :
  keeps_existing fs0 st -> keeps_existing fs0 (flow_state (install_one E installDir st toInstall)).
Proof.
  intros Hinv. unfold install_one.
  destruct (HasPrefix toInstall "oci-artifact://").
  - destruct (GetLayers E _) as [layers|err]; [|exact Hinv].
    apply (for_range_invariant (keeps_existing fs0)); [|exact Hinv].
    intros s x. apply install_layer_keeps_existing.
  - destruct (_ || _).
    + destruct (CreateTemp E (i_fs st)) as [tmpFile|err] eqn:Hct.
      * apply CreateTemp_fresh in Hct.
        set (st1 := {| i_fs := <[tmpFile := File 384 ""]> (i_fs st);
                       i_report := i_report st; i_tmp := tmpFile :: i_tmp st |}).
        assert (Hne : forall p n, fs0 !! p = Some n -> tmpFile <> p).
        { intros p n Hp ->. destruct (Hinv p n Hp) as [Hfs _]. congruence. }
        assert (H1 : keeps_existing fs0 st1).
        { intros p n Hp. destruct (Hinv p n Hp) as [Hfs Htmp]. simpl. split.
          - rewrite lookup_insert_ne by eauto. exact Hfs.
          - intros Hin. apply elem_of_cons in Hin as [->|Hin]; [|contradiction].
            now apply (Hne tmpFile n). }
        destruct (http_Get E toInstall) as [r|err].
        -- unfold copy_body. destruct (http.BodyErr r) as [err|].
           ++ destruct (set_QuadletErrors_state (i_with_fs st1 (i_fs st1)) toInstall
                          (Errorf_w "populating temporary file: " err)) as [Hfs Htmp].
              exact (keeps_existing_same _ _ _ Hfs Htmp H1).
           ++ set (st2 := i_with_fs st1 (<[tmpFile := File 384 (http.Body r)]> (i_fs st1))).
              assert (H2 : keeps_existing fs0 st2).
              { intros p n Hp. destruct (H1 p n Hp) as [Hfs Htmp]. split; [|exact Htmp].
                simpl in *. rewrite lookup_insert_ne by eauto. exact Hfs. }
              pose proof (keeps_existing_installed fs0 st2 tmpFile "" installDir H2) as H3.
              change (i_fs st2) with (<[tmpFile := File 384 (http.Body r)]> (i_fs st1)) in H3.
              destruct (installQuadlet E _ tmpFile "" installDir) as [fs'' res]. simpl in H3.
              destruct (record_install_state (i_with_fs st1 fs'') toInstall res) as [Hfs Htmp].
              exact (keeps_existing_same _ _ _ Hfs Htmp H3).
        -- destruct (set_QuadletErrors_state st1 toInstall
                       (Errorf_w ("unable to download URL " +:+ toInstall +:+ ": ") err))
             as [Hfs Htmp].
           exact (keeps_existing_same _ _ _ Hfs Htmp H1).
      * destruct (set_QuadletErrors_state st toInstall
                    (Errorf_w ("unable to create temporay file to download URL "
                               +:+ toInstall +:+ ": ") err)) as [Hfs Htmp].
        exact (keeps_existing_same _ _ _ Hfs Htmp Hinv).
    + pose proof (keeps_existing_installed fs0 st toInstall "" installDir Hinv) as H.
      destruct (installQuadlet E (i_fs st) toInstall "" installDir) as [fs' res]. simpl in H.
      destruct (record_install_state (i_with_fs st fs') toInstall res) as [Hfs Htmp].
      exact (keeps_existing_same _ _ _ Hfs Htmp H).
Qed.

Lemma mkdirs_keeps paths : forall fs p n,
  fs !! p = Some n -> (os.mkdirs fs paths).1 !! p = Some n.
Proof.
  induction paths as [|q paths IH]; intros fs p n Hp; simpl; [exact Hp|].
  destruct (fs !! q) as [[| |]|] eqn:Hq; simpl; auto.
  apply IH. rewrite lookup_insert_ne; [exact Hp|]. intros ->. congruence.
Qed.

Lemma install_prepare_keeps fs p n :
  fs !! p = Some n -> (install_prepare E fs).1 !! p = Some n.
Proof.
  intros Hp. unfold install_prepare.
  destruct (ConnectToDBUS E); [exact Hp|].
  destruct (os.Stat fs quadletPath); [|exact Hp].
  destruct (_ || _); [exact Hp|].
  destruct (IsRootless E).
  - destruct (os.Stat fs _) as [st|err]; [exact Hp|].
    destruct (IsNotExist err); [|exact Hp].
    pose proof (mkdirs_keeps (os.ancestors (filepath.Clean
      (select_install_dir E fs (GetUnitDirs E true) (UnitDirAdmin E) false))) fs p n Hp) as H.
    unfold os.MkdirAll. destruct (os.mkdirs fs _) as [fs' [e|]]; exact H.
  - destruct (os.Stat fs _) as [st|err]; [|exact Hp].
    destruct (negb _); exact Hp.
Qed.

End Cleanup.

(** X4.  The temporary file of a download does not outlive the call.  If the
    loop of [QuadletInstall] gets to a URL and a temporary file is created
    for it, then however the call ends (all references done, the early
    return for an artifact that cannot be fetched, or a panic) that file is
    gone from the file system the call leaves. *)
Theorem temporary_file_removed (E : Env) (installReport : entities.QuadletInstallReport)
    (fs : gmap string node) (installDir : string) (pre post : list string)
    (toInstall tmpFile : string) (options : entities.QuadletInstallOptions)
    (st : abi.install_state) :
  ArtifactStore E = None ->
  for_range (abi.install_one E installDir) pre
    {| abi.i_fs := fs; abi.i_report := installReport; abi.i_tmp := [] |} = Continue st ->
  GoStrings.HasPrefix toInstall "oci-artifact://" = false ->
  GoStrings.HasPrefix toInstall "http://" || GoStrings.HasPrefix toInstall "https://" = true ->
  CreateTemp E (abi.i_fs st) = Ok tmpFile ->
  More.outcome_fs (abi.install_from E installReport fs installDir
                     (pre ++ toInstall :: post) options) !! tmpFile = None.
Proof.
  intros Has Hpre Hoci Hurl Htmp.
  rewrite install_from_fs by exact Has. cbv zeta.
  rewrite for_range_app, Hpre.
  assert (Hst : More.tmp_files_ok st).
  { pose proof (for_range_invariant (More.cleanup_inv []) (abi.install_one E installDir) pre
                  (fun s x => install_one_cleanup E [] installDir s x)
                  {| abi.i_fs := fs; abi.i_report := installReport; abi.i_tmp := [] |}) as H.
    rewrite Hpre in H. apply H. split; intros t Ht; inversion Ht. }
  pose proof (install_one_defers E installDir st toInstall tmpFile Hoci Hurl Htmp Hst) as H1.
  assert (H2 : More.cleanup_inv [tmpFile]
                 (More.flow_state (for_range (abi.install_one E installDir)
                                     (toInstall :: post) st))).
  { simpl. destruct (abi.install_one E installDir st toInstall) as [s'|s' r|s']; simpl in *;
      [|exact H1|exact H1].
    apply (for_range_invariant (More.cleanup_inv [tmpFile])); [|exact H1].
    intros s x. apply install_one_cleanup. }
  destruct H2 as [Hin Hok].
  apply run_deferred_removes.
  - intros t Ht. right. now apply Hok.
  - apply Hin. now left.
Qed.

Lemma temporary_file_removed_witness :
  let E := Scenario.env [] in
  let st := {| abi.i_fs := Scenario.small_disk; abi.i_report := Scenario.made_InstallReport;
               abi.i_tmp := [] |} in
  (ArtifactStore E = None
   /\ for_range (abi.install_one E Scenario.systemd_dir) [] st = Continue st
   /\ GoStrings.HasPrefix "https://example.com/missing.container" "oci-artifact://" = false
   /\ GoStrings.HasPrefix "https://example.com/missing.container" "http://"
      || GoStrings.HasPrefix "https://example.com/missing.container" "https://" = true
   /\ CreateTemp E (abi.i_fs st) = Ok "/tmp/quadlet-dl1")
  /\ More.outcome_fs (abi.install_from E Scenario.made_InstallReport Scenario.small_disk
                        Scenario.systemd_dir
                        ([] ++ "https://example.com/missing.container" :: [])
                        {| entities.ReloadSystemd := false |}) !! "/tmp/quadlet-dl1" = None.
Proof.
  intros E st. split; [repeat split; reflexivity|].
  apply (temporary_file_removed E Scenario.made_InstallReport Scenario.small_disk
           Scenario.systemd_dir [] [] "https://example.com/missing.container"
           "/tmp/quadlet-dl1" {| entities.ReloadSystemd := false |} st); reflexivity.
Defined.

(** X5.  [QuadletInstall] never overwrites or deletes what was on disk.  On
    a machine where [os.CreateTemp] only gives names that are not taken,
    every path that held a file or directory before the call holds the same
    afterwards, for every batch of references and however the call ends. *)
Theorem QuadletInstall_keeps_existing_files (E : Env) (fs : gmap string node)
    (pathsOrURLs : list string) (options : entities.QuadletInstallOptions)
    (p : string) (n : node) :
  (forall fs0 tmpFile, CreateTemp E fs0 = Ok tmpFile -> fs0 !! tmpFile = None) ->
  fs !! p = Some n ->
  More.outcome_fs (abi.QuadletInstall E fs pathsOrURLs options) !! p = Some n.
Proof.
  intros Hfresh Hp. unfold abi.QuadletInstall.
  pose proof (install_prepare_keeps E fs p n Hp) as Hprep.
  destruct (abi.install_prepare E fs) as [fs1 [installDir|err]]; simpl in Hprep; [|exact Hprep].
  destruct (ArtifactStore E) eqn:Has.
  { unfold abi.install_from. rewrite Has. exact Hprep. }
  rewrite install_from_fs by exact Has. cbv zeta.
  pose proof (for_range_invariant (More.keeps_existing fs1) (abi.install_one E installDir) pathsOrURLs
                (fun s x => install_one_keeps_existing E Hfresh fs1 installDir s x)
                {| abi.i_fs := fs1; abi.i_report := entities.new_QuadletInstallReport;
                   abi.i_tmp := [] |}) as H.
  destruct (H (fun q m Hq => conj Hq (fun Hin => proj1 (elem_of_nil q) Hin)) p n Hprep)
    as [Hfs Htmp].
  rewrite run_deferred_other by exact Htmp. exact Hfs.
Qed.

Lemma QuadletInstall_keeps_existing_files_witness :
  ((forall fs0 tmpFile, CreateTemp Scenario2.rootless_fresh_env fs0 = Ok tmpFile ->
                        fs0 !! tmpFile = None)
   /\ Scenario.disk !! "/src/web.container" = Some (File 420 "[Container] Image=web"))
  /\ More.outcome_fs (abi.QuadletInstall Scenario2.rootless_fresh_env Scenario.disk
                        ["https://example.com/missing.container"; "/src/web.container"]
                        {| entities.ReloadSystemd := false |})
     !! "/src/web.container" = Some (File 420 "[Container] Image=web").
Proof.
  assert (Hfresh : forall fs0 tmpFile,
             CreateTemp Scenario2.rootless_fresh_env fs0 = Ok tmpFile -> fs0 !! tmpFile = None).
  { intros fs0 tmpFile. simpl. destruct (fs0 !! "/tmp/quadlet-dl1") eqn:H; [discriminate|].
    intros Heq. inversion Heq; subst. exact H. }
  split; [split; [exact Hfresh | reflexivity]|].
  apply (QuadletInstall_keeps_existing_files Scenario2.rootless_fresh_env Scenario.disk
           ["https://example.com/missing.container"; "/src/web.container"]
           {| entities.ReloadSystemd := false |}
           "/src/web.container" (File 420 "[Container] Image=web") Hfresh).
  reflexivity.
Defined.

(** ** Removing: what the loops do when nothing goes wrong *)

Section RemoveMore.
Context (E : Env).
Import GoStrings filepath abi entities More.

Lemma for_range_invariant_in {S R A} (P : S -> Prop) (body : S -> A -> flow S R) (l : list A) :
  (forall s x, x ∈ l -> P s -> P (flow_state (body s x))) ->
  forall s, P s -> P (flow_state (for_range body l s)).
Proof.
  induction l as [|x l IH]; intros Hbody s Hs; simpl; [exact Hs|].
  pose proof (Hbody s x ltac:(left) Hs) as Hx.
  destruct (body s x); simpl in *; auto.
  apply IH; [|exact Hx]. intros s' y Hy. apply Hbody. now right.
Qed.

(** A name that is not found, with [Ignore] or [All]: put on [Removed]. *)
Lemma resolve_unresolved_ignored options quadlets : forall st,
  Ignore options || All options = true ->
  (forall q, q ∈ quadlets -> exists err, getQuadletByName E (r_fs st) q = Err err) ->
  for_range (remove_resolve E options) quadlets st
  = Continue (r_with_report st {| Removed := (Removed (r_report st) ++ quadlets)%list;
                                  Errors := Errors (r_report st) |}).
Proof.
  induction quadlets as [|q quadlets IH]; intros st Hopt Hno; simpl.
  - rewrite app_nil_r. destruct st as [? [? ?] ? ? ? ? ?]. reflexivity.
  - unfold remove_resolve at 1. destruct (Hno q) as [err Herr]; [left|].
    rewrite Herr, Hopt.
    rewrite IH; [|exact Hopt|].
    + unfold append_Removed, r_with_report. simpl. now rewrite <- app_assoc.
    + intros q' Hq'. apply Hno. now right.
Qed.

(** Names that are all found and all parse: their paths and service names
    are collected in order, and nothing else changes. *)
Lemma resolve_all_found options quadlets : forall paths names st,
  Forall2 (fun q p => getQuadletByName E (r_fs st) q = Ok p) quadlets paths ->
  Forall2 (fun p sn => getQuadletServiceName E (r_fs st) p = Ok sn) paths names ->
  exists m,
    for_range (remove_resolve E options) quadlets st
    = Continue {| r_fs := r_fs st; r_report := r_report st;
                  r_allQuadletPaths := (r_allQuadletPaths st ++ paths)%list;
                  r_allServiceNames := (r_allServiceNames st ++ names)%list;
                  r_runningQuadlets := r_runningQuadlets st;
                  r_serviceNameToQuadletName := m;
                  r_needReload := r_needReload st |}.
Proof.
  induction quadlets as [|q quadlets IH]; intros paths names st Hres Hparse.
  - inversion Hres; subst. inversion Hparse; subst. simpl.
    exists (r_serviceNameToQuadletName st). rewrite !app_nil_r. destruct st; reflexivity.
  - inversion Hres as [|? p ? paths' Hq Hrest]; subst.
    inversion Hparse as [|? sn ? names' Hp Hprest]; subst.
    simpl. unfold remove_resolve at 1. rewrite Hq. cbn [append_path r_fs]. rewrite Hp.
    destruct (IH paths' names' (append_service (append_path st p) sn q) Hrest Hprest)
      as [m Hm].
    exists m. rewrite Hm. cbn [append_service append_path r_fs r_report r_allQuadletPaths
                              r_allServiceNames r_runningQuadlets r_needReload].
    now rewrite <- !app_assoc.
Qed.

(** Units that are not loaded leave everything as it is. *)
Lemma units_not_loaded options statuses st :
  (forall u, u ∈ statuses -> dbus.LoadState u <> "loaded") ->
  for_range (remove_unit E options) statuses st = Continue st.
Proof.
  induction statuses as [|u statuses IH]; intros Hno; simpl; [reflexivity|].
  unfold remove_unit at 1.
  destruct (String.eqb_spec (dbus.LoadState u) "loaded") as [Heq|Hne].
  - exfalso. apply (Hno u); [left | exact Heq].
  - simpl. apply IH. intros u' Hu'. apply Hno. now right.
Qed.

Lemma delete_all_absent paths : forall fs p,
  fs !! p = None -> delete_all paths fs !! p = None.
Proof.
  induction paths as [|q paths IH]; intros fs p Hp; simpl; [exact Hp|].
  apply IH. destruct (decide (q = p)) as [->|Hne];
    [apply lookup_delete_eq | now rewrite lookup_delete_ne].
Qed.

Lemma delete_all_removes paths : forall fs p, p ∈ paths -> delete_all paths fs !! p = None.
Proof.
  induction paths as [|q paths IH]; intros fs p Hp; [inversion Hp|]. simpl.
  apply elem_of_cons in Hp as [->|Hp]; [|now apply IH].
  apply delete_all_absent. apply lookup_delete_eq.
Qed.

Lemma delete_all_other paths : forall fs p, p ∉ paths -> delete_all paths fs !! p = fs !! p.
Proof.
  induction paths as [|q paths IH]; intros fs p Hp; simpl; [reflexivity|].
  rewrite IH by (intros Hin; apply Hp; now right).
  apply lookup_delete_ne. intros ->. apply Hp. left.
Qed.

(** With nothing running and no unlink refused, the deletion loop deletes
    each path that is a regular file (or already gone) and lists its base
    name. *)
Lemma remove_files_all paths : forall st,
  r_runningQuadlets st = [] ->
  (forall p, p ∈ paths -> Remove_fault E p = None) ->
  (forall p, p ∈ paths -> r_fs st !! p = None
                          \/ exists perm data, r_fs st !! p = Some (File perm data)) ->
  for_range (remove_file E) paths st
  = Continue (r_with_report (r_with_fs st (delete_all paths (r_fs st)))
                {| Removed := (Removed (r_report st) ++ (Base <$> paths))%list;
                   Errors := Errors (r_report st) |}).
Proof.
  induction paths as [|p paths IH]; intros st Hrun Hok Hfiles; simpl.
  - rewrite app_nil_r. destruct st as [? [? ?] ? ? ? ? ?]. reflexivity.
  - unfold remove_file at 1. rewrite Hrun. cbn [Contains existsb].
    rewrite (Hok p) by left.
    assert (Hrest : forall q, q ∈ paths -> Remove_fault E q = None)
      by (intros q Hq; apply Hok; now right).
    assert (Hstep : os.Remove None (r_fs st) p = (delete p (r_fs st), None)
                    \/ (os.Remove None (r_fs st) p
                        = (r_fs st, Some (PathError "remove" p ENOENT))
                        /\ delete p (r_fs st) = r_fs st)).
    { destruct (Hfiles p) as [Hn|(perm & data & Hf)]; [left | |].
      - right. unfold os.Remove. rewrite Hn. split; [reflexivity|]. now apply delete_id.
      - left. unfold os.Remove. now rewrite Hf. }
    assert (Hnext : forall q, q ∈ paths ->
                delete p (r_fs st) !! q = None
                \/ exists perm data, delete p (r_fs st) !! q = Some (File perm data)).
    { intros q Hq. destruct (decide (p = q)) as [->|Hne].
      - left. apply lookup_delete_eq.
      - rewrite lookup_delete_ne by exact Hne. apply Hfiles. now right. }
    destruct Hstep as [->|[-> Hid]]; cbn [Is_ErrNotExist negb].
    + rewrite IH; [|exact Hrun|exact Hrest|exact Hnext].
      unfold append_Removed, r_with_report, r_with_fs. simpl. now rewrite <- app_assoc.
    + rewrite IH; [|exact Hrun|exact Hrest|].
      * unfold append_Removed, r_with_report, r_with_fs. simpl.
        rewrite Hid. now rewrite <- app_assoc.
      * simpl. rewrite <- Hid. exact Hnext.
Qed.

(** *** Paths [QuadletRemove] cannot touch *)

Lemma find_quadlet_found fs name dirs path :
  find_quadlet fs name dirs = Ok path -> exists dir, dir ∈ dirs /\ path = Join dir name.
Proof.
  induction dirs as [|dir dirs IH]; simpl; [discriminate|].
  destruct (os.Stat fs (Join dir name)) as [st|err].
  - intros H. inversion H. exists dir. split; [left | reflexivity].
  - destruct (negb (IsNotExist err)); [discriminate|].
    intros H. destruct (IH H) as (d & Hd & ->). exists d. split; [now right | reflexivity].
Qed.

Lemma getQuadletByName_found fs name path :
  getQuadletByName E fs name = Ok path ->
  exists dir, dir ∈ GetUnitDirs E (IsRootless E) /\ path = Join dir name.
Proof.
  unfold getQuadletByName. destruct (negb _); [discriminate|]. apply find_quadlet_found.
Qed.

Lemma set_Errors_state st key err :
  r_fs (flow_state (set_Errors st key err)) = r_fs st
  /\ r_allQuadletPaths (flow_state (set_Errors st key err)) = r_allQuadletPaths st.
Proof. unfold set_Errors. destruct (GoMap.set _ _ _); simpl; auto. Qed.

Lemma remove_inv_same fs0 targets st st' :
  r_fs st' = r_fs st -> r_allQuadletPaths st' = r_allQuadletPaths st ->
  remove_inv E fs0 targets st -> remove_inv E fs0 targets st'.
Proof.
  intros Hfs Hpaths [Hframe Hcand]. split.
  - intros p Hp. rewrite Hfs. auto.
  - intros p Hp. rewrite Hpaths in Hp. auto.
Qed.

Lemma and_then_state f k :
  (forall st, r_fs (k st) = r_fs st /\ r_allQuadletPaths (k st) = r_allQuadletPaths st) ->
  r_fs (flow_state (and_then f k)) = r_fs (flow_state f)
  /\ r_allQuadletPaths (flow_state (and_then f k)) = r_allQuadletPaths (flow_state f).
Proof. intros Hk. destruct f; simpl; auto. Qed.

Lemma remove_resolve_inv fs0 targets options st quadlet :
  quadlet ∈ targets ->
  remove_inv E fs0 targets st ->
  remove_inv E fs0 targets (flow_state (remove_resolve E options st quadlet)).
Proof.
  intros Hq Hinv. unfold remove_resolve.
  destruct (getQuadletByName E (r_fs st) quadlet) as [quadletPath|err] eqn:Hname.
  - apply getQuadletByName_found in Hname as (dir & Hdir & ->).
    assert (H1 : remove_inv E fs0 targets (append_path st (Join dir quadlet))).
    { destruct Hinv as [Hframe Hcand]. split; [exact Hframe|].
      intros p Hp. simpl in Hp. apply elem_of_app in Hp as [Hp|Hp]; [auto|].
      apply list_elem_of_singleton in Hp. subst p. exists dir, quadlet. auto. }
    destruct (getQuadletServiceName E _ _) as [sn|err].
    + simpl. exact (remove_inv_same _ _ _ _ eq_refl eq_refl H1).
    + destruct (set_Errors_state (append_path st (Join dir quadlet)) quadlet err) as [Hfs Hp].
      exact (remove_inv_same _ _ _ _ Hfs Hp H1).
  - destruct (_ || _).
    + simpl. exact (remove_inv_same _ _ _ _ eq_refl eq_refl Hinv).
    + destruct (set_Errors_state st quadlet err) as [Hfs Hp].
      exact (remove_inv_same _ _ _ _ Hfs Hp Hinv).
Qed.

Lemma remove_unit_inv fs0 targets options st unitStatus :
  remove_inv E fs0 targets st ->
  remove_inv E fs0 targets (flow_state (remove_unit E options st unitStatus)).
Proof.
  intros Hinv. unfold remove_unit.
  set (name := default "" (r_serviceNameToQuadletName st !! dbus.Name unitStatus)).
  assert (Herr : forall err,
             remove_inv E fs0 targets
               (flow_state (and_then (set_Errors (set_needReload st) name err)
                              (fun st0 => append_running st0 name)))).
  { intros err.
    destruct (and_then_state (set_Errors (set_needReload st) name err)
                (fun st0 => append_running st0 name) (fun _ => conj eq_refl eq_refl))
      as [Hfs Hp].
    destruct (set_Errors_state (set_needReload st) name err) as [Hfs' Hp'].
    apply (remove_inv_same fs0 targets st); [now rewrite Hfs, Hfs' | now rewrite Hp, Hp' | exact Hinv]. }
  destruct (negb _); [exact Hinv|].
  destruct (String.eqb _ "active"); [|exact (remove_inv_same _ _ _ _ eq_refl eq_refl Hinv)].
  destruct (negb (Force options)); [apply Herr|].
  destruct (StopUnit E _) as [res|err]; [|apply Herr].
  destruct (_ && _); [apply Herr|].
  exact (remove_inv_same _ _ _ _ eq_refl eq_refl Hinv).
Qed.

Lemma remove_file_inv fs0 targets st path :
  candidate E targets path ->
  remove_inv E fs0 targets st ->
  remove_inv E fs0 targets (flow_state (remove_file E st path)).
Proof.
  intros Hc Hinv. unfold remove_file.
  destruct (Contains _ _); [exact Hinv|].
  assert (H1 : remove_inv E fs0 targets
                 (r_with_fs st (os.Remove (Remove_fault E path) (r_fs st) path).1)).
  { destruct Hinv as [Hframe Hcand]. split; [|exact Hcand].
    intros p Hp. simpl. rewrite Remove_other; [auto|]. intros ->. contradiction. }
  destruct (os.Remove _ (r_fs st) path) as [fs' [err|]]; simpl in H1.
  - destruct (negb _).
    + destruct (set_Errors_state (r_with_fs st fs') (Base path)
                  (Errorf_w ("removing quadlet " +:+ Base path +:+ ": ") err)) as [Hfs Hp].
      exact (remove_inv_same _ _ _ _ Hfs Hp H1).
    + simpl. exact (remove_inv_same _ _ _ _ eq_refl eq_refl H1).
  - simpl. exact (remove_inv_same _ _ _ _ eq_refl eq_refl H1).
Qed.

Lemma remove_loops_inv fs0 targets options st :
  remove_inv E fs0 targets st ->
  remove_inv E fs0 targets (flow_state (remove_loops E options targets st)).
Proof.
  intros Hinv. unfold remove_loops.
  pose proof (for_range_invariant_in (remove_inv E fs0 targets) (remove_resolve E options)
                targets (fun s x Hx => remove_resolve_inv fs0 targets options s x Hx) st Hinv)
    as H1.
  destruct (for_range (remove_resolve E options) targets st) as [st1|st1 r|st1];
    simpl in H1; [|exact H1|exact H1].
  assert (H2 : remove_inv E fs0 targets
                 (flow_state
                    (if negb (Nat.eqb (length (r_allServiceNames st1)) 0)
                     then match ListUnitsByNames E (r_allServiceNames st1) with
                          | Ok statuses => for_range (remove_unit E options) statuses st1
                          | Err err =>
                              Return st1 (None, Some (Errorf_w
                                "querying systemd for unit status: " err))
                          end
                     else Continue st1))).
  { destruct (negb _); [|exact H1].
    destruct (ListUnitsByNames E _) as [statuses|err]; [|exact H1].
    apply (for_range_invariant (remove_inv E fs0 targets)); [|exact H1].
    intros s x. apply remove_unit_inv. }
  destruct (if negb (Nat.eqb (length (r_allServiceNames st1)) 0) then _ else _)
    as [st2|st2 r|st2]; simpl in H2; [|exact H2|exact H2].
  assert (H3 : remove_inv E fs0 targets
                 (flow_state
                    (if negb (Nat.eqb (length (r_allQuadletPaths st2)) 0)
                     then for_range (remove_file E) (r_allQuadletPaths st2) st2
                     else Continue st2))).
  { destruct (negb _); [|exact H2].
    apply (for_range_invariant_in (remove_inv E fs0 targets)); [|exact H2].
    intros s x Hx. apply remove_file_inv. destruct H2 as [_ Hcand]. now apply Hcand. }
  destruct (if negb (Nat.eqb (length (r_allQuadletPaths st2)) 0) then _ else _)
    as [st3|st3 r|st3]; simpl in H3; [|exact H3|exact H3].
  destruct (r_needReload st3); [destruct (Reload E)|]; exact H3.
Qed.

(** A loaded unit that needs no stop, or whose stop succeeds: only the
    reload is noted. *)
Lemma remove_unit_stopped options st unitStatus :
  dbus.LoadState unitStatus = "loaded" ->
  (dbus.ActiveState unitStatus <> "active"
   \/ (Force options = true
       /\ (StopUnit E (dbus.Name unitStatus) = Ok "done"
           \/ StopUnit E (dbus.Name unitStatus) = Ok "skipped"))) ->
  remove_unit E options st unitStatus = Continue (set_needReload st).
Proof.
  intros Hload Hstop. unfold remove_unit. rewrite Hload, String.eqb_refl. cbn [negb].
  destruct (String.eqb_spec (dbus.ActiveState unitStatus) "active") as [Hact|Hact];
    [|reflexivity].
  destruct Hstop as [Hna|[Hforce Hres]]; [contradiction|].
  rewrite Hforce. cbn [negb]. destruct Hres as [-> | ->]; reflexivity.
Qed.

End RemoveMore.

(** X6.  With [Ignore] set, names that match no quadlet in any unit
    directory are not an error: the call returns without error, lists every
    such name as removed in the order given, leaves the file system as it
    was, and asks systemd for neither statuses nor a reload. *)
Theorem QuadletRemove_ignores_missing (E : Env) (fs : gmap string node)
    (quadlets : list string) (force : bool) :
  quadlets <> [] ->
  ConnectToDBUS E = None ->
  (forall q, q ∈ quadlets -> exists err, abi.getQuadletByName E fs q = Err err) ->
  abi.QuadletRemove E fs quadlets
    {| entities.Force := force; entities.All := false; entities.Ignore := true |}
  = Returned fs (Some {| entities.Removed := quadlets; entities.Errors := GoMap.nil |}, None).
Proof.
  intros Hne Hconn Hno. unfold abi.QuadletRemove, abi.remove_from.
  cbn [entities.All negb]. rewrite andb_true_r.
  destruct quadlets as [|q quadlets]; [contradiction|]. cbn [length Nat.eqb].
  rewrite Hconn. cbv zeta. unfold abi.remove_loops.
  rewrite resolve_unresolved_ignored; [reflexivity | reflexivity | exact Hno].
Qed.

Lemma QuadletRemove_ignores_missing_witness :
  (["ghost.container"; "none.volume"] <> []
   /\ ConnectToDBUS (Scenario.env []) = None
   /\ (forall q, q ∈ ["ghost.container"; "none.volume"] ->
         exists err, abi.getQuadletByName (Scenario.env []) Scenario.small_disk q = Err err))
  /\ abi.QuadletRemove (Scenario.env []) Scenario.small_disk ["ghost.container"; "none.volume"]
       {| entities.Force := false; entities.All := false; entities.Ignore := true |}
     = Returned Scenario.small_disk
         (Some {| entities.Removed := ["ghost.container"; "none.volume"];
                  entities.Errors := GoMap.nil |}, None).
Proof.
  assert (Hno : forall q, q ∈ ["ghost.container"; "none.volume"] ->
            exists err, abi.getQuadletByName (Scenario.env []) Scenario.small_disk q = Err err).
  { intros q Hq. apply elem_of_cons in Hq as [->|Hq]; [eexists; vm_compute; reflexivity|].
    apply list_elem_of_singleton in Hq. subst q. eexists. vm_compute. reflexivity. }
  split; [split; [discriminate | split; [reflexivity | exact Hno]]|].
  apply (QuadletRemove_ignores_missing (Scenario.env []) Scenario.small_disk
           ["ghost.container"; "none.volume"] false); [discriminate | reflexivity | exact Hno].
Defined.

(** X7.  Removing quadlets whose units are not loaded.  If every name given
    is found in a unit directory as a regular file that parses, the machine
    refuses the unlink of none of these files, and systemd reports none of
    the units as loaded, then the call returns without error; the file
    system it leaves is the one it was given with exactly those files
    deleted (every other path holds what it held); and the report lists the
    base names of the files, in the order given, with no error recorded. *)
Theorem QuadletRemove_deletes_unloaded (E : Env) (fs : gmap string node)
    (quadlets paths names : list string) (statuses : list dbus.UnitStatus)
    (options : entities.QuadletRemoveOptions) :
  entities.All options = false ->
  quadlets <> [] ->
  ConnectToDBUS E = None ->
  Forall2 (fun q p => abi.getQuadletByName E fs q = Ok p) quadlets paths ->
  Forall2 (fun p sn => abi.getQuadletServiceName E fs p = Ok sn) paths names ->
  (forall p, p ∈ paths -> exists perm data, fs !! p = Some (File perm data)) ->
  (forall p, p ∈ paths -> Remove_fault E p = None) ->
  ListUnitsByNames E names = Ok statuses ->
  (forall u, u ∈ statuses -> dbus.LoadState u <> "loaded") ->
  abi.QuadletRemove E fs quadlets options
  = Returned (More.delete_all paths fs)
      (Some {| entities.Removed := filepath.Base <$> paths; entities.Errors := GoMap.nil |},
       None)
  /\ (forall p, p ∈ paths -> More.delete_all paths fs !! p = None)
  /\ (forall p, p ∉ paths -> More.delete_all paths fs !! p = fs !! p).
Proof.
  intros Hall Hne Hconn Hres Hparse Hfiles Hok Hunits Hnot.
  split; [|split; [apply delete_all_removes | apply delete_all_other]].
  unfold abi.QuadletRemove, abi.remove_from. rewrite Hall.
  destruct quadlets as [|q quadlets]; [contradiction|]. cbn [length Nat.eqb andb].
  rewrite Hconn. cbv zeta. unfold abi.remove_loops.
  match goal with |- context [for_range _ _ ?st0] =>
    destruct (resolve_all_found E options (q :: quadlets) paths names st0 Hres Hparse)
      as [m Hm]
  end.
  rewrite Hm. cbn [abi.r_allServiceNames abi.r_allQuadletPaths app].
  inversion Hres as [|? p ? paths' Hq Hrest]; subst.
  inversion Hparse as [|? sn ? names' Hp Hprest]; subst.
  cbn [length Nat.eqb negb]. rewrite Hunits.
  rewrite units_not_loaded by exact Hnot.
  rewrite remove_files_all; [reflexivity | reflexivity | exact Hok |].
  intros p' Hp'. right. now apply Hfiles.
Qed.

Lemma QuadletRemove_deletes_unloaded_witness :
  let E := Scenario.env [] in
  let paths := ["/etc/containers/systemd/b.container"] in
  let statuses := [Scenario.not_found "b.service"] in
  (entities.All Scenario.no_options = false
   /\ ["b.container"] <> []
   /\ ConnectToDBUS E = None
   /\ Forall2 (fun q p => abi.getQuadletByName E Scenario.small_disk q = Ok p)
        ["b.container"] paths
   /\ Forall2 (fun p sn => abi.getQuadletServiceName E Scenario.small_disk p = Ok sn)
        paths ["b.service"]
   /\ (forall p, p ∈ paths -> exists perm data, Scenario.small_disk !! p = Some (File perm data))
   /\ (forall p, p ∈ paths -> Remove_fault E p = None)
   /\ ListUnitsByNames E ["b.service"] = Ok statuses
   /\ (forall u, u ∈ statuses -> dbus.LoadState u <> "loaded"))
  /\ (abi.QuadletRemove E Scenario.small_disk ["b.container"] Scenario.no_options
      = Returned (More.delete_all paths Scenario.small_disk)
          (Some {| entities.Removed := filepath.Base <$> paths;
                   entities.Errors := GoMap.nil |}, None)
      /\ (forall p, p ∈ paths -> More.delete_all paths Scenario.small_disk !! p = None)
      /\ (forall p, p ∉ paths ->
            More.delete_all paths Scenario.small_disk !! p = Scenario.small_disk !! p)).
Proof.
  intros E paths statuses.
  assert (H1 : Forall2 (fun q p => abi.getQuadletByName E Scenario.small_disk q = Ok p)
                 ["b.container"] paths)
    by (repeat constructor; vm_compute; reflexivity).
  assert (H2 : Forall2 (fun p sn => abi.getQuadletServiceName E Scenario.small_disk p = Ok sn)
                 paths ["b.service"])
    by (repeat constructor; vm_compute; reflexivity).
  assert (H3 : forall p, p ∈ paths ->
                 exists perm data, Scenario.small_disk !! p = Some (File perm data)).
  { intros p Hp. apply list_elem_of_singleton in Hp. subst p.
    do 2 eexists. vm_compute. reflexivity. }
  assert (H4 : forall u, u ∈ statuses -> dbus.LoadState u <> "loaded").
  { intros u Hu. apply list_elem_of_singleton in Hu. subst u. discriminate. }
  split.
  - repeat split; try reflexivity; try assumption. discriminate.
  - apply (QuadletRemove_deletes_unloaded E Scenario.small_disk ["b.container"] paths
             ["b.service"] statuses Scenario.no_options);
      try reflexivity; try assumption. discriminate.
Defined.

(** X8.  [QuadletRemove] touches nothing but the quadlets it was asked
    about.  A path that is not a unit directory joined with one of the
    targets (the names given or, with [All], the entries of the
    enumeration) holds after the call exactly what it held before, for all
    options, whatever systemd answers and however the call ends. *)
Theorem QuadletRemove_touches_only_targets (E : Env) (fs : gmap string node)
    (quadlets : list string) (options : entities.QuadletRemoveOptions) (p : string) :
  (forall dir q, dir ∈ GetUnitDirs E (IsRootless E) ->
                 q ∈ More.remove_targets E fs quadlets options ->
                 p <> filepath.Join dir q) ->
  More.outcome_fs (abi.QuadletRemove E fs quadlets options) !! p = fs !! p.
Proof.
  intros Hp. unfold abi.QuadletRemove, abi.remove_from.
  destruct (_ && _); [reflexivity|].
  destruct (ConnectToDBUS E); [reflexivity|]. cbv zeta.
  set (targets := More.remove_targets E fs quadlets options) in *.
  assert (Hnc : ~ More.candidate E targets p).
  { intros (dir & q & Hdir & Hq & Heq). exact (Hp dir q Hdir Hq Heq). }
  assert (Hloops : forall st,
             abi.r_fs st = fs -> abi.r_allQuadletPaths st = [] ->
             More.outcome_fs
               match abi.remove_loops E options targets st with
               | Continue st' => Returned (abi.r_fs st') (Some (abi.r_report st'), None)
               | Return st' r => Returned (abi.r_fs st') r
               | Panic st' => Panicked (abi.r_fs st')
               end !! p = fs !! p).
  { intros st Hfs Hpaths.
    assert (Hinv : More.remove_inv E fs targets st).
    { split; [intros; now rewrite Hfs | intros q Hq; rewrite Hpaths in Hq; inversion Hq]. }
    apply (remove_loops_inv E fs targets options st) in Hinv. destruct Hinv as [Hframe _].
    specialize (Hframe p Hnc).
    destruct (abi.remove_loops E options targets st); exact Hframe. }
  unfold targets, More.remove_targets in *.
  destruct (entities.All options).
  - destruct (abi.getAllQuadletPaths E fs) as [allQuadlets|err]; [|reflexivity].
    now apply Hloops.
  - now apply Hloops.
Qed.

Lemma QuadletRemove_touches_only_targets_witness :
  (forall dir q, dir ∈ GetUnitDirs (Scenario.env []) (IsRootless (Scenario.env [])) ->
                 q ∈ More.remove_targets (Scenario.env []) Scenario.small_disk ["b.container"]
                       Scenario.no_options ->
                 "/etc/containers/systemd/a.container" <> filepath.Join dir q)
  /\ More.outcome_fs (abi.QuadletRemove (Scenario.env []) Scenario.small_disk ["b.container"]
                        Scenario.no_options) !! "/etc/containers/systemd/a.container"
     = Scenario.small_disk !! "/etc/containers/systemd/a.container".
Proof.
  assert (H : forall dir q,
             dir ∈ GetUnitDirs (Scenario.env []) (IsRootless (Scenario.env [])) ->
             q ∈ More.remove_targets (Scenario.env []) Scenario.small_disk ["b.container"]
                   Scenario.no_options ->
             "/etc/containers/systemd/a.container" <> filepath.Join dir q).
  { intros dir q Hdir Hq. simpl in Hdir, Hq.
    apply list_elem_of_singleton in Hq. subst q.
    apply elem_of_cons in Hdir as [->|Hdir]; [discriminate|].
    apply list_elem_of_singleton in Hdir. subst dir. discriminate. }
  split; [exact H|].
  exact (QuadletRemove_touches_only_targets (Scenario.env []) Scenario.small_disk
           ["b.container"] Scenario.no_options "/etc/containers/systemd/a.container" H).
Defined.

(** X9.  Removing a quadlet whose unit is loaded.  For one name that is
    found as a regular file and parses, and whose unlink the machine does
    not refuse, when systemd answers with one unit that is loaded and
    either is not active, or is active while [Force] is set and the stop job
    ends with [done] or [skipped]: the file is deleted and listed as
    removed, and systemd is asked to reload.  If the reload fails its error
    is returned together with the report; the file is deleted all the
    same. *)
Theorem QuadletRemove_loaded_unit (E : Env) (fs : gmap string node)
    (quadlet quadletPath serviceName : string) (unitStatus : dbus.UnitStatus)
    (options : entities.QuadletRemoveOptions) (perm : Z) (data : string) :
  entities.All options = false ->
  ConnectToDBUS E = None ->
  abi.getQuadletByName E fs quadlet = Ok quadletPath ->
  abi.getQuadletServiceName E fs quadletPath = Ok serviceName ->
  fs !! quadletPath = Some (File perm data) ->
  Remove_fault E quadletPath = None ->
  ListUnitsByNames E [serviceName] = Ok [unitStatus] ->
  dbus.LoadState unitStatus = "loaded" ->
  (dbus.ActiveState unitStatus <> "active"
   \/ (entities.Force options = true
       /\ (StopUnit E (dbus.Name unitStatus) = Ok "done"
           \/ StopUnit E (dbus.Name unitStatus) = Ok "skipped"))) ->
  abi.QuadletRemove E fs [quadlet] options
  = Returned (delete quadletPath fs)
      (Some {| entities.Removed := [filepath.Base quadletPath];
               entities.Errors := GoMap.nil |},
       match Reload E with
       | Some err => Some (Errorf_w "reloading systemd: " err)
       | None => None
       end).
Proof.
  intros Hall Hconn Hname Hparse Hfile Hok Hunits Hload Hstop.
  unfold abi.QuadletRemove, abi.remove_from. rewrite Hall.
  cbn [length Nat.eqb andb]. rewrite Hconn. cbv zeta.
  unfold abi.remove_loops. cbn [for_range]. unfold abi.remove_resolve at 1.
  cbn [abi.r_fs abi.append_path]. rewrite Hname. cbn [abi.r_fs abi.append_path]. rewrite Hparse.
  cbn [abi.append_service abi.append_path abi.r_allServiceNames app length Nat.eqb negb].
  rewrite Hunits. cbn [for_range].
  rewrite (remove_unit_stopped E options _ unitStatus Hload Hstop).
  cbn [abi.set_needReload abi.append_service abi.append_path abi.r_allQuadletPaths
       abi.r_fs abi.r_report abi.r_runningQuadlets abi.r_needReload app length Nat.eqb negb
       for_range].
  unfold abi.remove_file.
  cbn [abi.set_needReload abi.append_service abi.append_path abi.r_allQuadletPaths
       abi.r_fs abi.r_report abi.r_runningQuadlets abi.r_needReload abi.Contains existsb].
  rewrite Hok, (Remove_file _ _ _ _ Hfile).
  cbn [abi.append_Removed abi.r_with_fs abi.r_with_report abi.r_needReload abi.r_report
       abi.r_fs entities.Removed entities.Errors entities.new_QuadletRemoveReport app].
  destruct (Reload E); reflexivity.
Qed.

Lemma QuadletRemove_loaded_unit_witness :
  let E := Scenario.env [Scenario.running "a.service"] in
  let options := {| entities.Force := true; entities.All := false; entities.Ignore := false |} in
  (entities.All options = false
   /\ ConnectToDBUS E = None
   /\ abi.getQuadletByName E Scenario.small_disk "a.container"
      = Ok "/etc/containers/systemd/a.container"
   /\ abi.getQuadletServiceName E Scenario.small_disk "/etc/containers/systemd/a.container"
      = Ok "a.service"
   /\ Scenario.small_disk !! "/etc/containers/systemd/a.container"
      = Some (File 420 "[Container]")
   /\ Remove_fault E "/etc/containers/systemd/a.container" = None
   /\ ListUnitsByNames E ["a.service"] = Ok [Scenario.running "a.service"]
   /\ dbus.LoadState (Scenario.running "a.service") = "loaded"
   /\ (dbus.ActiveState (Scenario.running "a.service") <> "active"
       \/ (entities.Force options = true
           /\ (StopUnit E (dbus.Name (Scenario.running "a.service")) = Ok "done"
               \/ StopUnit E (dbus.Name (Scenario.running "a.service")) = Ok "skipped"))))
  /\ abi.QuadletRemove E Scenario.small_disk ["a.container"] options
     = Returned (delete "/etc/containers/systemd/a.container" Scenario.small_disk)
         (Some {| entities.Removed := [filepath.Base "/etc/containers/systemd/a.container"];
                  entities.Errors := GoMap.nil |},
          match Reload E with
          | Some err => Some (Errorf_w "reloading systemd: " err)
          | None => None
          end).
Proof.
  intros E options.
  assert (Hstop : dbus.ActiveState (Scenario.running "a.service") <> "active"
                  \/ (entities.Force options = true
                      /\ (StopUnit E (dbus.Name (Scenario.running "a.service")) = Ok "done"
                          \/ StopUnit E (dbus.Name (Scenario.running "a.service"))
                             = Ok "skipped")))
    by (right; split; [reflexivity | left; reflexivity]).
  split.
  - repeat split; try (vm_compute; reflexivity). exact Hstop.
  - apply (QuadletRemove_loaded_unit E Scenario.small_disk "a.container"
             "/etc/containers/systemd/a.container" "a.service" (Scenario.running "a.service")
             options 420%Z "[Container]"); try (vm_compute; reflexivity). exact Hstop.
Defined.

(** ** Listing: filters, files that do not parse, the number of entries *)

Section ListMore.
Context (E : Env) (fs : gmap string node).
Import GoStrings abi entities Notions.

Lemma Cut_eq_found s : forall before after,
  Cut_eq s = (before, after, true) -> s = before +:+ "=" +:+ after.
Proof.
  induction s as [|c s IH]; intros before after H; simpl in H; [discriminate|].
  destruct (Ascii.eqb_spec c "="%char) as [->|Hne].
  - inversion H; subst. reflexivity.
  - destruct (Cut_eq s) as [[b a] found]. destruct found; [|discriminate].
    inversion H; subst.
    change (String c b +:+ "=" +:+ after) with (String c (b +:+ "=" +:+ after)).
    f_equal. now apply IH.
Qed.

Lemma build_filterMap_keys filters : forall filterMap0 filterMap,
  build_filterMap filters filterMap0 = Ok filterMap ->
  (forall k, is_Some (filterMap0 !! k) -> is_Some (filterMap !! k))
  /\ (forall f, f ∈ filters ->
        exists fname filter, Cut_eq f = (fname, filter, true) /\ is_Some (filterMap !! fname)).
Proof.
  induction filters as [|f filters IH]; intros m0 m H; simpl in H.
  - inversion H; subst. split; [auto|]. intros f Hf. inversion Hf.
  - destruct (Cut_eq f) as [[fname filter] hasFilter] eqn:Hcut.
    destruct hasFilter; simpl in H; [|discriminate].
    destruct (IH _ _ H) as [Hmono Hall]. split.
    + intros k Hk. apply Hmono. destruct (decide (fname = k)) as [->|Hne].
      * rewrite lookup_insert_eq. eauto.
      * now rewrite lookup_insert_ne.
    + intros g Hg. apply elem_of_cons in Hg as [->|Hg]; [|now apply Hall].
      exists fname, filter. split; [exact Hcut|].
      apply Hmono. rewrite lookup_insert_eq. eauto.
Qed.

Lemma build_filterFuncs_names entries : forall filterFuncs,
  build_filterFuncs E entries = Ok filterFuncs ->
  forall fname filter, (fname, filter) ∈ entries -> fname = "name".
Proof.
  induction entries as [|[k v] entries IH]; intros funcs H fname filter Hin;
    [inversion Hin|].
  simpl in H. unfold generateQuadletFilter in H.
  destruct (String.eqb_spec k "name") as [->|Hne]; [|discriminate].
  destruct (build_filterFuncs E entries) as [rest|]; [|discriminate].
  apply elem_of_cons in Hin as [Heq|Hin]; [inversion Heq; reflexivity|].
  exact (IH rest eq_refl fname filter Hin).
Qed.

Lemma paths_loop_failed_listed paths : forall st path err,
  path ∈ paths -> getQuadletServiceName E fs path = Err err ->
  entry path (Error err) ∈ l_reports (fold_left (list_path E fs) paths st).
Proof.
  assert (Hgrow : forall paths st e,
             e ∈ l_reports st -> e ∈ l_reports (fold_left (list_path E fs) paths st)).
  { induction paths0 as [|p paths0 IH]; intros st e He; simpl; [exact He|].
    apply IH. unfold list_path. destruct (getQuadletServiceName E fs p); simpl; [exact He|].
    apply elem_of_app. now left. }
  induction paths as [|p paths IH]; intros st path err Hin Hparse; [inversion Hin|].
  simpl. apply elem_of_cons in Hin as [->|Hin]; [|now apply IH].
  apply Hgrow. rewrite (list_path_failed E fs _ _ _ Hparse). simpl.
  apply elem_of_app. right. now apply list_elem_of_singleton.
Qed.

(** *** Every file is listed once *)

Lemma queried_names_cons path paths :
  queried_names E fs (path :: paths)
  = match getQuadletServiceName E fs path with
    | Ok serviceName => serviceName :: queried_names E fs paths
    | Err _ => queried_names E fs paths
    end.
Proof. unfold queried_names. simpl. destruct (getQuadletServiceName E fs path); reflexivity. Qed.

Lemma perm_mid {A} (l1 l2 rest : list A) (x : A) :
  ((l1 ++ x :: l2) ++ rest ≡ₚ (l1 ++ l2) ++ x :: rest)%list.
Proof.
  rewrite <- !app_assoc. simpl. rewrite <- !Permutation_middle. reflexivity.
Qed.

Lemma perm_snoc {A} (l1 l2 rest : list A) (x : A) :
  (((l1 ++ [x]) ++ l2) ++ rest ≡ₚ (l1 ++ l2) ++ x :: rest)%list.
Proof.
  rewrite <- !app_assoc. simpl. rewrite <- !Permutation_middle. reflexivity.
Qed.

Lemma paths_loop_perm paths : forall st,
  NoDup (queried_names E fs paths) ->
  (forall sn, sn ∈ queried_names E fs paths -> l_partialReports st !! sn = None) ->
  More.listed_paths (fold_left (list_path E fs) paths st) ≡ₚ (More.listed_paths st ++ paths)%list.
Proof.
  induction paths as [|p paths IH]; intros st Hnd Hfree; simpl.
  - now rewrite app_nil_r.
  - rewrite queried_names_cons in Hnd, Hfree.
    destruct (getQuadletServiceName E fs p) as [sn|err] eqn:Hparse.
    + apply NoDup_cons in Hnd as [Hnotin Hnd].
      rewrite (list_path_parsed E fs _ _ _ Hparse).
      rewrite IH; [|exact Hnd|].
      * unfold More.listed_paths. simpl.
        rewrite map_to_list_insert by (apply Hfree; left). simpl.
        apply perm_mid.
      * intros sn' Hsn'. simpl. rewrite lookup_insert_ne; [apply Hfree; now right|].
        intros ->. contradiction.
    + rewrite (list_path_failed E fs _ _ _ Hparse).
      rewrite IH; [|exact Hnd|exact Hfree].
      unfold More.listed_paths. simpl. rewrite fmap_app. simpl.
      apply perm_snoc.
Qed.

Lemma paths_loop_has_key paths : forall st sn,
  sn ∈ queried_names E fs paths \/ is_Some (l_partialReports st !! sn) ->
  is_Some (l_partialReports (fold_left (list_path E fs) paths st) !! sn).
Proof.
  induction paths as [|p paths IH]; intros st sn H; simpl.
  - destruct H as [H|H]; [inversion H | exact H].
  - apply IH. rewrite queried_names_cons in H.
    destruct (getQuadletServiceName E fs p) as [sn'|err] eqn:Hparse.
    + rewrite (list_path_parsed E fs _ _ _ Hparse). simpl.
      destruct (decide (sn' = sn)) as [->|Hne].
      * right. rewrite lookup_insert_eq. eauto.
      * rewrite lookup_insert_ne by exact Hne.
        destruct H as [H|H]; [|now right].
        apply elem_of_cons in H as [->|H]; [contradiction | now left].
    + rewrite (list_path_failed E fs _ _ _ Hparse). simpl. exact H.
Qed.

Lemma units_loop_perm statuses : forall st,
  NoDup (dbus.Name <$> statuses) ->
  (forall u, u ∈ statuses -> is_Some (l_partialReports st !! dbus.Name u)) ->
  More.listed_paths (fold_left list_unit statuses st) ≡ₚ More.listed_paths st.
Proof.
  induction statuses as [|u statuses IH]; intros st Hnd Hkeys; simpl; [reflexivity|].
  rewrite fmap_cons in Hnd. apply NoDup_cons in Hnd as [Hnotin Hnd].
  destruct (Hkeys u) as [r Hr]; [left|].
  rewrite IH; [|exact Hnd|].
  - unfold More.listed_paths. rewrite list_unit_reports, list_unit_partial, Hr. simpl.
    rewrite fmap_app. simpl. rewrite <- (map_to_list_delete _ _ _ Hr). simpl.
    rewrite <- !app_assoc. reflexivity.
  - intros u' Hu'. rewrite list_unit_partial.
    rewrite lookup_delete_ne; [apply Hkeys; now right|].
    intros Heq. apply Hnotin. rewrite Heq. now apply list_elem_of_fmap_2.
Qed.

Lemma leftover_paths partialReports :
  Path <$> list_leftover partialReports
  = (fun kv : string * ListQuadlet => Path kv.2) <$> map_to_list partialReports.
Proof.
  unfold list_leftover. induction (map_to_list partialReports) as [|[k r] l IH];
    [reflexivity|].
  simpl. f_equal. exact IH.
Qed.

End ListMore.

(** X10.  The filters [QuadletList] accepts.  Whenever the call returns a
    list, every filter given has the form [name=<pattern>]: a filter without
    [=] or with any other name before it makes the call fail. *)
Theorem QuadletList_accepts_name_filters (E : Env) (fs : gmap string node)
    (options : entities.QuadletListOptions) (out : list entities.ListQuadlet) :
  abi.QuadletList E fs options = Ok out ->
  forall f, f ∈ entities.Filters options -> exists pattern, f = "name=" +:+ pattern.
Proof.
  unfold abi.QuadletList. intros H f Hf.
  destruct (dbus_NewWithContext E); [discriminate|].
  destruct (abi.getAllQuadletPaths E fs); [|discriminate].
  destruct (abi.build_filterMap _ _) as [filterMap|] eqn:Hmap; [|discriminate].
  destruct (abi.build_filterFuncs E _) as [filterFuncs|] eqn:Hfuncs; [|discriminate].
  destruct (build_filterMap_keys _ _ _ Hmap) as [_ Hkeys].
  destruct (Hkeys f Hf) as (fname & filter & Hcut & [v Hv]).
  apply Cut_eq_found in Hcut.
  assert (fname = "name") as ->.
  { apply (build_filterFuncs_names E _ _ Hfuncs fname v). now apply elem_of_map_to_list. }
  exists filter. exact Hcut.
Qed.

Lemma QuadletList_accepts_name_filters_witness :
  abi.QuadletList (Scenario.env []) Scenario.small_disk
    {| entities.Filters := ["name=a.container"; "name=b.*"] |}
  = Ok [Notions.entry "/etc/containers/systemd/a.container" "Not loaded";
        Notions.entry "/etc/containers/systemd/b.container" "Not loaded"]
  /\ forall f, f ∈ ["name=a.container"; "name=b.*"] -> exists pattern, f = "name=" +:+ pattern.
Proof.
  assert (H : abi.QuadletList (Scenario.env []) Scenario.small_disk
                {| entities.Filters := ["name=a.container"; "name=b.*"] |}
              = Ok [Notions.entry "/etc/containers/systemd/a.container" "Not loaded";
                    Notions.entry "/etc/containers/systemd/b.container" "Not loaded"])
    by (vm_compute; reflexivity).
  split; [exact H|].
  exact (QuadletList_accepts_name_filters _ _ _ _ H).
Defined.

(** X11.  A quadlet file that does not parse is still listed.  Whenever
    [QuadletList] returns a list, every file of the enumeration for which no
    service name could be derived has an entry with its base name, its path
    and the text of the error as status. *)
Theorem QuadletList_lists_unparsable (E : Env) (fs : gmap string node)
    (options : entities.QuadletListOptions) (out : list entities.ListQuadlet)
    (quadletPaths : list string) (path : string) (err : error) :
  abi.QuadletList E fs options = Ok out ->
  abi.getAllQuadletPaths E fs = Ok quadletPaths ->
  path ∈ quadletPaths ->
  abi.getQuadletServiceName E fs path = Err err ->
  {| entities.Name := filepath.Base path; entities.Path := path;
     entities.Status := Error err |} ∈ out.
Proof.
  unfold abi.QuadletList. intros H Hpaths Hin Hparse.
  destruct (dbus_NewWithContext E); [discriminate|].
  rewrite Hpaths in H.
  destruct (abi.build_filterMap _ _) as [filterMap|]; [|discriminate].
  destruct (abi.build_filterFuncs E _) as [filterFuncs|]; [|discriminate].
  destruct (ListUnitsByNames E _) as [statuses|]; [|discriminate].
  rewrite final_reports_all in H. inversion H; subst out; clear H.
  apply elem_of_app. left. apply units_loop_grows.
  now apply (paths_loop_failed_listed E fs).
Qed.

Lemma QuadletList_lists_unparsable_witness :
  let E := Scenario.env [] in
  let fs := <["/etc/containers/systemd/bad.container" := File 420 "Image=bad"]>
              Scenario.small_disk in
  let err := Errorf_w "parsing Quadlet file /etc/containers/systemd/bad.container: "
               (errorString "line 1: expected a group header") in
  let out := [Notions.entry "/etc/containers/systemd/bad.container" (Error err);
              Notions.entry "/etc/containers/systemd/a.container" "Not loaded";
              Notions.entry "/etc/containers/systemd/b.container" "Not loaded"] in
  (abi.QuadletList E fs {| entities.Filters := [] |} = Ok out
   /\ abi.getAllQuadletPaths E fs
      = Ok ["/etc/containers/systemd/a.container"; "/etc/containers/systemd/b.container";
            "/etc/containers/systemd/bad.container"]
   /\ "/etc/containers/systemd/bad.container"
      ∈ ["/etc/containers/systemd/a.container"; "/etc/containers/systemd/b.container";
         "/etc/containers/systemd/bad.container"]
   /\ abi.getQuadletServiceName E fs "/etc/containers/systemd/bad.container" = Err err)
  /\ {| entities.Name := filepath.Base "/etc/containers/systemd/bad.container";
        entities.Path := "/etc/containers/systemd/bad.container";
        entities.Status := Error err |} ∈ out.
Proof.
  intros E fs err out.
  assert (H1 : abi.QuadletList E fs {| entities.Filters := [] |} = Ok out)
    by (vm_compute; reflexivity).
  assert (H2 : abi.getAllQuadletPaths E fs
               = Ok ["/etc/containers/systemd/a.container";
                     "/etc/containers/systemd/b.container";
                     "/etc/containers/systemd/bad.container"])
    by (vm_compute; reflexivity).
  assert (H3 : "/etc/containers/systemd/bad.container"
               ∈ ["/etc/containers/systemd/a.container";
                  "/etc/containers/systemd/b.container";
                  "/etc/containers/systemd/bad.container"])
    by (do 2 right; left).
  assert (H4 : abi.getQuadletServiceName E fs "/etc/containers/systemd/bad.container"
               = Err err) by (vm_compute; reflexivity).
  split; [auto|].
  exact (QuadletList_lists_unparsable E fs _ out _ _ err H1 H2 H3 H4).
Defined.

(** X12.  Every quadlet file is listed exactly once.  When the files that
    parse have pairwise different service names and systemd answers once for
    each name it was asked about and for no other, the paths of the entries
    [QuadletList] returns are the paths of the enumeration, each as often as
    it is enumerated (in some order). *)
Theorem QuadletList_lists_each_file_once (E : Env) (fs : gmap string node)
    (options : entities.QuadletListOptions) (out : list entities.ListQuadlet)
    (quadletPaths : list string) (statuses : list dbus.UnitStatus) :
  abi.QuadletList E fs options = Ok out ->
  abi.getAllQuadletPaths E fs = Ok quadletPaths ->
  ListUnitsByNames E (Notions.queried_names E fs quadletPaths) = Ok statuses ->
  NoDup (Notions.queried_names E fs quadletPaths) ->
  NoDup (dbus.Name <$> statuses) ->
  (forall u, u ∈ statuses -> dbus.Name u ∈ Notions.queried_names E fs quadletPaths) ->
  entities.Path <$> out ≡ₚ quadletPaths.
Proof.
  unfold abi.QuadletList. intros H Hpaths Hunits Hnd Hnd' Hasked.
  destruct (dbus_NewWithContext E); [discriminate|].
  rewrite Hpaths in H.
  destruct (abi.build_filterMap _ _) as [filterMap|]; [|discriminate].
  destruct (abi.build_filterFuncs E _) as [filterFuncs|]; [|discriminate].
  set (st0 := {| abi.l_reports := []; abi.l_allServiceNames := [];
                 abi.l_partialReports := ∅ |}) in H.
  rewrite paths_loop_names in H. simpl in H. rewrite Hunits in H.
  rewrite final_reports_all in H. inversion H; subst out; clear H.
  rewrite fmap_app, leftover_paths.
  change (More.listed_paths (fold_left abi.list_unit statuses
            (fold_left (abi.list_path E fs) quadletPaths st0)) ≡ₚ quadletPaths).
  rewrite units_loop_perm; [|exact Hnd'|].
  - rewrite paths_loop_perm; [|exact Hnd|].
    + unfold More.listed_paths. simpl. rewrite map_to_list_empty. reflexivity.
    + intros sn _. apply lookup_empty.
  - intros u Hu. apply paths_loop_has_key. left. now apply Hasked.
Qed.

Lemma QuadletList_lists_each_file_once_witness :
  let E := Scenario.env [] in
  let out := [Notions.entry "/etc/containers/systemd/a.container" "Not loaded";
              Notions.entry "/etc/containers/systemd/b.container" "Not loaded"] in
  let quadletPaths := ["/etc/containers/systemd/a.container";
                       "/etc/containers/systemd/b.container"] in
  let statuses := [Scenario.not_found "a.service"; Scenario.not_found "b.service"] in
  (abi.QuadletList E Scenario.small_disk {| entities.Filters := [] |} = Ok out
   /\ abi.getAllQuadletPaths E Scenario.small_disk = Ok quadletPaths
   /\ ListUnitsByNames E (Notions.queried_names E Scenario.small_disk quadletPaths)
      = Ok statuses
   /\ NoDup (Notions.queried_names E Scenario.small_disk quadletPaths)
   /\ NoDup (dbus.Name <$> statuses)
   /\ (forall u, u ∈ statuses ->
         dbus.Name u ∈ Notions.queried_names E Scenario.small_disk quadletPaths))
  /\ entities.Path <$> out ≡ₚ quadletPaths.
Proof.
  intros E out quadletPaths statuses.
  assert (Hq : Notions.queried_names E Scenario.small_disk quadletPaths
               = ["a.service"; "b.service"]) by (vm_compute; reflexivity).
  assert (H1 : abi.QuadletList E Scenario.small_disk {| entities.Filters := [] |} = Ok out)
    by (vm_compute; reflexivity).
  assert (H2 : abi.getAllQuadletPaths E Scenario.small_disk = Ok quadletPaths)
    by (vm_compute; reflexivity).
  assert (H3 : ListUnitsByNames E (Notions.queried_names E Scenario.small_disk quadletPaths)
               = Ok statuses) by (vm_compute; reflexivity).
  assert (H4 : NoDup (Notions.queried_names E Scenario.small_disk quadletPaths)).
  { rewrite Hq. apply NoDup_cons. split; [|apply NoDup_singleton].
    intros Hin. apply list_elem_of_singleton in Hin. discriminate. }
  assert (H5 : NoDup (dbus.Name <$> statuses)).
  { apply NoDup_cons. split; [|apply NoDup_singleton].
    intros Hin. apply list_elem_of_singleton in Hin. discriminate. }
  assert (H6 : forall u, u ∈ statuses ->
                 dbus.Name u ∈ Notions.queried_names E Scenario.small_disk quadletPaths).
  { intros u Hu. rewrite Hq. apply elem_of_cons in Hu as [->|Hu]; [left|].
    apply list_elem_of_singleton in Hu. subst u. right. left. }
  split; [auto 10|].
  exact (QuadletList_lists_each_file_once E Scenario.small_disk _ out quadletPaths statuses
           H1 H2 H3 H4 H5 H6).
Defined.

(** ** Looking a quadlet up by name *)

Section LookupFacts.
Context (E : Env).
Import GoStrings filepath abi entities More.

Lemma find_quadlet_skip fs name pre rest :
  (forall d, d ∈ pre -> stat_not_exist fs (Join d name)) ->
  find_quadlet fs name (pre ++ rest) = find_quadlet fs name rest.
Proof.
  induction pre as [|d pre IH]; intros Hno; simpl; [reflexivity|].
  destruct (Hno d) as (err & -> & ->); [left|]. cbn [negb].
  apply IH. intros d' Hd'. apply Hno. now right.
Qed.

Lemma find_quadlet_here fs name dir rest info :
  os.Stat fs (Join dir name) = Ok info ->
  find_quadlet fs name (dir :: rest) = Ok (Join dir name).
Proof. intros Hn. simpl. now rewrite Hn. Qed.

Lemma find_quadlet_split fs name dirs path :
  find_quadlet fs name dirs = Ok path ->
  exists pre dir post,
    dirs = (pre ++ dir :: post)%list
    /\ (forall d, d ∈ pre -> stat_not_exist fs (Join d name))
    /\ (exists info, os.Stat fs (Join dir name) = Ok info)
    /\ path = Join dir name.
Proof.
  induction dirs as [|dir dirs IH]; simpl; [discriminate|].
  destruct (os.Stat fs (Join dir name)) as [info|err] eqn:Hn.
  - intros H. inversion H; subst. exists [], dir, dirs. split; [reflexivity|].
    split; [intros d Hd; inversion Hd|]. split; [eauto | reflexivity].
  - destruct (IsNotExist err) eqn:Hne; cbn [negb]; [|discriminate].
    intros H. destruct (IH H) as (pre & d & post & -> & Hpre & Hd & ->).
    exists (dir :: pre), d, post. split; [reflexivity|]. split; [|split; [exact Hd|reflexivity]].
    intros d' Hd'. apply elem_of_cons in Hd' as [->|Hd']; [|now apply Hpre].
    exists err. auto.
Qed.

(** An install that succeeds writes the bytes of the source to the
    destination. *)
Lemma installQuadlet_written fs fs' path destName installDir finalPath :
  installQuadlet E fs path destName installDir = (fs', Ok finalPath) ->
  finalPath = install_destination path destName installDir
  /\ exists data, os.ReadFile fs path = Ok data
                  /\ fs !! finalPath = None
                  /\ fs' = <[finalPath := File (Z.land 420 (Z.lnot (umask E))) data]> fs.
Proof.
  unfold installQuadlet. intros H.
  destruct (os.Stat fs path) as [stat|e]; [|discriminate].
  destruct (IsDir stat); [discriminate|].
  set (dest := install_destination path destName installDir) in *.
  destruct (os.Stat fs dest) as [st2|e2] eqn:Hdest; [discriminate|].
  destruct (negb _); [discriminate|].
  destruct (os.ReadFile fs path) as [contents|e3]; [|discriminate].
  unfold os.Stat in Hdest. unfold os.WriteFile in H.
  destruct (fs !! dest) as [[| |]|] eqn:Hd; try discriminate.
  destruct (fs !! Dir dest) as [[| |]|]; try discriminate.
  unfold os.written_file in H.
  destruct (WriteFile_fault E dest) as [[err|written err]|]; try discriminate.
  injection H as <- <-. split; [reflexivity|]. exists contents. auto.
Qed.

End LookupFacts.

(** X13.  The search order of [getQuadletByName].  The lookup of a name
    succeeds exactly when the name has a supported extension and [os.Stat]
    succeeds on the name joined to some unit directory while, for every
    directory before that one in the list, it fails with an error that
    [os.IsNotExist] accepts; the result is the name joined to that first
    directory.  In particular a stat that fails in any other way in an
    earlier directory hides an entry in a later one. *)
Theorem getQuadletByName_first_match (E : Env) (fs : gmap string node) (name path : string) :
  abi.getQuadletByName E fs name = Ok path
  <-> abi.IsExtSupported E name = true
      /\ exists pre dir post,
           GetUnitDirs E (IsRootless E) = (pre ++ dir :: post)%list
           /\ (forall d, d ∈ pre ->
                 exists err, os.Stat fs (filepath.Join d name) = Err err
                             /\ IsNotExist err = true)
           /\ (exists info, os.Stat fs (filepath.Join dir name) = Ok info)
           /\ path = filepath.Join dir name.
Proof.
  unfold abi.getQuadletByName. split.
  - destruct (abi.IsExtSupported E name); simpl; [|discriminate].
    intros H. split; [reflexivity|]. now apply find_quadlet_split.
  - intros [Hext (pre & dir & post & Hdirs & Hpre & (info & Hn) & ->)].
    rewrite Hext, Hdirs. simpl.
    rewrite find_quadlet_skip by exact Hpre.
    exact (find_quadlet_here fs name dir post info Hn).
Qed.

(** X14.  What was installed is what [QuadletPrint] shows.  After a local
    file was installed under its own base name into a unit directory, and
    for every unit directory before that one [os.Stat] of the name in it
    fails with an error that [os.IsNotExist] accepts, printing the quadlet
    by that name gives the bytes of the source file. *)
Theorem install_then_print (E : Env) (fs fs' : gmap string node)
    (path installDir finalPath : string) (pre post : list string) :
  abi.installQuadlet E fs path "" installDir = (fs', Ok finalPath) ->
  GetUnitDirs E (IsRootless E) = (pre ++ installDir :: post)%list ->
  (forall d, d ∈ pre ->
     exists err,
       os.Stat fs' (filepath.Join d (filepath.Base (filepath.Clean path))) = Err err
       /\ IsNotExist err = true) ->
  abi.IsExtSupported E (filepath.Base (filepath.Clean path)) = true ->
  abi.QuadletPrint E fs' (filepath.Base (filepath.Clean path)) = os.ReadFile fs path.
Proof.
  intros Hinst Hdirs Hpre Hext.
  apply installQuadlet_written in Hinst as [Hdest (data & Hread & Hfree & ->)].
  unfold abi.install_destination in Hdest. simpl in Hdest. subst finalPath.
  set (name := filepath.Base (filepath.Clean path)) in *.
  unfold abi.QuadletPrint, abi.getQuadletByName. rewrite Hext, Hdirs. simpl.
  rewrite find_quadlet_skip by exact Hpre.
  erewrite (find_quadlet_here _ name installDir post);
    [|unfold os.Stat; rewrite lookup_insert_eq; reflexivity].
  unfold os.ReadFile at 1. rewrite lookup_insert_eq. now rewrite Hread.
Qed.

Lemma install_then_print_witness :
  let E := Scenario.env [] in
  let fs' := <["/usr/share/containers/systemd/web.container"
               := File 420 "[Container] Image=web"]> Scenario2.two_dirs_disk in
  let name := filepath.Base (filepath.Clean "/src/web.container") in
  (abi.installQuadlet E Scenario2.two_dirs_disk "/src/web.container" ""
     "/usr/share/containers/systemd"
   = (fs', Ok "/usr/share/containers/systemd/web.container")
   /\ GetUnitDirs E (IsRootless E)
      = (["/etc/containers/systemd"] ++ "/usr/share/containers/systemd" :: [])%list
   /\ (forall d, d ∈ ["/etc/containers/systemd"] ->
         exists err, os.Stat fs' (filepath.Join d name) = Err err /\ IsNotExist err = true)
   /\ abi.IsExtSupported E name = true)
  /\ abi.QuadletPrint E fs' name = os.ReadFile Scenario2.two_dirs_disk "/src/web.container".
Proof.
  intros E fs' name.
  assert (H1 : abi.installQuadlet E Scenario2.two_dirs_disk "/src/web.container" ""
                 "/usr/share/containers/systemd"
               = (fs', Ok "/usr/share/containers/systemd/web.container"))
    by (vm_compute; reflexivity).
  assert (H2 : GetUnitDirs E (IsRootless E)
               = (["/etc/containers/systemd"] ++ "/usr/share/containers/systemd" :: [])%list)
    by reflexivity.
  assert (H3 : forall d, d ∈ ["/etc/containers/systemd"] ->
             exists err, os.Stat fs' (filepath.Join d name) = Err err
                         /\ IsNotExist err = true).
  { intros d Hd. apply list_elem_of_singleton in Hd as ->.
    exists (PathError "stat" "/etc/containers/systemd/web.container" ENOENT).
    split; vm_compute; reflexivity. }
  assert (H4 : abi.IsExtSupported E name = true) by (vm_compute; reflexivity).
  split; [split_and!; assumption|].
  exact (install_then_print E Scenario2.two_dirs_disk fs' "/src/web.container"
           "/usr/share/containers/systemd" "/usr/share/containers/systemd/web.container"
           ["/etc/containers/systemd"] [] H1 H2 H3 H4).
Defined.

(** ** The engine's return values and the commands that read them *)

Section Returns.
Context (E : Env).
Import GoStrings abi entities More.

Lemma for_range_no_return {S R A} (body : S -> A -> flow S R) (l : list A) :
  (forall s x r s', body s x <> Return s' r) ->
  forall s r s', for_range body l s <> Return s' r.
Proof.
  intros Hbody. induction l as [|x l IH]; intros s r s'; simpl; [discriminate|].
  destruct (body s x) as [s1|s1 r1|s1] eqn:Hb; [apply IH | | discriminate].
  exfalso. exact (Hbody s x r1 s1 Hb).
Qed.

Lemma set_Errors_no_return st key err r st' : set_Errors st key err <> Return st' r.
Proof. unfold set_Errors. destruct (GoMap.set _ _ _); discriminate. Qed.

Lemma and_then_no_return f k r st' :
  (forall r0 st0, f <> Return st0 r0) -> and_then f k <> Return st' r.
Proof.
  intros Hf. destruct f as [s|s r1|s]; simpl; try discriminate.
  exfalso. exact (Hf r1 s eq_refl).
Qed.

Lemma remove_resolve_no_return options st quadlet r st' :
  remove_resolve E options st quadlet <> Return st' r.
Proof.
  unfold remove_resolve. destruct (getQuadletByName E (r_fs st) quadlet).
  - destruct (getQuadletServiceName E _ _); [discriminate | apply set_Errors_no_return].
  - destruct (_ || _); [discriminate | apply set_Errors_no_return].
Qed.

Lemma remove_unit_no_return options st unitStatus r st' :
  remove_unit E options st unitStatus <> Return st' r.
Proof.
  unfold remove_unit. destruct (negb _); [discriminate|].
  destruct (String.eqb _ "active"); [|discriminate].
  destruct (negb (Force options)).
  - apply and_then_no_return. intros. apply set_Errors_no_return.
  - destruct (StopUnit E _).
    + destruct (_ && _); [|discriminate].
      apply and_then_no_return. intros. apply set_Errors_no_return.
    + apply and_then_no_return. intros. apply set_Errors_no_return.
Qed.

Lemma remove_file_no_return st path r st' : remove_file E st path <> Return st' r.
Proof.
  unfold remove_file. destruct (Contains _ _); [discriminate|].
  destruct (os.Remove _ _) as [fs' [err|]]; [|discriminate].
  destruct (negb _); [apply set_Errors_no_return | discriminate].
Qed.

Lemma remove_resolve_fs options st quadlet :
  r_fs (flow_state (remove_resolve E options st quadlet)) = r_fs st.
Proof.
  unfold remove_resolve. destruct (getQuadletByName E (r_fs st) quadlet) as [p|err].
  - destruct (getQuadletServiceName E _ _) as [sn|err]; [reflexivity|].
    now destruct (set_Errors_state (append_path st p) quadlet err) as [-> _].
  - destruct (_ || _); [reflexivity|].
    now destruct (set_Errors_state st quadlet err) as [-> _].
Qed.

Lemma remove_unit_fs options st unitStatus :
  r_fs (flow_state (remove_unit E options st unitStatus)) = r_fs st.
Proof.
  unfold remove_unit.
  set (name := default "" (r_serviceNameToQuadletName st !! dbus.Name unitStatus)).
  assert (Herr : forall err,
             r_fs (flow_state (and_then (set_Errors (set_needReload st) name err)
                                 (fun st0 => append_running st0 name))) = r_fs st).
  { intros err.
    destruct (and_then_state (set_Errors (set_needReload st) name err)
                (fun st0 => append_running st0 name) (fun _ => conj eq_refl eq_refl))
      as [-> _].
    now destruct (set_Errors_state (set_needReload st) name err) as [-> _]. }
  destruct (negb _); [reflexivity|].
  destruct (String.eqb _ "active"); [|reflexivity].
  destruct (negb (Force options)); [apply Herr|].
  destruct (StopUnit E _) as [res|err]; [|apply Herr].
  destruct (_ && _); [apply Herr | reflexivity].
Qed.

(** Where [remove_loops] returns without a report, no file was touched. *)
Lemma remove_loops_nil_report options quadlets st st' err :
  remove_loops E options quadlets st = Return st' (None, err) ->
  err <> None /\ r_fs st' = r_fs st.
Proof.
  unfold remove_loops.
  pose proof (for_range_invariant (fun s => r_fs s = r_fs st) (remove_resolve E options)
                quadlets (fun s x Hs => eq_trans (remove_resolve_fs options s x) Hs)
                st eq_refl) as H1.
  destruct (for_range (remove_resolve E options) quadlets st) as [st1|st1 r|st1] eqn:Hl1;
    simpl in H1; [| |discriminate].
  2:{ exfalso. exact (for_range_no_return _ _ (remove_resolve_no_return options) _ _ _ Hl1). }
  destruct (negb (Nat.eqb (length (r_allServiceNames st1)) 0)).
  - destruct (ListUnitsByNames E _) as [statuses|e].
    + destruct (for_range (remove_unit E options) statuses st1) as [st2|st2 r|st2] eqn:Hl2;
        [| |discriminate].
      2:{ exfalso.
          exact (for_range_no_return _ _ (remove_unit_no_return options) _ _ _ Hl2). }
      destruct (negb (Nat.eqb (length (r_allQuadletPaths st2)) 0)).
      * destruct (for_range (remove_file E) (r_allQuadletPaths st2) st2) as [st3|st3 r|st3] eqn:Hl3;
          [| |discriminate].
        2:{ exfalso. exact (for_range_no_return _ _ remove_file_no_return _ _ _ Hl3). }
        destruct (r_needReload st3); [destruct (Reload E)|]; discriminate.
      * destruct (r_needReload st2); [destruct (Reload E)|]; discriminate.
    + intros H. inversion H; subst. split; [discriminate | exact H1].
  - destruct (negb (Nat.eqb (length (r_allQuadletPaths st1)) 0)).
    + destruct (for_range (remove_file E) (r_allQuadletPaths st1) st1) as [st3|st3 r|st3] eqn:Hl3;
        [| |discriminate].
      2:{ exfalso. exact (for_range_no_return _ _ remove_file_no_return _ _ _ Hl3). }
      destruct (r_needReload st3); [destruct (Reload E)|]; discriminate.
    + destruct (r_needReload st1); [destruct (Reload E)|]; discriminate.
Qed.

End Returns.

(** X15.  [install] can trust the engine.  Whatever [QuadletInstall]
    returns, from the local engine or from the remote one, the command does
    not dereference a nil report: the engine returns no report only together
    with an error, and the command looks at the error first. *)
Theorem install_never_dereferences_nil (E : Env) (fs fs' : gmap string node)
    (args : list string) (options : entities.QuadletInstallOptions)
    (returned : abi.install_return) :
  abi.QuadletInstall E fs args options = Returned fs' returned
  \/ tunnel.QuadletInstall fs args options = Returned fs' returned ->
  quadlet_cmd.install returned <> quadlet_cmd.NilDereference.
Proof.
  assert (Hsafe : forall report err,
             returned = (report, err) -> (report = None -> err <> None) ->
             quadlet_cmd.install returned <> quadlet_cmd.NilDereference).
  { intros report err -> Hc. unfold quadlet_cmd.install.
    destruct err as [e|]; [discriminate|].
    destruct report as [rep|]; [|exfalso; now apply Hc].
    destruct (Nat.ltb _ _); discriminate. }
  intros [H|H].
  - destruct returned as [report err]. apply (Hsafe report err eq_refl). intros ->.
    unfold abi.QuadletInstall in H.
    destruct (abi.install_prepare E fs) as [fs1 [installDir|e]];
      [|inversion H; discriminate].
    unfold abi.install_from in H. destruct (ArtifactStore E); [inversion H; discriminate|].
    destruct (for_range _ _ _) as [st'|st' r|st'] eqn:Hloop; [| |discriminate].
    + unfold abi.install_finish in H.
      destruct (entities.ReloadSystemd options); [destruct (Reload E)|]; discriminate.
    + inversion H; subst r. clear H. intros ->.
      pose proof (for_range_keeps_fresh (abi.install_one E installDir)
                    (fun st x => install_one_keeps_fresh E installDir st x) args
                    {| abi.i_fs := fs1; abi.i_report := entities.new_QuadletInstallReport;
                       abi.i_tmp := [] |} eq_refl) as Hk.
      rewrite Hloop in Hk. simpl in Hk. clear Hk.
      revert Hloop. generalize {| abi.i_fs := fs1;
                                  abi.i_report := entities.new_QuadletInstallReport;
                                  abi.i_tmp := [] |}.
      induction args as [|a args IH]; intros st0; simpl; [discriminate|].
      destruct (abi.install_one E installDir st0 a) as [s1|s1 r1|s1] eqn:Hone;
        [apply IH | | discriminate].
      intros Hr. inversion Hr; subst. clear Hr.
      unfold abi.install_one in Hone.
      destruct (GoStrings.HasPrefix a "oci-artifact://").
      * destruct (GetLayers E _) as [layers|e]; [|inversion Hone].
        exfalso. revert Hone. generalize st0. clear.
        induction layers as [|[f p] layers IHl]; intros st0; simpl; [discriminate|].
        unfold abi.install_layer at 1.
        destruct (abi.installQuadlet E (abi.i_fs st0) p f installDir) as [fs2 res].
        destruct res; simpl.
        -- unfold abi.set_InstalledQuadlets. destruct (GoMap.set _ _ _); [apply IHl|discriminate].
        -- unfold abi.set_QuadletErrors. destruct (GoMap.set _ _ _); [apply IHl|discriminate].
      * exfalso. destruct (_ || _).
        -- destruct (CreateTemp E _); [|unfold abi.set_QuadletErrors in Hone;
                                         destruct (GoMap.set _ _ _); discriminate].
           destruct (http_Get E a); [|unfold abi.set_QuadletErrors in Hone;
                                       destruct (GoMap.set _ _ _); discriminate].
           destruct (abi.copy_body _ _ _) as [fs2 [e|]];
             [unfold abi.set_QuadletErrors in Hone; destruct (GoMap.set _ _ _); discriminate|].
           destruct (abi.installQuadlet E fs2 _ _ _) as [fs3 res].
           destruct res; simpl in Hone;
             [unfold abi.set_InstalledQuadlets in Hone | unfold abi.set_QuadletErrors in Hone];
             destruct (GoMap.set _ _ _); discriminate.
        -- destruct (abi.installQuadlet E _ _ _ _) as [fs3 res].
           destruct res; simpl in Hone;
             [unfold abi.set_InstalledQuadlets in Hone | unfold abi.set_QuadletErrors in Hone];
             destruct (GoMap.set _ _ _); discriminate.
  - unfold tunnel.QuadletInstall in H. inversion H; subst.
    unfold quadlet_cmd.install. discriminate.
Qed.

Section RemoveReturns.
Context (E : Env).
Import abi entities More.

(** Where [remove_loops] returns a report and an error, the error is the
    one of the reload. *)
Lemma remove_loops_report_error options quadlets st st' report e :
  remove_loops E options quadlets st = Return st' (Some report, Some e) ->
  exists err, Reload E = Some err /\ e = Errorf_w "reloading systemd: " err.
Proof.
  unfold remove_loops.
  assert (Hend : forall s : remove_state,
             (if r_needReload s
              then match Reload E with
                   | Some err =>
                       Return s (Some (r_report s), Some (Errorf_w "reloading systemd: " err))
                   | None => Return s (Some (r_report s), None)
                   end
              else Return s (Some (r_report s), None))
             = Return st' (Some report, Some e) ->
             exists err, Reload E = Some err /\ e = Errorf_w "reloading systemd: " err).
  { intros s. destruct (r_needReload s); [|discriminate].
    destruct (Reload E) as [err|]; [|discriminate].
    intros H. inversion H; subst. now exists err. }
  assert (Hfiles : forall s : remove_state,
             match (if negb (Nat.eqb (length (r_allQuadletPaths s)) 0)
                    then for_range (remove_file E) (r_allQuadletPaths s) s
                    else Continue s) with
             | Continue s3 =>
                 if r_needReload s3
                 then match Reload E with
                      | Some err =>
                          Return s3 (Some (r_report s3),
                                     Some (Errorf_w "reloading systemd: " err))
                      | None => Return s3 (Some (r_report s3), None)
                      end
                 else Return s3 (Some (r_report s3), None)
             | Return s3 r => Return s3 r
             | Panic s3 => Panic s3
             end = Return st' (Some report, Some e) ->
             exists err, Reload E = Some err /\ e = Errorf_w "reloading systemd: " err).
  { intros s. destruct (negb _); [|apply Hend].
    destruct (for_range (remove_file E) _ s) as [s3|s3 r|s3] eqn:Hl3;
      [apply Hend | | discriminate].
    exfalso. exact (for_range_no_return _ _ (remove_file_no_return E) _ _ _ Hl3). }
  destruct (for_range (remove_resolve E options) quadlets st) as [st1|st1 r|st1] eqn:Hl1;
    [| |discriminate].
  2:{ exfalso. exact (for_range_no_return _ _ (remove_resolve_no_return E options) _ _ _ Hl1). }
  cbv zeta. destruct (negb (Nat.eqb (length (r_allServiceNames st1)) 0)); [|apply Hfiles].
  destruct (ListUnitsByNames E _) as [statuses|err]; [|discriminate].
  destruct (for_range (remove_unit E options) statuses st1) as [st2|st2 r|st2] eqn:Hl2;
    [apply Hfiles | | discriminate].
  exfalso. exact (for_range_no_return _ _ (remove_unit_no_return E options) _ _ _ Hl2).
Qed.

(** [remove_from] returns no report only together with an error. *)
Lemma QuadletRemove_nil_report_error start fs fs' quadlets options err :
  remove_from E start fs quadlets options = Returned fs' (None, err) -> err <> None.
Proof.
  unfold remove_from.
  destruct (_ && _); [intros H; inversion H; discriminate|].
  destruct (ConnectToDBUS E); [intros H; inversion H; discriminate|].
  cbv zeta.
  assert (Hstart : forall names,
             match remove_loops E options names
                     {| r_fs := fs; r_report := start;
                        r_allQuadletPaths := []; r_allServiceNames := [];
                        r_runningQuadlets := [];
                        r_serviceNameToQuadletName := ∅;
                        r_needReload := false |} with
             | Continue st => Returned (r_fs st) (Some (r_report st), None)
             | Return st r => Returned (r_fs st) r
             | Panic st => Panicked (r_fs st)
             end = Returned fs' (None, err) -> err <> None).
  { intros names. destruct (remove_loops E options names _) as [st|st r|st] eqn:Hloops;
      [discriminate | | discriminate].
    intros H. inversion H; subst.
    exact (proj1 (remove_loops_nil_report E options names _ st err Hloops)). }
  destruct (All options); [|apply Hstart].
  destruct (getAllQuadletPaths E fs) as [allQuadlets|e]; [apply Hstart|].
  intros H. inversion H. discriminate.
Qed.

End RemoveReturns.

(** X16.  [QuadletRemove] returns no report only together with an error, and
    only before it has deleted anything: the files are then as they were.
    This holds for every report the loops could start from, so also for the
    one [new] allocates. *)
Theorem QuadletRemove_nil_report_untouched (E : Env) (report : entities.QuadletRemoveReport)
    (fs fs' : gmap string node) (quadlets : list string)
    (options : entities.QuadletRemoveOptions) (err : option error) :
  abi.remove_from E report fs quadlets options = Returned fs' (None, err) ->
  err <> None /\ fs' = fs.
Proof.
  unfold abi.remove_from.
  destruct (_ && _); [intros H; inversion H; split; [discriminate | reflexivity]|].
  destruct (ConnectToDBUS E); [intros H; inversion H; split; [discriminate | reflexivity]|].
  cbv zeta.
  assert (Hstart : forall names,
             match abi.remove_loops E options names
                     {| abi.r_fs := fs; abi.r_report := report;
                        abi.r_allQuadletPaths := []; abi.r_allServiceNames := [];
                        abi.r_runningQuadlets := [];
                        abi.r_serviceNameToQuadletName := ∅;
                        abi.r_needReload := false |} with
             | Continue st => Returned (abi.r_fs st) (Some (abi.r_report st), None)
             | Return st r => Returned (abi.r_fs st) r
             | Panic st => Panicked (abi.r_fs st)
             end = Returned fs' (None, err) -> err <> None /\ fs' = fs).
  { intros names. destruct (abi.remove_loops E options names _) as [st|st r|st] eqn:Hloops;
      [discriminate | | discriminate].
    intros H. inversion H; subst.
    exact (remove_loops_nil_report E options names _ st err Hloops). }
  destruct (entities.All options); [|apply Hstart].
  destruct (abi.getAllQuadletPaths E fs) as [allQuadlets|e]; [apply Hstart|].
  intros H. inversion H. split; [discriminate | reflexivity].
Qed.

Lemma QuadletRemove_nil_report_untouched_witness :
  abi.remove_from (Scenario.env []) entities.new_QuadletRemoveReport Scenario.small_disk []
    Scenario.no_options
  = Returned Scenario.small_disk
      (None, Some (errorString "must provide at least 1 quadlet to remove"))
  /\ (Some (errorString "must provide at least 1 quadlet to remove") <> None
      /\ Scenario.small_disk = Scenario.small_disk).
Proof.
  assert (H : abi.remove_from (Scenario.env []) entities.new_QuadletRemoveReport
                Scenario.small_disk [] Scenario.no_options
              = Returned Scenario.small_disk
                  (None, Some (errorString "must provide at least 1 quadlet to remove")))
    by reflexivity.
  split; [exact H|].
  exact (QuadletRemove_nil_report_untouched (Scenario.env []) entities.new_QuadletRemoveReport
           Scenario.small_disk Scenario.small_disk [] Scenario.no_options _ H).
Defined.

(** X17.  When [QuadletRemove] returns a report together with an error, the
    error is the failure of the systemd reload, wrapped: no other error
    comes with a report. *)
Theorem QuadletRemove_report_with_error (E : Env) (start report : entities.QuadletRemoveReport)
    (fs fs' : gmap string node) (quadlets : list string)
    (options : entities.QuadletRemoveOptions) (e : error) :
  abi.remove_from E start fs quadlets options = Returned fs' (Some report, Some e) ->
  exists err, Reload E = Some err /\ e = Errorf_w "reloading systemd: " err.
Proof.
  unfold abi.remove_from.
  destruct (_ && _); [discriminate|].
  destruct (ConnectToDBUS E); [discriminate|].
  cbv zeta.
  assert (Hstart : forall names,
             match abi.remove_loops E options names
                     {| abi.r_fs := fs; abi.r_report := start;
                        abi.r_allQuadletPaths := []; abi.r_allServiceNames := [];
                        abi.r_runningQuadlets := [];
                        abi.r_serviceNameToQuadletName := ∅;
                        abi.r_needReload := false |} with
             | Continue st => Returned (abi.r_fs st) (Some (abi.r_report st), None)
             | Return st r => Returned (abi.r_fs st) r
             | Panic st => Panicked (abi.r_fs st)
             end = Returned fs' (Some report, Some e) ->
             exists err, Reload E = Some err /\ e = Errorf_w "reloading systemd: " err).
  { intros names. destruct (abi.remove_loops E options names _) as [st|st r|st] eqn:Hloops;
      [discriminate | | discriminate].
    intros H. inversion H; subst.
    exact (remove_loops_report_error E options names _ st report e Hloops). }
  destruct (entities.All options); [|apply Hstart].
  destruct (abi.getAllQuadletPaths E fs) as [allQuadlets|e0]; [apply Hstart | discriminate].
Qed.

Lemma QuadletRemove_report_with_error_witness :
  let E := Scenario2.reload_failing_env [Scenario.running "a.service"] in
  let options := {| entities.Force := true; entities.All := false; entities.Ignore := false |} in
  let report := {| entities.Removed := ["a.container"]; entities.Errors := GoMap.nil |} in
  let e := Errorf_w "reloading systemd: " (errorString "Access denied") in
  abi.remove_from E entities.new_QuadletRemoveReport Scenario.small_disk ["a.container"] options
  = Returned (delete "/etc/containers/systemd/a.container" Scenario.small_disk)
      (Some report, Some e)
  /\ exists err, Reload E = Some err /\ e = Errorf_w "reloading systemd: " err.
Proof.
  intros E options report e.
  assert (H : abi.remove_from E entities.new_QuadletRemoveReport Scenario.small_disk
                ["a.container"] options
              = Returned (delete "/etc/containers/systemd/a.container" Scenario.small_disk)
                  (Some report, Some e)) by (vm_compute; reflexivity).
  split; [exact H|].
  exact (QuadletRemove_report_with_error E entities.new_QuadletRemoveReport report
           Scenario.small_disk _ ["a.container"] options e H).
Defined.

Lemma install_never_dereferences_nil_witness :
  let returned : abi.install_return := (Some entities.new_QuadletInstallReport, None) in
  let options := {| entities.ReloadSystemd := true |} in
  (abi.QuadletInstall (Scenario.env []) Scenario2.generator_disk [] options
   = Returned Scenario2.generator_disk returned
   \/ tunnel.QuadletInstall Scenario2.generator_disk [] options
      = Returned Scenario2.generator_disk returned)
  /\ quadlet_cmd.install returned <> quadlet_cmd.NilDereference.
Proof.
  intros returned options.
  assert (H : abi.QuadletInstall (Scenario.env []) Scenario2.generator_disk [] options
              = Returned Scenario2.generator_disk returned
              \/ tunnel.QuadletInstall Scenario2.generator_disk [] options
                 = Returned Scenario2.generator_disk returned)
    by (left; vm_compute; reflexivity).
  split; [exact H|].
  exact (install_never_dereferences_nil (Scenario.env []) Scenario2.generator_disk
           Scenario2.generator_disk [] options returned H).
Defined.

(** ** What a successful [podman quadlet rm] means *)

Section RmSuccess.
Context (E : Env).
Import abi entities More.

(** The number of entries of [report.Errors]. *)
Local Abbreviation errs st := (GoMap.len (Errors (r_report st))).

Lemma set_Errors_grows st key err st' :
  set_Errors st key err = Continue st' ->
  0 < errs st'
  /\ r_fs st' = r_fs st /\ r_allQuadletPaths st' = r_allQuadletPaths st
  /\ r_runningQuadlets st' = r_runningQuadlets st
  /\ Removed (r_report st') = Removed (r_report st).
Proof.
  unfold set_Errors, GoMap.set. destruct (Errors (r_report st)) as [tbl|]; [|discriminate].
  intros H. inversion H; subst. clear H. simpl. split_and!; try reflexivity.
  pose proof (proj2 (map_size_non_empty_iff (<[key := err]> tbl)) (insert_non_empty _ _ _)).
  lia.
Qed.

Lemma set_Errors_then_running st key err name st' :
  and_then (set_Errors st key err) (fun st0 => append_running st0 name) = Continue st' ->
  0 < errs st'
  /\ r_fs st' = r_fs st /\ r_allQuadletPaths st' = r_allQuadletPaths st
  /\ Removed (r_report st') = Removed (r_report st).
Proof.
  destruct (set_Errors st key err) as [s1|s1 r|s1] eqn:Hset; simpl; try discriminate.
  intros H. inversion H; subst. clear H.
  destruct (set_Errors_grows _ _ _ _ Hset) as (H1 & H2 & H3 & _ & H5). simpl. auto.
Qed.

Hypothesis options : QuadletRemoveOptions.
Hypothesis not_all : All options = false.

(** The first loop: every name is resolved to a path put up for deletion,
    or was not found and ignored, unless an error was recorded. *)
Lemma resolve_loop_success quadlets : forall st st',
  for_range (remove_resolve E options) quadlets st = Continue st' ->
  r_fs st' = r_fs st
  /\ r_runningQuadlets st' = r_runningQuadlets st
  /\ (forall p, p ∈ r_allQuadletPaths st -> p ∈ r_allQuadletPaths st')
  /\ (forall q, q ∈ Removed (r_report st) -> q ∈ Removed (r_report st'))
  /\ (0 < errs st -> 0 < errs st')
  /\ (errs st' = 0 ->
      forall q, q ∈ quadlets ->
        match getQuadletByName E (r_fs st) q with
        | Ok path => path ∈ r_allQuadletPaths st'
        | Err _ => Ignore options = true /\ q ∈ Removed (r_report st')
        end).
Proof.
  induction quadlets as [|quadlet quadlets IH]; intros st st'; simpl.
  - intros H. inversion H; subst. split_and!; auto.
    intros _ q Hq. now apply elem_of_nil in Hq.
  - destruct (remove_resolve E options st quadlet) as [s1|s1 r|s1] eqn:Hone; try discriminate.
    intros Hrest. destruct (IH _ _ Hrest) as (Hfs & Hrun & Hpaths & Hrem & Herr & Hall).
    assert (Hstep : r_fs s1 = r_fs st
                    /\ r_runningQuadlets s1 = r_runningQuadlets st
                    /\ (forall p, p ∈ r_allQuadletPaths st -> p ∈ r_allQuadletPaths s1)
                    /\ (forall q, q ∈ Removed (r_report st) -> q ∈ Removed (r_report s1))
                    /\ (0 < errs st -> 0 < errs s1)
                    /\ (0 < errs s1
                        \/ match getQuadletByName E (r_fs st) quadlet with
                           | Ok path => path ∈ r_allQuadletPaths s1
                           | Err _ => Ignore options = true /\ quadlet ∈ Removed (r_report s1)
                           end)).
    { revert Hone. unfold remove_resolve.
      destruct (getQuadletByName E (r_fs st) quadlet) as [path|err].
      - destruct (getQuadletServiceName E _ _) as [sn|err].
        + intros H. inversion H; subst. clear H. simpl. split_and!; auto.
          * intros p Hp. apply elem_of_app. now left.
          * right. apply elem_of_app. right. now apply list_elem_of_singleton.
        + intros H. destruct (set_Errors_grows _ _ _ _ H) as (H1 & H2 & H3 & H4 & H5).
          simpl in *. split_and!; auto.
          * intros p Hp. rewrite H3. apply elem_of_app. now left.
          * intros q Hq. now rewrite H5.
      - rewrite not_all, orb_false_r. destruct (Ignore options).
        + intros H. inversion H; subst. clear H. simpl. split_and!; auto.
          * intros q Hq. apply elem_of_app. now left.
          * right. split; [reflexivity|]. apply elem_of_app. right.
            now apply list_elem_of_singleton.
        + intros H. destruct (set_Errors_grows _ _ _ _ H) as (H1 & H2 & H3 & H4 & H5).
          split_and!; auto.
          * intros p Hp. now rewrite H3.
          * intros q Hq. now rewrite H5. }
    destruct Hstep as (Sfs & Srun & Spaths & Srem & Serr & Sone).
    split_and!.
    + now rewrite Hfs.
    + now rewrite Hrun.
    + auto.
    + auto.
    + auto.
    + intros Hzero q Hq. apply elem_of_cons in Hq as [->|Hq].
      * destruct Sone as [Hpos|Hok]; [apply Herr in Hpos; lia|].
        destruct (getQuadletByName E (r_fs st) quadlet) as [path|err]; [auto|].
        destruct Hok as [Hi Hr]. split; auto.
      * specialize (Hall Hzero q Hq). now rewrite Sfs in Hall.
Qed.

(** The second loop touches no file and takes nothing off the list; it
    marks a quadlet as running only when it records an error for it. *)
Lemma units_loop_success statuses : forall st st',
  for_range (remove_unit E options) statuses st = Continue st' ->
  r_fs st' = r_fs st
  /\ r_allQuadletPaths st' = r_allQuadletPaths st
  /\ Removed (r_report st') = Removed (r_report st)
  /\ (0 < errs st -> 0 < errs st')
  /\ (errs st' = 0 -> r_runningQuadlets st' = r_runningQuadlets st).
Proof.
  induction statuses as [|unitStatus statuses IH]; intros st st'; simpl.
  - intros H. inversion H; subst. split_and!; auto.
  - destruct (remove_unit E options st unitStatus) as [s1|s1 r|s1] eqn:Hone; try discriminate.
    intros Hrest. destruct (IH _ _ Hrest) as (Hfs & Hpaths & Hrem & Herr & Hrun).
    assert (Hstep : r_fs s1 = r_fs st
                    /\ r_allQuadletPaths s1 = r_allQuadletPaths st
                    /\ Removed (r_report s1) = Removed (r_report st)
                    /\ (0 < errs st -> 0 < errs s1)
                    /\ (0 < errs s1 \/ r_runningQuadlets s1 = r_runningQuadlets st)).
    { revert Hone. unfold remove_unit.
      set (name := default "" (r_serviceNameToQuadletName st !! dbus.Name unitStatus)).
      assert (Hsame : forall s, @Continue remove_state remove_return s = Continue s1 ->
                 r_fs s = r_fs st -> r_allQuadletPaths s = r_allQuadletPaths st ->
                 r_report s = r_report st -> r_runningQuadlets s = r_runningQuadlets st ->
                 r_fs s1 = r_fs st
                 /\ r_allQuadletPaths s1 = r_allQuadletPaths st
                 /\ Removed (r_report s1) = Removed (r_report st)
                 /\ (0 < errs st -> 0 < errs s1)
                 /\ (0 < errs s1 \/ r_runningQuadlets s1 = r_runningQuadlets st)).
      { intros s H H1 H2 H3 H4. inversion H; subst. rewrite H3. split_and!; auto. }
      assert (Hfail : forall err,
                 and_then (set_Errors (set_needReload st) name err)
                   (fun st0 => append_running st0 name) = Continue s1 ->
                 r_fs s1 = r_fs st
                 /\ r_allQuadletPaths s1 = r_allQuadletPaths st
                 /\ Removed (r_report s1) = Removed (r_report st)
                 /\ (0 < errs st -> 0 < errs s1)
                 /\ (0 < errs s1 \/ r_runningQuadlets s1 = r_runningQuadlets st)).
      { intros err H. destruct (set_Errors_then_running _ _ _ _ _ H) as (H1 & H2 & H3 & H4).
        simpl in *. split_and!; auto. }
      destruct (negb _); [intros H; now apply (Hsame st)|].
      destruct (String.eqb _ "active"); [|intros H; now apply (Hsame (set_needReload st))].
      destruct (negb (Force options)); [apply Hfail|].
      destruct (StopUnit E _) as [res|err]; [|apply Hfail].
      destruct (_ && _); [apply Hfail | intros H; now apply (Hsame (set_needReload st))]. }
    destruct Hstep as (Sfs & Spaths & Srem & Serr & Srun).
    split_and!.
    + now rewrite Hfs.
    + now rewrite Hpaths.
    + now rewrite Hrem.
    + auto.
    + intros Hzero. rewrite (Hrun Hzero).
      destruct Srun as [Hpos|Hok]; [apply Herr in Hpos; lia | exact Hok].
Qed.

Lemma Remove_done fault fs path fs' :
  os.Remove fault fs path = (fs', None) -> fs' = delete path fs.
Proof.
  unfold os.Remove, os.unlinked. destruct (fs !! path) as [[| |]|]; try discriminate.
  - destruct fault; [discriminate|]. intros H. now inversion H.
  - destruct (os.children fs path); [|discriminate].
    destruct fault; [discriminate|]. intros H. now inversion H.
Qed.

(** The one removal that fails with an error [fs.ErrNotExist] matches is
    that of a path that holds nothing; a refusal is no such error. *)
Lemma Remove_not_exist fault fs path fs' err :
  os.Remove fault fs path = (fs', Some err) -> Is_ErrNotExist err = true ->
  fs' = fs /\ fs !! path = None.
Proof.
  unfold os.Remove, os.unlinked. destruct (fs !! path) as [[| |]|].
  - destruct fault as [[|]|]; [| |discriminate]; intros H; inversion H; subst; discriminate.
  - destruct (os.children fs path).
    + destruct fault as [[|]|]; [| |discriminate]; intros H; inversion H; subst; discriminate.
    + intros H. inversion H; subst. discriminate.
  - intros H. inversion H; subst. discriminate.
  - intros H. inversion H; subst. auto.
Qed.

(** The third loop, when nothing is marked as running: a path is gone and
    its name is on [Removed], unless an error was recorded. *)
Lemma files_loop_success paths : forall st st',
  for_range (remove_file E) paths st = Continue st' ->
  r_runningQuadlets st = [] ->
  (forall q, q ∈ Removed (r_report st) -> q ∈ Removed (r_report st'))
  /\ (forall p, r_fs st !! p = None -> r_fs st' !! p = None)
  /\ (0 < errs st -> 0 < errs st')
  /\ (errs st' = 0 ->
      forall p, p ∈ paths ->
        r_fs st' !! p = None /\ filepath.Base p ∈ Removed (r_report st')).
Proof.
  induction paths as [|path paths IH]; intros st st'; simpl.
  - intros H _. inversion H; subst. split_and!; auto.
    intros _ p Hp. now apply elem_of_nil in Hp.
  - destruct (remove_file E st path) as [s1|s1 r|s1] eqn:Hone; try discriminate.
    intros Hrest Hrun.
    assert (Hstep : r_runningQuadlets s1 = []
                    /\ (forall q, q ∈ Removed (r_report st) -> q ∈ Removed (r_report s1))
                    /\ (forall p, r_fs st !! p = None -> r_fs s1 !! p = None)
                    /\ (0 < errs st -> 0 < errs s1)
                    /\ (0 < errs s1
                        \/ (r_fs s1 !! path = None
                            /\ filepath.Base path ∈ Removed (r_report s1)))).
    { revert Hone. unfold remove_file. rewrite Hrun. cbn [Contains existsb].
      destruct (os.Remove _ (r_fs st) path) as [fs1 [err|]] eqn:Hrm.
      - destruct (Is_ErrNotExist err) eqn:Hne; cbn [negb].
        + destruct (Remove_not_exist _ _ _ _ _ Hrm Hne) as [-> Habs].
          intros H. inversion H; subst. clear H. simpl. split_and!; auto.
          * intros q Hq. apply elem_of_app. now left.
          * right. split; [exact Habs|]. apply elem_of_app. right.
            now apply list_elem_of_singleton.
        + intros H. destruct (set_Errors_grows _ _ _ _ H) as (H1 & H2 & H3 & H4 & H5).
          simpl in *. split_and!; auto.
          * now rewrite H4.
          * intros q Hq. now rewrite H5.
          * intros p Hp. rewrite H2.
            pose proof (Remove_absent (Remove_fault E path) (r_fs st) path p Hp) as Hk.
            now rewrite Hrm in Hk.
      - apply Remove_done in Hrm. subst fs1.
        intros H. inversion H; subst. clear H. simpl. split_and!; auto.
        + intros q Hq. apply elem_of_app. now left.
        + intros p Hp. destruct (decide (path = p)) as [->|Hd];
            [apply lookup_delete_eq | now rewrite lookup_delete_ne].
        + right. split; [apply lookup_delete_eq|]. apply elem_of_app. right.
          now apply list_elem_of_singleton. }
    destruct Hstep as (Srun & Srem & Sabs & Serr & Sone).
    destruct (IH _ _ Hrest Srun) as (Hrem & Habs & Herr & Hall).
    split_and!; auto.
    intros Hzero p Hp. apply elem_of_cons in Hp as [->|Hp]; [|now apply Hall].
    destruct Sone as [Hpos|[Hgone Hlisted]]; [apply Herr in Hpos; lia|].
    split; [now apply Habs | now apply Hrem].
Qed.

(** The three loops together. *)
Lemma remove_loops_success quadlets st st' report err :
  r_runningQuadlets st = [] -> r_allQuadletPaths st = [] ->
  remove_loops E options quadlets st = Return st' (Some report, err) ->
  report = r_report st'
  /\ (errs st' = 0 ->
      forall q, q ∈ quadlets ->
        match getQuadletByName E (r_fs st) q with
        | Ok path => r_fs st' !! path = None /\ filepath.Base path ∈ Removed report
        | Err _ => Ignore options = true /\ q ∈ Removed report
        end).
Proof.
  intros Hrun0 Hpaths0. unfold remove_loops.
  destruct (for_range (remove_resolve E options) quadlets st) as [s1|s1 r|s1] eqn:Hl1;
    [| |discriminate].
  2:{ intros H. exfalso.
      exact (for_range_no_return _ _ (remove_resolve_no_return E options) _ _ _ Hl1). }
  destruct (resolve_loop_success _ _ _ Hl1) as (Hfs1 & Hrun1 & _ & Hrem1 & Herr1 & Hall1).
  cbv zeta.
  assert (Hfiles : forall s2,
             r_fs s2 = r_fs s1 -> r_allQuadletPaths s2 = r_allQuadletPaths s1 ->
             Removed (r_report s2) = Removed (r_report s1) ->
             (0 < errs s1 -> 0 < errs s2) ->
             (errs s2 = 0 -> r_runningQuadlets s2 = r_runningQuadlets s1) ->
             match (if negb (Nat.eqb (length (r_allQuadletPaths s2)) 0)
                    then for_range (remove_file E) (r_allQuadletPaths s2) s2
                    else Continue s2) with
             | Continue s3 =>
                 if r_needReload s3
                 then match Reload E with
                      | Some err =>
                          Return s3 (Some (r_report s3),
                                     Some (Errorf_w "reloading systemd: " err))
                      | None => Return s3 (Some (r_report s3), None)
                      end
                 else Return s3 (Some (r_report s3), None)
             | Return s3 r => Return s3 r
             | Panic s3 => Panic s3
             end = Return st' (Some report, err) ->
             report = r_report st'
             /\ (errs st' = 0 ->
                 forall q, q ∈ quadlets ->
                   match getQuadletByName E (r_fs st) q with
                   | Ok path => r_fs st' !! path = None /\ filepath.Base path ∈ Removed report
                   | Err _ => Ignore options = true /\ q ∈ Removed report
                   end)).
  { intros s2 Hfs2 Hpaths2 Hrem2 Herr2 Hrun2.
    assert (Hend : forall s3,
               (forall q, q ∈ Removed (r_report s2) -> q ∈ Removed (r_report s3)) ->
               (0 < errs s2 -> 0 < errs s3) ->
               (errs s3 = 0 -> forall p, p ∈ r_allQuadletPaths s2 ->
                  r_fs s3 !! p = None /\ filepath.Base p ∈ Removed (r_report s3)) ->
               (if r_needReload s3
                then match Reload E with
                     | Some err =>
                         Return s3 (Some (r_report s3),
                                    Some (Errorf_w "reloading systemd: " err))
                     | None => Return s3 (Some (r_report s3), None)
                     end
                else Return s3 (Some (r_report s3), None))
               = Return st' (Some report, err) ->
               report = r_report st'
               /\ (errs st' = 0 ->
                   forall q, q ∈ quadlets ->
                     match getQuadletByName E (r_fs st) q with
                     | Ok path =>
                         r_fs st' !! path = None /\ filepath.Base path ∈ Removed report
                     | Err _ => Ignore options = true /\ q ∈ Removed report
                     end)).
    { intros s3 Hrem3 Herr3 Hall3 Hret.
      assert (Hst : s3 = st' /\ report = r_report s3).
      { destruct (r_needReload s3); [destruct (Reload E)|]; inversion Hret; auto. }
      destruct Hst as [-> ->]. split; [reflexivity|].
      intros Hzero q Hq.
      assert (Hz2 : errs s2 = 0) by (destruct (errs s2); [reflexivity | lia]).
      assert (Hz1 : errs s1 = 0) by (destruct (errs s1); [reflexivity | lia]).
      specialize (Hall1 Hz1 q Hq).
      destruct (getQuadletByName E (r_fs st) q) as [path|e].
      - apply Hall3; [exact Hzero|]. now rewrite Hpaths2.
      - destruct Hall1 as [Hi Hr]. split; [exact Hi|]. apply Hrem3. now rewrite Hrem2. }
    destruct (negb (Nat.eqb (length (r_allQuadletPaths s2)) 0)) eqn:Hlen.
    - destruct (for_range (remove_file E) _ s2) as [s3|s3 r|s3] eqn:Hl3; [| |discriminate].
      2:{ intros H. exfalso.
          exact (for_range_no_return _ _ (remove_file_no_return E) _ _ _ Hl3). }
      destruct (errs s2) as [|n] eqn:Hz2.
      + destruct (files_loop_success _ _ _ Hl3) as (Hrem3 & _ & Herr3 & Hall3).
        { rewrite Hrun2; [|reflexivity]. now rewrite Hrun1. }
        apply Hend; auto. intros Hpos. lia.
      + (* an error is on record already *)
        assert (Hpos3 : 0 < errs s3).
        { clear Hend. revert Hl3. generalize (r_allQuadletPaths s2) as paths.
          assert (Hpos2 : 0 < errs s2) by lia. clear Hz2. revert Hpos2.
          generalize s2 as s. clear.
          intros s Hpos paths. revert s Hpos.
          induction paths as [|path paths IH]; intros s Hpos; simpl.
          - intros H. now inversion H; subst.
          - destruct (remove_file E s path) as [t|t r|t] eqn:Hone; try discriminate.
            apply IH. revert Hone. unfold remove_file.
            destruct (Contains _ _); [intros H; now inversion H; subst|].
            destruct (os.Remove _ _) as [fs1 [err|]].
            + destruct (negb _).
              * intros H. now destruct (set_Errors_grows _ _ _ _ H).
              * intros H. inversion H; subst. exact Hpos.
            + intros H. inversion H; subst. exact Hpos. }
        intros Hret.
        assert (Hst : s3 = st' /\ report = r_report s3).
        { destruct (r_needReload s3); [destruct (Reload E)|]; inversion Hret; auto. }
        destruct Hst as [-> ->]. split; [reflexivity|]. intros Hzero. lia.
    - apply Hend; auto.
      intros _ p Hp. apply negb_false_iff, Nat.eqb_eq in Hlen.
      destruct (r_allQuadletPaths s2); [now apply elem_of_nil in Hp | discriminate]. }
  destruct (negb (Nat.eqb (length (r_allServiceNames s1)) 0)).
  - destruct (ListUnitsByNames E _) as [statuses|e]; [|discriminate].
    destruct (for_range (remove_unit E options) statuses s1) as [s2|s2 r|s2] eqn:Hl2;
      [| |discriminate].
    2:{ intros H. exfalso.
        exact (for_range_no_return _ _ (remove_unit_no_return E options) _ _ _ Hl2). }
    destruct (units_loop_success _ _ _ Hl2) as (Hfs2 & Hpaths2 & Hrem2 & Herr2 & Hrun2).
    now apply Hfiles.
  - now apply Hfiles.
Qed.

End RmSuccess.

(** X18.  What exit status 0 of [podman quadlet rm] means.  When the engine
    call returns and [rm] ends without an error, every quadlet named on the
    command line is dealt with: a name that was found has its file gone
    and its base name printed; a name that was not found was given with
    [--ignore] and is printed as removed. *)
Theorem rm_success_means_removed (E : Env) (start : entities.QuadletRemoveReport)
    (fs fs' : gmap string node) (quadlets : list string)
    (options : entities.QuadletRemoveOptions) (returned : abi.remove_return)
    (out : quadlet_cmd.output) :
  entities.All options = false ->
  abi.remove_from E start fs quadlets options = Returned fs' returned ->
  quadlet_cmd.rm returned = quadlet_cmd.Exit out None ->
  forall quadlet, quadlet ∈ quadlets ->
    match abi.getQuadletByName E fs quadlet with
    | Ok path => fs' !! path = None /\ filepath.Base path ∈ quadlet_cmd.stdout out
    | Err _ => entities.Ignore options = true /\ quadlet ∈ quadlet_cmd.stdout out
    end.
Proof.
  intros Hall Hret Hrm.
  destruct returned as [[report|] err].
  - (* a report came back *)
    assert (Hout : err = None /\ GoMap.len (entities.Errors report) = 0
                   /\ quadlet_cmd.stdout out = entities.Removed report).
    { revert Hrm. unfold quadlet_cmd.rm. destruct err; [discriminate|].
      destruct (Nat.ltb 0 _) eqn:Hlt; [discriminate|].
      intros H. inversion H; subst. simpl. apply Nat.ltb_ge in Hlt.
      split_and!; [reflexivity | lia | reflexivity]. }
    destruct Hout as (-> & Hzero & ->).
    revert Hret. unfold abi.remove_from. rewrite Hall.
    destruct (_ && _); [discriminate|].
    destruct (ConnectToDBUS E); [discriminate|]. cbv zeta.
    destruct (abi.remove_loops E options quadlets _) as [st|st r|st] eqn:Hloops;
      [| |discriminate].
    + (* the loops end in a return statement *)
      exfalso. revert Hloops. unfold abi.remove_loops.
      destruct (for_range _ quadlets _); [|discriminate|discriminate].
      cbv zeta. destruct (if negb _ then _ else _); [|discriminate|discriminate].
      destruct (if negb _ then _ else _); [|discriminate|discriminate].
      destruct (abi.r_needReload _); [destruct (Reload E)|]; discriminate.
    + intros H. inversion H; subst. clear H.
      pose proof (fun H1 H2 => remove_loops_success E options Hall quadlets _ st report None
                                 H1 H2 Hloops) as Hgood.
      destruct (Hgood eq_refl eq_refl) as [-> Hfinal].
      exact (Hfinal Hzero).
  - (* no report: the engine returned an error *)
    exfalso. destruct (QuadletRemove_nil_report_error E start fs fs' quadlets options err Hret).
    revert Hrm. unfold quadlet_cmd.rm. destruct err; [discriminate | congruence].
Qed.

Lemma rm_success_means_removed_witness :
  let E := Scenario.env [] in
  let fs' := delete "/etc/containers/systemd/a.container" Scenario.small_disk in
  let returned : abi.remove_return :=
    (Some {| entities.Removed := ["a.container"]; entities.Errors := GoMap.nil |}, None) in
  let out := {| quadlet_cmd.stdout := ["a.container"]; quadlet_cmd.logged := [] |} in
  (entities.All Scenario.no_options = false
   /\ abi.remove_from E entities.new_QuadletRemoveReport Scenario.small_disk ["a.container"]
        Scenario.no_options = Returned fs' returned
   /\ quadlet_cmd.rm returned = quadlet_cmd.Exit out None
   /\ "a.container" ∈ ["a.container"])
  /\ match abi.getQuadletByName E Scenario.small_disk "a.container" with
     | Ok path => fs' !! path = None /\ filepath.Base path ∈ quadlet_cmd.stdout out
     | Err _ => entities.Ignore Scenario.no_options = true
                /\ "a.container" ∈ quadlet_cmd.stdout out
     end.
Proof.
  intros E fs' returned out.
  assert (H1 : entities.All Scenario.no_options = false) by reflexivity.
  assert (H2 : abi.remove_from E entities.new_QuadletRemoveReport Scenario.small_disk
                 ["a.container"] Scenario.no_options = Returned fs' returned)
    by (vm_compute; reflexivity).
  assert (H3 : quadlet_cmd.rm returned = quadlet_cmd.Exit out None) by reflexivity.
  assert (H4 : "a.container" ∈ ["a.container"]) by (apply list_elem_of_singleton; reflexivity).
  split; [split_and!; assumption|].
  exact (rm_success_means_removed E entities.new_QuadletRemoveReport Scenario.small_disk fs'
           ["a.container"] Scenario.no_options returned out H1 H2 H3 "a.container" H4).
Defined.

(** ** What [QuadletInstall] can return *)

Section InstallReturns.
Context (E : Env).
Import abi entities More.

(** One iteration from a state whose report is as [new] left it: it goes
    on only past an artifact without layers, and then nothing has changed;
    it returns only the error of an artifact that cannot be fetched. *)
Lemma install_one_fresh installDir st toInstall :
  i_report st = new_QuadletInstallReport ->
  match install_one E installDir st toInstall with
  | Continue st' => st' = st /\ empty_artifact E toInstall
  | Return st' r => st' = st /\ exists err, r = (None, Some err)
  | Panic _ => True
  end.
Proof.
  intros Hst. unfold install_one, empty_artifact.
  destruct (GoStrings.HasPrefix toInstall "oci-artifact://") eqn:Hoci.
  - destruct (GetLayers E _) as [layers|err]; [|split; eauto].
    destruct layers as [|layer layers]; [simpl; auto|].
    cbn [for_range]. unfold install_layer at 1. destruct layer as [filename pathOnDisk].
    destruct (installQuadlet E (i_fs st) pathOnDisk filename installDir) as [fs' r].
    rewrite record_install_nil; [exact I | exact Hst].
  - destruct (install_one_fresh_panics E installDir st toInstall Hst Hoci) as [st' H].
    unfold install_one in H. rewrite Hoci in H. now rewrite H.
Qed.

Lemma install_loop_fresh installDir pathsOrURLs : forall st,
  i_report st = new_QuadletInstallReport ->
  match for_range (install_one E installDir) pathsOrURLs st with
  | Continue st' => st' = st /\ Forall (empty_artifact E) pathsOrURLs
  | Return st' r => st' = st /\ exists err, r = (None, Some err)
  | Panic _ => True
  end.
Proof.
  induction pathsOrURLs as [|toInstall rest IH]; intros st Hst; simpl; [auto|].
  pose proof (install_one_fresh installDir st toInstall Hst) as Hone.
  destruct (install_one E installDir st toInstall) as [s1|s1 r|s1]; [| exact Hone | exact I].
  destruct Hone as [-> Hempty]. specialize (IH st Hst).
  destruct (for_range (install_one E installDir) rest st) as [st'|st' r|st'];
    [|exact IH|exact I].
  destruct IH as [-> Hrest]. split; [reflexivity | now constructor].
Qed.

End InstallReturns.

(** X19.  [QuadletInstall] returns only when it has installed nothing.  The
    maps of its report are never made, and every install of a file, a
    download or a layer is followed by an assignment to one of them; so
    whenever the call returns instead of panicking, the file system is as
    the preparation left it, a report that comes back is empty and every
    reference was an artifact without layers, and [install] prints no
    installed path and logs no failure. *)
Theorem QuadletInstall_returns_nothing_installed (E : Env) (fs fs' : gmap string node)
    (pathsOrURLs : list string) (options : entities.QuadletInstallOptions)
    (returned : abi.install_return) :
  abi.QuadletInstall E fs pathsOrURLs options = Returned fs' returned ->
  fs' = (abi.install_prepare E fs).1
  /\ (forall report, returned.1 = Some report ->
        report = entities.new_QuadletInstallReport
        /\ Forall (More.empty_artifact E) pathsOrURLs)
  /\ (forall out err, quadlet_cmd.install returned = quadlet_cmd.Exit out err ->
        quadlet_cmd.stdout out = [] /\ quadlet_cmd.logged out = []).
Proof.
  unfold abi.QuadletInstall.
  destruct (abi.install_prepare E fs) as [fs1 [installDir|e]]; cbn [fst].
  2:{ intros H. inversion H; subst. split_and!; [reflexivity | discriminate |].
      intros out err Hcmd. inversion Hcmd. auto. }
  unfold abi.install_from.
  destruct (ArtifactStore E) as [e|].
  { intros H. inversion H; subst. split_and!; [reflexivity | discriminate |].
    intros out err Hcmd. inversion Hcmd. auto. }
  pose proof (install_loop_fresh E installDir pathsOrURLs
                {| abi.i_fs := fs1; abi.i_report := entities.new_QuadletInstallReport;
                   abi.i_tmp := [] |} eq_refl) as Hloop.
  destruct (for_range (abi.install_one E installDir) pathsOrURLs _) as [st'|st' r|st'];
    [| |discriminate].
  - destruct Hloop as [-> Hempty]. cbn [abi.i_fs abi.i_tmp abi.run_deferred].
    intros H. inversion H; subst. clear H.
    assert (Hrep : exists err,
               abi.install_finish E options
                 {| abi.i_fs := fs'; abi.i_report := entities.new_QuadletInstallReport;
                    abi.i_tmp := [] |}
               = (Some entities.new_QuadletInstallReport, err)).
    { unfold abi.install_finish. cbv zeta. cbn [abi.i_report].
      destruct (entities.ReloadSystemd options); [destruct (Reload E)|]; eauto. }
    destruct Hrep as [err ->]. split_and!; [reflexivity | |].
    + intros report Hr. inversion Hr. auto.
    + intros out e. unfold quadlet_cmd.install. destruct err; intros Hcmd.
      * inversion Hcmd. auto.
      * cbn in Hcmd. inversion Hcmd. auto.
  - destruct Hloop as [-> [err ->]]. cbn [abi.i_fs abi.i_tmp abi.run_deferred].
    intros H. inversion H; subst. split_and!; [reflexivity | discriminate |].
    intros out e Hcmd. inversion Hcmd. auto.
Qed.

Lemma QuadletInstall_returns_nothing_installed_witness :
  let E := Scenario.env [] in
  let options := {| entities.ReloadSystemd := true |} in
  let returned : abi.install_return := (Some entities.new_QuadletInstallReport, None) in
  abi.QuadletInstall E Scenario2.generator_disk ["oci-artifact://empty:latest"] options
  = Returned Scenario2.generator_disk returned
  /\ (Scenario2.generator_disk = (abi.install_prepare E Scenario2.generator_disk).1
      /\ (forall report, returned.1 = Some report ->
            report = entities.new_QuadletInstallReport
            /\ Forall (More.empty_artifact E) ["oci-artifact://empty:latest"])
      /\ (forall out err, quadlet_cmd.install returned = quadlet_cmd.Exit out err ->
            quadlet_cmd.stdout out = [] /\ quadlet_cmd.logged out = [])).
Proof.
  intros E options returned.
  assert (H : abi.QuadletInstall E Scenario2.generator_disk ["oci-artifact://empty:latest"]
                options
              = Returned Scenario2.generator_disk returned) by (vm_compute; reflexivity).
  split; [exact H|].
  exact (QuadletInstall_returns_nothing_installed E Scenario2.generator_disk
           Scenario2.generator_disk ["oci-artifact://empty:latest"] options returned H).
Defined.

(** ** Preparation of an install by root *)

(** X20.  For root the preparation of [QuadletInstall] only looks: it leaves
    the disk as it is, whatever it returns, and it never makes the install
    directory.  It gets past the checks only when the generator is a regular
    file with the owner's execute bit and [UnitDirAdmin] is a directory
    that exists; that directory is then the install directory. *)
Theorem QuadletInstall_root_preparation (E : Env) (fs fs' : gmap string node)
    (prepared : result string) :
  IsRootless E = false ->
  abi.install_prepare E fs = (fs', prepared) ->
  fs' = fs
  /\ forall installDir, prepared = Ok installDir ->
       installDir = UnitDirAdmin E
       /\ fs !! installDir = Some Directory
       /\ exists perm data, fs !! abi.quadletPath = Some (File perm data)
                            /\ Z.land perm 64 <> 0%Z.
Proof.
  intros Hroot. unfold abi.install_prepare. rewrite Hroot.
  destruct (ConnectToDBUS E);
    [intros H; inversion H; split; [reflexivity | discriminate]|].
  unfold os.Stat at 1.
  destruct (fs !! abi.quadletPath) as [[perm data| |]|] eqn:Hgen;
    try (intros H; inversion H; split; [reflexivity | discriminate]).
  cbn [IsRegular Mode negb orb].
  destruct (Z.eqb_spec (Z.land perm 64) 0) as [Hz|Hnz]; cbn [negb];
    [intros H; inversion H; split; [reflexivity | discriminate]|].
  cbv zeta. unfold os.Stat.
  destruct (fs !! UnitDirAdmin E) as [[p d| |]|] eqn:Hdir; cbn [IsDir negb];
    try (intros H; inversion H; split; [reflexivity | discriminate]).
  intros H. inversion H; subst. split; [reflexivity|].
  intros installDir Hd. inversion Hd; subst.
  split_and!; [reflexivity | exact Hdir | eauto].
Qed.

Lemma QuadletInstall_root_preparation_witness :
  (IsRootless (Scenario.env []) = false
   /\ abi.install_prepare (Scenario.env []) Scenario.disk
      = (Scenario.disk, Ok "/etc/containers/systemd"))
  /\ (Scenario.disk = Scenario.disk
      /\ forall installDir, Ok "/etc/containers/systemd" = Ok installDir ->
           installDir = UnitDirAdmin (Scenario.env [])
           /\ Scenario.disk !! installDir = Some Directory
           /\ exists perm data, Scenario.disk !! abi.quadletPath = Some (File perm data)
                                /\ Z.land perm 64 <> 0%Z).
Proof.
  assert (H1 : IsRootless (Scenario.env []) = false) by reflexivity.
  assert (H2 : (abi.install_prepare (Scenario.env []) Scenario.disk).2
               = Ok "/etc/containers/systemd") by (vm_compute; reflexivity).
  assert (H3 : (abi.install_prepare (Scenario.env []) Scenario.disk).1 = Scenario.disk).
  { unfold abi.install_prepare. cbn [ConnectToDBUS Scenario.env IsRootless].
    destruct (os.Stat Scenario.disk abi.quadletPath) as [st|e]; [|reflexivity].
    destruct (_ || _); [reflexivity|]. cbv zeta.
    destruct (os.Stat Scenario.disk _) as [st2|e2]; [|reflexivity].
    destruct (negb _); reflexivity. }
  assert (H4 : abi.install_prepare (Scenario.env []) Scenario.disk
               = (Scenario.disk, Ok "/etc/containers/systemd")).
  { revert H2 H3. destruct (abi.install_prepare (Scenario.env []) Scenario.disk) as [a b].
    cbn [fst snd]. now intros -> ->. }
  split; [split; assumption|].
  exact (QuadletInstall_root_preparation (Scenario.env []) Scenario.disk Scenario.disk
           (Ok "/etc/containers/systemd") H1 H4).
Defined.

(** ** [ParseKVStringsOverDefaults] *)

Section KeyValues.
Import GoStrings unifiedcli.

Lemma parse_pair kvPair rest defaults k v :
  Cut_eq kvPair = (k, v, true) ->
  ParseKVStringsOverDefaults (kvPair :: rest) (Some defaults)
  = ParseKVStringsOverDefaults rest (Some (<[k := v]> defaults)).
Proof. intros H. simpl. unfold SplitN_eq_2. rewrite H. reflexivity. Qed.

Lemma parse_no_pair kvPair rest defaults k v :
  Cut_eq kvPair = (k, v, false) ->
  ParseKVStringsOverDefaults (kvPair :: rest) defaults
  = (defaults,
     Failed (errorString ("must provide a key-value pair separated by =, instead got "
                          +:+ kvPair))).
Proof. intros H. simpl. unfold SplitN_eq_2. rewrite H. reflexivity. Qed.

(** The pairs before the first element without [=] are assigned. *)
Lemma parse_prefix pre : forall defaults rest,
  (forall q, q ∈ pre -> (Cut_eq q).2 = true) ->
  exists m,
    ParseKVStringsOverDefaults pre (Some defaults) = (Some m, Parsed)
    /\ ParseKVStringsOverDefaults (pre ++ rest) (Some defaults)
       = ParseKVStringsOverDefaults rest (Some m).
Proof.
  induction pre as [|p pre IH]; intros defaults rest Hpre.
  - exists defaults. split; reflexivity.
  - destruct (Cut_eq p) as [[k v] found] eqn:Hcut.
    assert (found = true) as ->.
    { specialize (Hpre p ltac:(left)). now rewrite Hcut in Hpre. }
    destruct (IH (<[k := v]> defaults) rest) as (m & Hm & Happ).
    { intros q Hq. apply Hpre. now right. }
    exists m. cbn [app]. rewrite !(parse_pair _ _ _ _ _ Hcut). split; assumption.
Qed.

End KeyValues.

(** X21.  What [ParseKVStringsOverDefaults] returns when it ends without an
    error: every element had a [=]; the map holds for each key the value of
    the last pair that names it, the split being at the first [=]; every
    other key holds its default. *)
Theorem ParseKVStringsOverDefaults_overlay (kv : list string) (defaults : gmap string string)
    (after : GoMap.t string) :
  unifiedcli.ParseKVStringsOverDefaults kv (Some defaults) = (after, unifiedcli.Parsed) ->
  exists m,
    after = Some m
    /\ (forall kvPair, kvPair ∈ kv -> exists k v, kvPair = k +:+ "=" +:+ v)
    /\ (forall pre kvPair post k v,
          kv = (pre ++ kvPair :: post)%list ->
          GoStrings.Cut_eq kvPair = (k, v, true) ->
          (forall q, q ∈ post -> (GoStrings.Cut_eq q).1.1 <> k) ->
          m !! k = Some v)
    /\ (forall k, (forall q, q ∈ kv -> (GoStrings.Cut_eq q).1.1 <> k) ->
                  m !! k = defaults !! k).
Proof.
  revert defaults after. induction kv as [|p kv IH]; intros defaults after H.
  - simpl in H. inversion H; subst. exists defaults. split_and!; auto.
    + intros q Hq. now apply elem_of_nil in Hq.
    + intros pre q post k v Hkv. now destruct pre.
  - destruct (GoStrings.Cut_eq p) as [[k0 v0] found] eqn:Hcut. destruct found.
    2:{ rewrite (parse_no_pair _ _ _ _ _ Hcut) in H. discriminate. }
    rewrite (parse_pair _ _ _ _ _ Hcut) in H.
    destruct (IH _ _ H) as (m & -> & Hall & Hlast & Hother).
    exists m. split_and!; auto.
    + intros q Hq. apply elem_of_cons in Hq as [->|Hq]; [|auto].
      exists k0, v0. now apply Cut_eq_found.
    + intros pre q post k v Hkv Hq Hpost. destruct pre as [|p' pre].
      * simpl in Hkv. inversion Hkv; subst. rewrite Hcut in Hq. inversion Hq; subst.
        rewrite (Hother k Hpost). apply lookup_insert_eq.
      * simpl in Hkv. inversion Hkv; subst. exact (Hlast pre q post k v eq_refl Hq Hpost).
    + intros k Hk. rewrite Hother.
      * apply lookup_insert_ne. intros ->.
        apply (Hk p); [now left | now rewrite Hcut].
      * intros q Hq. apply Hk. now right.
Qed.

Lemma ParseKVStringsOverDefaults_overlay_witness :
  let defaults : gmap string string := {["a" := "0"; "c" := "9"]} in
  let after : gmap string string := <["a" := "3"]> (<["b" := "x=y"]> (<["a" := "1"]> defaults)) in
  unifiedcli.ParseKVStringsOverDefaults ["a=1"; "b=x=y"; "a=3"] (Some defaults)
  = (Some after, unifiedcli.Parsed)
  /\ exists m,
       Some after = Some m
       /\ (forall kvPair, kvPair ∈ ["a=1"; "b=x=y"; "a=3"] ->
             exists k v, kvPair = k +:+ "=" +:+ v)
       /\ (forall pre kvPair post k v,
             ["a=1"; "b=x=y"; "a=3"] = (pre ++ kvPair :: post)%list ->
             GoStrings.Cut_eq kvPair = (k, v, true) ->
             (forall q, q ∈ post -> (GoStrings.Cut_eq q).1.1 <> k) ->
             m !! k = Some v)
       /\ (forall k, (forall q, q ∈ ["a=1"; "b=x=y"; "a=3"] -> (GoStrings.Cut_eq q).1.1 <> k) ->
                     m !! k = defaults !! k).
Proof.
  intros defaults after.
  assert (H : unifiedcli.ParseKVStringsOverDefaults ["a=1"; "b=x=y"; "a=3"] (Some defaults)
              = (Some after, unifiedcli.Parsed)) by reflexivity.
  split; [exact H|].
  exact (ParseKVStringsOverDefaults_overlay ["a=1"; "b=x=y"; "a=3"] defaults (Some after) H).
Defined.

(** X22.  A failed parse still changes the caller's map.  When the first
    element without [=] comes after some pairs, the call returns the error
    that names that element, and the map [defaults] refers to holds those
    pairs: it is the map a call with only them would have left.  The
    elements after it are not looked at. *)
Theorem ParseKVStringsOverDefaults_failure_keeps_assignments (pre post : list string)
    (kvPair : string) (defaults : gmap string string) :
  (forall q, q ∈ pre -> exists k v, GoStrings.Cut_eq q = (k, v, true)) ->
  (GoStrings.Cut_eq kvPair).2 = false ->
  exists m,
    unifiedcli.ParseKVStringsOverDefaults pre (Some defaults) = (Some m, unifiedcli.Parsed)
    /\ unifiedcli.ParseKVStringsOverDefaults (pre ++ kvPair :: post) (Some defaults)
       = (Some m,
          unifiedcli.Failed
            (errorString ("must provide a key-value pair separated by =, instead got "
                          +:+ kvPair))).
Proof.
  intros Hpre Hbad.
  destruct (parse_prefix pre defaults (kvPair :: post)) as (m & Hm & Happ).
  { intros q Hq. destruct (Hpre q Hq) as (k & v & ->). reflexivity. }
  exists m. split; [exact Hm|]. rewrite Happ.
  destruct (GoStrings.Cut_eq kvPair) as [[k v] found] eqn:Hcut. simpl in Hbad. subst found.
  exact (parse_no_pair _ _ _ _ _ Hcut).
Qed.

Lemma ParseKVStringsOverDefaults_failure_keeps_assignments_witness :
  let defaults : gmap string string := {["a" := "0"]} in
  ((forall q, q ∈ ["a=1"] -> exists k v, GoStrings.Cut_eq q = (k, v, true))
   /\ (GoStrings.Cut_eq "b").2 = false)
  /\ exists m,
       unifiedcli.ParseKVStringsOverDefaults ["a=1"] (Some defaults)
       = (Some m, unifiedcli.Parsed)
       /\ unifiedcli.ParseKVStringsOverDefaults (["a=1"] ++ "b" :: ["c=2"]) (Some defaults)
          = (Some m,
             unifiedcli.Failed
               (errorString ("must provide a key-value pair separated by =, instead got "
                             +:+ "b"))).
Proof.
  intros defaults.
  assert (H1 : forall q, q ∈ ["a=1"] -> exists k v, GoStrings.Cut_eq q = (k, v, true)).
  { intros q Hq. apply list_elem_of_singleton in Hq as ->. exists "a", "1". reflexivity. }
  assert (H2 : (GoStrings.Cut_eq "b").2 = false) by reflexivity.
  split; [split; assumption|].
  exact (ParseKVStringsOverDefaults_failure_keeps_assignments ["a=1"] ["c=2"] "b" defaults
           H1 H2).
Defined.

(** ** Install, then remove *)

(** X23.  Removing what was installed gives the disk back.  After a local
    file was installed under its own base name into a unit directory, when
    for every unit directory before that one [os.Stat] of the name in it
    fails with an error that [os.IsNotExist] accepts, the machine does not
    refuse the unlink of the installed file, and systemd has no loaded unit
    for it: removing the quadlet by that name returns without an error,
    lists the name as removed, and leaves the file system exactly as it was
    before the install. *)
Theorem install_then_remove (E : Env) (fs fs' : gmap string node)
    (path installDir finalPath serviceName : string) (pre post : list string)
    (statuses : list dbus.UnitStatus) (options : entities.QuadletRemoveOptions) :
  abi.installQuadlet E fs path "" installDir = (fs', Ok finalPath) ->
  GetUnitDirs E (IsRootless E) = (pre ++ installDir :: post)%list ->
  (forall d, d ∈ pre ->
     exists err,
       os.Stat fs' (filepath.Join d (filepath.Base (filepath.Clean path))) = Err err
       /\ IsNotExist err = true) ->
  abi.IsExtSupported E (filepath.Base (filepath.Clean path)) = true ->
  entities.All options = false ->
  ConnectToDBUS E = None ->
  abi.getQuadletServiceName E fs' finalPath = Ok serviceName ->
  Remove_fault E finalPath = None ->
  ListUnitsByNames E [serviceName] = Ok statuses ->
  (forall u, u ∈ statuses -> dbus.LoadState u <> "loaded") ->
  abi.QuadletRemove E fs' [filepath.Base (filepath.Clean path)] options
  = Returned fs
      (Some {| entities.Removed := [filepath.Base finalPath]; entities.Errors := GoMap.nil |},
       None).
Proof.
  intros Hinst Hdirs Hpre Hext Hall Hconn Hparse Hok Hunits Hnot.
  apply installQuadlet_written in Hinst as [Hdest (data & Hread & Hfree & ->)].
  unfold abi.install_destination in Hdest. simpl in Hdest.
  set (name := filepath.Base (filepath.Clean path)) in *.
  set (mode := Z.land 420 (Z.lnot (umask E))) in *.
  assert (Hname : abi.getQuadletByName E (<[finalPath := File mode data]> fs) name
                  = Ok finalPath).
  { unfold abi.getQuadletByName. rewrite Hext, Hdirs. simpl.
    rewrite find_quadlet_skip by exact Hpre. subst finalPath.
    eapply find_quadlet_here. unfold os.Stat. rewrite lookup_insert_eq. reflexivity. }
  unfold abi.QuadletRemove, abi.remove_from. rewrite Hall.
  cbn [length Nat.eqb andb]. rewrite Hconn. cbv zeta. unfold abi.remove_loops.
  match goal with |- context [for_range _ _ ?st0] =>
    destruct (resolve_all_found E options [name] [finalPath] [serviceName] st0)
      as [m Hm]
  end.
  { constructor; [exact Hname | constructor]. }
  { constructor; [exact Hparse | constructor]. }
  rewrite Hm. cbn [abi.r_allServiceNames abi.r_allQuadletPaths app length Nat.eqb negb].
  rewrite Hunits. rewrite units_not_loaded by exact Hnot.
  cbn [abi.r_allServiceNames abi.r_allQuadletPaths app length Nat.eqb negb].
  rewrite remove_files_all; [|reflexivity| |].
  - cbn [abi.r_with_report abi.r_with_fs abi.r_needReload abi.r_report abi.r_fs
         More.delete_all foldl entities.Removed entities.Errors
         entities.new_QuadletRemoveReport app fmap list_fmap].
    rewrite delete_insert_id by exact Hfree. reflexivity.
  - intros p Hp. apply list_elem_of_singleton in Hp as ->. exact Hok.
  - intros p Hp. apply list_elem_of_singleton in Hp as ->. right.
    exists mode, data. apply lookup_insert_eq.
Qed.

Lemma install_then_remove_witness :
  let E := Scenario.env [] in
  let fs' := <["/usr/share/containers/systemd/web.container"
               := File 420 "[Container] Image=web"]> Scenario2.two_dirs_disk in
  let name := filepath.Base (filepath.Clean "/src/web.container") in
  let statuses := [Scenario.not_found "web.service"] in
  (abi.installQuadlet E Scenario2.two_dirs_disk "/src/web.container" ""
     "/usr/share/containers/systemd"
   = (fs', Ok "/usr/share/containers/systemd/web.container")
   /\ GetUnitDirs E (IsRootless E)
      = (["/etc/containers/systemd"] ++ "/usr/share/containers/systemd" :: [])%list
   /\ (forall d, d ∈ ["/etc/containers/systemd"] ->
         exists err, os.Stat fs' (filepath.Join d name) = Err err /\ IsNotExist err = true)
   /\ abi.IsExtSupported E name = true
   /\ entities.All Scenario.no_options = false
   /\ ConnectToDBUS E = None
   /\ abi.getQuadletServiceName E fs' "/usr/share/containers/systemd/web.container"
      = Ok "web.service"
   /\ Remove_fault E "/usr/share/containers/systemd/web.container" = None
   /\ ListUnitsByNames E ["web.service"] = Ok statuses
   /\ (forall u, u ∈ statuses -> dbus.LoadState u <> "loaded"))
  /\ abi.QuadletRemove E fs' [name] Scenario.no_options
     = Returned Scenario2.two_dirs_disk
         (Some {| entities.Removed :=
                    [filepath.Base "/usr/share/containers/systemd/web.container"];
                  entities.Errors := GoMap.nil |}, None).
Proof.
  intros E fs' name statuses.
  assert (H1 : abi.installQuadlet E Scenario2.two_dirs_disk "/src/web.container" ""
                 "/usr/share/containers/systemd"
               = (fs', Ok "/usr/share/containers/systemd/web.container"))
    by (vm_compute; reflexivity).
  assert (H2 : GetUnitDirs E (IsRootless E)
               = (["/etc/containers/systemd"] ++ "/usr/share/containers/systemd" :: [])%list)
    by reflexivity.
  assert (H3 : forall d, d ∈ ["/etc/containers/systemd"] ->
             exists err, os.Stat fs' (filepath.Join d name) = Err err
                         /\ IsNotExist err = true).
  { intros d Hd. apply list_elem_of_singleton in Hd as ->.
    exists (PathError "stat" "/etc/containers/systemd/web.container" ENOENT).
    split; vm_compute; reflexivity. }
  assert (H4 : abi.IsExtSupported E name = true) by (vm_compute; reflexivity).
  assert (H5 : entities.All Scenario.no_options = false) by reflexivity.
  assert (H6 : ConnectToDBUS E = None) by reflexivity.
  assert (H7 : abi.getQuadletServiceName E fs' "/usr/share/containers/systemd/web.container"
               = Ok "web.service") by (vm_compute; reflexivity).
  assert (H8 : Remove_fault E "/usr/share/containers/systemd/web.container" = None)
    by reflexivity.
  assert (H9 : ListUnitsByNames E ["web.service"] = Ok statuses) by reflexivity.
  assert (H10 : forall u, u ∈ statuses -> dbus.LoadState u <> "loaded").
  { intros u Hu. apply list_elem_of_singleton in Hu as ->. discriminate. }
  split; [split_and!; assumption|].
  exact (install_then_remove E Scenario2.two_dirs_disk fs' "/src/web.container"
           "/usr/share/containers/systemd" "/usr/share/containers/systemd/web.container"
           "web.service" ["/etc/containers/systemd"] [] statuses Scenario.no_options
           H1 H2 H3 H4 H5 H6 H7 H8 H9 H10).
Defined.

(** ** The registry of command-line options *)

Section OptionFacts.
Import clioption OptionNotions.
Context {UnitFile FieldFn PodFieldFn : Type}.
Context (LookupAll : UnitFile -> string -> string -> list string).

Local Abbreviation Option R P :=
  (CLIOption (UnitFile := UnitFile) (FieldFn := FieldFn) (PodFieldFn := PodFieldFn) R P).

(** An option that passes [Validate] and has a quadlet key has a function
    to parse it. *)
Lemma Validate_quadlet_parser {R P} (opt : Option R P) :
  Validate opt = None -> QuadletKeyName opt <> "" -> QuadletParseFn opt <> None.
Proof.
  unfold Validate. intros Hv Hkey Hnil.
  destruct (String.eqb_spec (QuadletKeyName opt) "") as [|_]; [contradiction|].
  rewrite Hnil in Hv. cbn [negb is_nil andb] in Hv.
  destruct (negb (String.eqb (QuadletGroupName opt) "")); simpl in Hv; discriminate.
Qed.

Lemma ParseQuadlet_valid {R P} (opt : Option R P) unit cmdline :
  Validate opt = None -> ParseQuadlet opt unit cmdline <> NilFunctionCall.
Proof.
  intros Hv. unfold ParseQuadlet.
  destruct (String.eqb_spec (QuadletKeyName opt) "") as [|Hkey]; [discriminate|].
  pose proof (Validate_quadlet_parser opt Hv Hkey) as Hfn.
  destruct (QuadletParseFn opt); [discriminate | contradiction].
Qed.

Lemma parse_all_valid {R P} (opts : list (Option R P)) unit : forall cmdline,
  Forall (fun opt => Validate opt = None) opts ->
  parse_all opts unit cmdline <> NilFunctionCall.
Proof.
  induction opts as [|o opts IH]; intros cmdline Hvalid; simpl; [discriminate|].
  apply Forall_cons in Hvalid as [Ho Hrest].
  pose proof (ParseQuadlet_valid o unit cmdline Ho) as Hcall.
  destruct (ParseQuadlet o unit cmdline) as [[cmdline' [err|]]|];
    [discriminate | now apply IH | contradiction].
Qed.

(** One loop over options that all use [QuadletParseOptionBeforeEvery]. *)
Lemma parse_all_before_every {R P} (opts : list (Option R P)) unit : forall cmdline,
  Forall (fun opt => QuadletKeyName opt <> "" ->
                     QuadletParseFn opt = Some (QuadletParseOptionBeforeEvery LookupAll)) opts ->
  parse_all opts unit cmdline
  = Returns ({| Args := (Args cmdline ++ flat_map (option_args LookupAll unit) opts)%list |},
             None).
Proof.
  induction opts as [|o opts IH]; intros cmdline Hall; simpl.
  - rewrite app_nil_r. now destruct cmdline.
  - apply Forall_cons in Hall as [Ho Hrest]. unfold ParseQuadlet, option_args at 1.
    destruct (String.eqb_spec (QuadletKeyName o) "") as [Hkey|Hkey].
    + rewrite (IH _ Hrest). reflexivity.
    + rewrite (Ho Hkey). unfold QuadletParseOptionBeforeEvery at 1.
      rewrite (IH _ Hrest). do 2 f_equal. f_equal. rewrite app_assoc. f_equal.
      generalize (LookupAll unit (QuadletGroupName o) (QuadletKeyName o)) as values.
      intros values. revert cmdline. clear.
      induction values as [|v values IHv]; intros cmdline; simpl.
      * now rewrite app_nil_r.
      * rewrite IHv. simpl. now rewrite <- app_assoc.
Qed.

End OptionFacts.

(** X24.  Whatever is registered, [ParseQuadletFile] calls no nil function.
    [AddStringOption] and [AddStringArrayOption] keep an option only when
    [Validate] accepts it, and an accepted option with a quadlet key has a
    [QuadletParseFn]; so after any sequence of registrations, starting from
    the empty lists, parsing a unit file never dereferences a nil function
    field. *)
Theorem ParseQuadletFile_never_calls_nil
    {UnitFile FieldFn PodFieldFn SR SP AR AP : Type}
    (registrations : list (clioption.registration (UnitFile := UnitFile) (FieldFn := FieldFn)
                             (PodFieldFn := PodFieldFn) (StringRetrieveFn := SR)
                             (StringParseFn := SP) (ArrayRetrieveFn := AR)
                             (ArrayParseFn := AP)))
    (unit : UnitFile) (cmdline : clioption.PodmanCmdline) :
  clioption.ParseQuadletFile (foldl clioption.register clioption.no_options registrations)
    unit cmdline
  <> clioption.NilFunctionCall.
Proof.
  assert (Hvalid : Forall (fun opt => clioption.Validate opt = None)
                     (clioption.runStringOpts
                        (foldl clioption.register clioption.no_options registrations))).
  { assert (Hstart : Forall (fun opt => clioption.Validate opt = None)
                       (clioption.runStringOpts
                          (clioption.no_options (UnitFile := UnitFile) (FieldFn := FieldFn)
                             (PodFieldFn := PodFieldFn) (StringRetrieveFn := SR)
                             (StringParseFn := SP) (ArrayRetrieveFn := AR)
                             (ArrayParseFn := AP)))) by constructor.
    revert Hstart. generalize (clioption.no_options (UnitFile := UnitFile)
                                 (FieldFn := FieldFn) (PodFieldFn := PodFieldFn)
                                 (StringRetrieveFn := SR) (StringParseFn := SP)
                                 (ArrayRetrieveFn := AR) (ArrayParseFn := AP)) as reg.
    induction registrations as [|r rest IH]; intros reg Hreg; simpl; [exact Hreg|].
    apply IH. destruct r as [opt|opt]; simpl.
    - unfold clioption.AddStringOption.
      destruct (clioption.Validate opt) eqn:Hv; simpl; [exact Hreg|].
      apply Forall_app. split; [exact Hreg|]. now constructor.
    - unfold clioption.AddStringArrayOption.
      destruct (clioption.Validate opt); simpl; exact Hreg. }
  unfold clioption.ParseQuadletFile.
  pose proof (parse_all_valid _ unit cmdline Hvalid) as Hfirst.
  destruct (clioption.parse_all _ unit cmdline) as [[cmdline' [err|]]|];
    [discriminate | | contradiction].
  now apply parse_all_valid.
Qed.

(** X25.  [ParseQuadletFile] passes every string option twice and no string
    array option at all.  When every registered string option with a quadlet
    key is parsed by [QuadletParseOptionBeforeEvery], the call returns no
    error, and the command line has grown by the arguments of the string
    options followed by the same arguments once more; the string array
    options add nothing. *)
Theorem ParseQuadletFile_string_options_twice
    {UnitFile FieldFn PodFieldFn SR SP AR AP : Type}
    (LookupAll : UnitFile -> string -> string -> list string)
    (reg : clioption.registry (UnitFile := UnitFile) (FieldFn := FieldFn)
             (PodFieldFn := PodFieldFn) (StringRetrieveFn := SR) (StringParseFn := SP)
             (ArrayRetrieveFn := AR) (ArrayParseFn := AP))
    (unit : UnitFile) (cmdline : clioption.PodmanCmdline) :
  Forall (fun opt => clioption.QuadletKeyName opt <> "" ->
                     clioption.QuadletParseFn opt
                     = Some (clioption.QuadletParseOptionBeforeEvery LookupAll))
    (clioption.runStringOpts reg) ->
  clioption.ParseQuadletFile reg unit cmdline
  = clioption.Returns
      ({| clioption.Args :=
            (clioption.Args cmdline
             ++ flat_map (OptionNotions.option_args LookupAll unit) (clioption.runStringOpts reg)
             ++ flat_map (OptionNotions.option_args LookupAll unit)
                  (clioption.runStringOpts reg))%list |},
       None).
Proof.
  intros Hall. unfold clioption.ParseQuadletFile.
  rewrite (parse_all_before_every LookupAll _ unit cmdline Hall).
  rewrite (parse_all_before_every LookupAll _ unit _ Hall).
  cbn [clioption.Args]. now rewrite <- app_assoc.
Qed.

Lemma ParseQuadletFile_string_options_twice_witness :
  Forall (fun opt => clioption.QuadletKeyName opt <> "" ->
                     clioption.QuadletParseFn opt
                     = Some (clioption.QuadletParseOptionBeforeEvery
                               OptionNotions.lines_LookupAll))
    (clioption.runStringOpts Scenario3.options)
  /\ clioption.ParseQuadletFile Scenario3.options Scenario3.unit_file
       {| clioption.Args := ["run"] |}
     = clioption.Returns
         ({| clioption.Args :=
               (["run"]
                ++ flat_map (OptionNotions.option_args OptionNotions.lines_LookupAll
                               Scenario3.unit_file)
                     (clioption.runStringOpts Scenario3.options)
                ++ flat_map (OptionNotions.option_args OptionNotions.lines_LookupAll
                               Scenario3.unit_file)
                     (clioption.runStringOpts Scenario3.options))%list |},
          None).
Proof.
  assert (H : Forall (fun opt => clioption.QuadletKeyName opt <> "" ->
                                 clioption.QuadletParseFn opt
                                 = Some (clioption.QuadletParseOptionBeforeEvery
                                           OptionNotions.lines_LookupAll))
                (clioption.runStringOpts Scenario3.options))
    by (repeat constructor).
  split; [exact H|].
  exact (ParseQuadletFile_string_options_twice OptionNotions.lines_LookupAll
           Scenario3.options Scenario3.unit_file {| clioption.Args := ["run"] |} H).
Defined.

(** ** References that are URLs *)

Section UrlFacts.
Context (E : Env).
Import abi entities.

(** [installQuadlet] returns an error for a destination whose extension is
    not supported. *)
Lemma installQuadlet_unsupported fs path destName installDir :
  IsExtSupported E (install_destination path destName installDir) = false ->
  exists err, installQuadlet E fs path destName installDir = (fs, Err err).
Proof.
  intros Hext. unfold installQuadlet.
  destruct (os.Stat fs path) as [stat|e]; [|eauto].
  destruct (IsDir stat); [eauto|].
  destruct (os.Stat fs _); [eauto|].
  rewrite Hext. cbn [negb]. eauto.
Qed.

Lemma set_QuadletErrors_outcome st key err :
  match set_QuadletErrors st key err with
  | Continue st' =>
      i_fs st' = i_fs st
      /\ InstalledQuadlets (i_report st') = InstalledQuadlets (i_report st)
      /\ GoMap.get (QuadletErrors (i_report st')) key = Some err
  | Return _ _ => False
  | Panic st' => i_fs st' = i_fs st /\ QuadletErrors (i_report st) = GoMap.nil
  end.
Proof.
  unfold set_QuadletErrors, GoMap.set.
  destruct (QuadletErrors (i_report st)) as [tbl|]; simpl; [|auto].
  split_and!; try reflexivity. apply lookup_insert_eq.
Qed.

End UrlFacts.

(** X26.  A reference that is a URL is never installed.  [os.CreateTemp]
    names the download after the pattern [quadlet-dl], and it is that name
    [installQuadlet] derives the destination from; when the destination so
    derived has no supported extension, the iteration for the reference
    ends with an error recorded for it, whatever the server answers, or with
    the assignment to a nil [QuadletErrors].  Nothing is added to
    [InstalledQuadlets], and no path but the temporary file changes. *)
Theorem install_url_never_installs (E : Env) (installDir : string)
    (st : abi.install_state) (toInstall tmpFile : string) :
  GoStrings.HasPrefix toInstall "oci-artifact://" = false ->
  GoStrings.HasPrefix toInstall "http://" || GoStrings.HasPrefix toInstall "https://" = true ->
  CreateTemp E (abi.i_fs st) = Ok tmpFile ->
  abi.IsExtSupported E (abi.install_destination tmpFile "" installDir) = false ->
  match abi.install_one E installDir st toInstall with
  | Continue st' =>
      (exists err, GoMap.get (entities.QuadletErrors (abi.i_report st')) toInstall = Some err)
      /\ entities.InstalledQuadlets (abi.i_report st')
         = entities.InstalledQuadlets (abi.i_report st)
      /\ (forall p, p <> tmpFile -> abi.i_fs st' !! p = abi.i_fs st !! p)
  | Return _ _ => False
  | Panic st' =>
      entities.QuadletErrors (abi.i_report st) = GoMap.nil
      /\ (forall p, p <> tmpFile -> abi.i_fs st' !! p = abi.i_fs st !! p)
  end.
Proof.
  intros Hoci Hurl Htmp Hext. unfold abi.install_one. rewrite Hoci, Hurl, Htmp.
  assert (Hrecord : forall fs1 err,
             (forall p, p <> tmpFile -> fs1 !! p = abi.i_fs st !! p) ->
             match abi.set_QuadletErrors
                     {| abi.i_fs := fs1; abi.i_report := abi.i_report st;
                        abi.i_tmp := tmpFile :: abi.i_tmp st |} toInstall err with
             | Continue st' =>
                 (exists err, GoMap.get (entities.QuadletErrors (abi.i_report st')) toInstall
                              = Some err)
                 /\ entities.InstalledQuadlets (abi.i_report st')
                    = entities.InstalledQuadlets (abi.i_report st)
                 /\ (forall p, p <> tmpFile -> abi.i_fs st' !! p = abi.i_fs st !! p)
             | Return _ _ => False
             | Panic st' =>
                 entities.QuadletErrors (abi.i_report st) = GoMap.nil
                 /\ (forall p, p <> tmpFile -> abi.i_fs st' !! p = abi.i_fs st !! p)
             end).
  { intros fs1 err Hfs1.
    pose proof (set_QuadletErrors_outcome
                  {| abi.i_fs := fs1; abi.i_report := abi.i_report st;
                     abi.i_tmp := tmpFile :: abi.i_tmp st |} toInstall err) as Hout.
    destruct (abi.set_QuadletErrors _ toInstall err) as [st'|st' r|st'];
      cbn [abi.i_fs abi.i_report] in Hout.
    - destruct Hout as (Hfs & Hinst & Hkey). split_and!; [eauto | exact Hinst |].
      intros p Hp. rewrite Hfs. now apply Hfs1.
    - exact Hout.
    - destruct Hout as (Hfs & Hnil). split; [exact Hnil|].
      intros p Hp. rewrite Hfs. now apply Hfs1. }
  assert (Hcreated : forall p, p <> tmpFile ->
             <[tmpFile := File 384 ""]> (abi.i_fs st) !! p = abi.i_fs st !! p)
    by (intros p Hp; now apply lookup_insert_ne).
  destruct (http_Get E toInstall) as [r|err]; [|now apply Hrecord].
  unfold abi.copy_body. cbn [abi.i_fs].
  destruct (http.BodyErr r) as [err|].
  - unfold abi.i_with_fs. cbn [abi.i_fs abi.i_report abi.i_tmp]. now apply Hrecord.
  - destruct (installQuadlet_unsupported E
                (<[tmpFile := File 384 (http.Body r)]> (<[tmpFile := File 384 ""]> (abi.i_fs st)))
                tmpFile "" installDir Hext) as [err ->].
    cbn [abi.record_install]. unfold abi.i_with_fs. cbn [abi.i_fs abi.i_report abi.i_tmp].
    apply Hrecord. intros p Hp. rewrite lookup_insert_ne by congruence. now apply Hcreated.
Qed.

Lemma install_url_never_installs_witness :
  let E := Scenario.env [] in
  let st := {| abi.i_fs := Scenario2.source_disk; abi.i_report := Scenario.made_InstallReport;
               abi.i_tmp := [] |} in
  let toInstall := "https://example.com/missing.container" in
  (GoStrings.HasPrefix toInstall "oci-artifact://" = false
   /\ GoStrings.HasPrefix toInstall "http://" || GoStrings.HasPrefix toInstall "https://" = true
   /\ CreateTemp E (abi.i_fs st) = Ok "/tmp/quadlet-dl1"
   /\ abi.IsExtSupported E (abi.install_destination "/tmp/quadlet-dl1" ""
                              "/etc/containers/systemd") = false)
  /\ match abi.install_one E "/etc/containers/systemd" st toInstall with
     | Continue st' =>
         (exists err, GoMap.get (entities.QuadletErrors (abi.i_report st')) toInstall
                      = Some err)
         /\ entities.InstalledQuadlets (abi.i_report st')
            = entities.InstalledQuadlets (abi.i_report st)
         /\ (forall p, p <> "/tmp/quadlet-dl1" -> abi.i_fs st' !! p = abi.i_fs st !! p)
     | Return _ _ => False
     | Panic st' =>
         entities.QuadletErrors (abi.i_report st) = GoMap.nil
         /\ (forall p, p <> "/tmp/quadlet-dl1" -> abi.i_fs st' !! p = abi.i_fs st !! p)
     end.
Proof.
  intros E st toInstall.
  assert (H1 : GoStrings.HasPrefix toInstall "oci-artifact://" = false) by reflexivity.
  assert (H2 : GoStrings.HasPrefix toInstall "http://"
               || GoStrings.HasPrefix toInstall "https://" = true) by reflexivity.
  assert (H3 : CreateTemp E (abi.i_fs st) = Ok "/tmp/quadlet-dl1") by reflexivity.
  assert (H4 : abi.IsExtSupported E (abi.install_destination "/tmp/quadlet-dl1" ""
                                       "/etc/containers/systemd") = false)
    by (vm_compute; reflexivity).
  split; [split_and!; assumption|].
  exact (install_url_never_installs E "/etc/containers/systemd" st toInstall
           "/tmp/quadlet-dl1" H1 H2 H3 H4).
Defined.

(** ** A removal the machine refuses *)

(** X27.  A quadlet that cannot be unlinked makes [QuadletRemove] panic.
    For one name that is found as a regular file and parses, and whose unit
    is not loaded, when the machine refuses the unlink (the directory is not
    writable by the caller, or the file system is read-only): the call
    panics on the assignment of the error to the nil [Errors] of its report,
    and the file system is as it was. *)
Theorem QuadletRemove_refused_unlink_panics (E : Env) (fs : gmap string node)
    (quadlet quadletPath serviceName : string) (statuses : list dbus.UnitStatus)
    (options : entities.QuadletRemoveOptions) (perm : Z) (data : string)
    (why : os.refusal) :
  entities.All options = false ->
  ConnectToDBUS E = None ->
  abi.getQuadletByName E fs quadlet = Ok quadletPath ->
  abi.getQuadletServiceName E fs quadletPath = Ok serviceName ->
  fs !! quadletPath = Some (File perm data) ->
  Remove_fault E quadletPath = Some why ->
  ListUnitsByNames E [serviceName] = Ok statuses ->
  (forall u, u ∈ statuses -> dbus.LoadState u <> "loaded") ->
  abi.QuadletRemove E fs [quadlet] options = Panicked fs.
Proof.
  intros Hall Hconn Hname Hparse Hfile Hwhy Hunits Hnot.
  unfold abi.QuadletRemove, abi.remove_from. rewrite Hall.
  cbn [length Nat.eqb andb]. rewrite Hconn. cbv zeta. unfold abi.remove_loops.
  match goal with |- context [for_range _ _ ?st0] =>
    destruct (resolve_all_found E options [quadlet] [quadletPath] [serviceName] st0)
      as [m Hm]
  end.
  { constructor; [exact Hname | constructor]. }
  { constructor; [exact Hparse | constructor]. }
  rewrite Hm. cbn [abi.r_allServiceNames abi.r_allQuadletPaths app length Nat.eqb negb].
  rewrite Hunits. rewrite units_not_loaded by exact Hnot.
  cbn [abi.r_allServiceNames abi.r_allQuadletPaths app length Nat.eqb negb for_range].
  unfold abi.remove_file.
  cbn [abi.r_runningQuadlets abi.r_fs abi.Contains existsb].
  rewrite Hwhy. unfold os.Remove. rewrite Hfile. unfold os.unlinked.
  assert (Hno : Is_ErrNotExist (PathError "remove" quadletPath (os.refusal_errno why)) = false)
    by (destruct why; reflexivity).
  rewrite Hno. cbn [negb].
  rewrite set_Errors_nil by reflexivity. reflexivity.
Qed.

Lemma QuadletRemove_refused_unlink_panics_witness :
  let E := Scenario.rootless_env in
  let path := "/etc/containers/systemd/users/1000/a.container" in
  let statuses := [Scenario.not_found "a.service"] in
  (entities.All Scenario.no_options = false
   /\ ConnectToDBUS E = None
   /\ abi.getQuadletByName E Scenario2.admin_quadlet_disk "a.container" = Ok path
   /\ abi.getQuadletServiceName E Scenario2.admin_quadlet_disk path = Ok "a.service"
   /\ Scenario2.admin_quadlet_disk !! path = Some (File 420 "[Container]")
   /\ Remove_fault E path = Some os.NotPermitted
   /\ ListUnitsByNames E ["a.service"] = Ok statuses
   /\ (forall u, u ∈ statuses -> dbus.LoadState u <> "loaded"))
  /\ abi.QuadletRemove E Scenario2.admin_quadlet_disk ["a.container"] Scenario.no_options
     = Panicked Scenario2.admin_quadlet_disk.
Proof.
  intros E path statuses.
  assert (H1 : entities.All Scenario.no_options = false) by reflexivity.
  assert (H2 : ConnectToDBUS E = None) by reflexivity.
  assert (H3 : abi.getQuadletByName E Scenario2.admin_quadlet_disk "a.container" = Ok path)
    by (vm_compute; reflexivity).
  assert (H4 : abi.getQuadletServiceName E Scenario2.admin_quadlet_disk path = Ok "a.service")
    by (vm_compute; reflexivity).
  assert (H5 : Scenario2.admin_quadlet_disk !! path = Some (File 420 "[Container]"))
    by (vm_compute; reflexivity).
  assert (H6 : Remove_fault E path = Some os.NotPermitted) by (vm_compute; reflexivity).
  assert (H7 : ListUnitsByNames E ["a.service"] = Ok statuses) by reflexivity.
  assert (H8 : forall u, u ∈ statuses -> dbus.LoadState u <> "loaded").
  { intros u Hu. apply list_elem_of_singleton in Hu as ->. discriminate. }
  split; [split_and!; assumption|].
  exact (QuadletRemove_refused_unlink_panics E Scenario2.admin_quadlet_disk "a.container"
           path "a.service" statuses Scenario.no_options 420%Z "[Container]" os.NotPermitted
           H1 H2 H3 H4 H5 H6 H7 H8).
Defined.
